(** * go-arctest: the architecture model and its rule engines

    A shallow embedding of package [arctest] (dependency rules, layers and
    the layered architecture, interface-implementation rules and parameter
    rules) and of the validation of package [config], together with the
    properties its specification states and further properties of the code.

    Conventions of the embedding.
    - A Go [string] is a [string] of bytes.
    - A Go [map[string]T] is a [gmap string T].  A [range] over a map visits
      the entries in an order the language leaves unspecified and that may
      change from one execution of the statement to the next; every [range]
      over a map is therefore a nondeterministic choice of a permutation of
      the entries ([rangeMap]), and a check is a set of possible outcomes.
    - A [range] over a slice is a fold over a list, front to back.
    - Pointers to model objects are the objects themselves, never [nil];
      in particular a rule carries its compiled patterns, as the
      constructors leave them.  The back-reference [Struct.Pkg] is only read
      for [Pkg.Path] and is stored as that path.  Where the code compares a
      pointer with [nil], the pointer is an [option].
    - Package [regexp] and the three functions of [fmt]/[strconv] the
      messages need belong to the Go standard library; they are modelled in
      modules [regexp] and [GoStrings]. *)

From Stdlib Require Import Ascii String.
From stdpp Require Import base list strings gmap fin_maps propset.

Local Open Scope list_scope.

(** ** Byte strings: the functions of package [strings] the code calls *)

Module GoStrings.

(** [s[n:]] for [n <= len(s)]. *)
Fixpoint drop (n : nat) (s : string) : string :=
  match n, s with
  | O, _ => s
  | S n', String _ s' => drop n' s'
  | S _, EmptyString => EmptyString
  end.

(** [s[:n]] for [n <= len(s)]. *)
Fixpoint take (n : nat) (s : string) : string :=
  match n, s with
  | O, _ => EmptyString
  | S n', String c s' => String c (take n' s')
  | S _, EmptyString => EmptyString
  end.

Fixpoint HasPrefix (s prefix : string) {struct prefix} : bool :=
  match prefix, s with
  | EmptyString, _ => true
  | String p prefix', String c s' =>
      if Ascii.eqb c p then HasPrefix s' prefix' else false
  | String _ _, EmptyString => false
  end.

Definition HasSuffix (s suffix : string) : bool :=
  (String.length suffix <=? String.length s)%nat &&
  String.eqb (drop (String.length s - String.length suffix) s) suffix.

Definition TrimPrefix (s prefix : string) : string :=
  if HasPrefix s prefix then drop (String.length prefix) s else s.

Definition TrimSuffix (s suffix : string) : string :=
  if HasSuffix s suffix
  then take (String.length s - String.length suffix) s
  else s.

Fixpoint Contains (s substr : string) : bool :=
  HasPrefix s substr ||
  match s with
  | EmptyString => false
  | String _ s' => Contains s' substr
  end.

Fixpoint Join (elems : list string) (sep : string) : string :=
  match elems with
  | [] => EmptyString
  | [e] => e
  | e :: rest => e +:+ sep +:+ Join rest sep
  end.

(** [strconv.Quote], which [fmt] applies for the verb [%q].  Bytes below
    0x80 are rendered as Go renders them; a byte from 0x80 on is rendered
    with a [\x] escape, which is what Go prints for a byte that is not
    part of a valid UTF-8 encoding (a printable multi-byte rune, which Go
    copies unchanged, is not distinguished here). *)
Definition hexDigit (n : nat) : ascii :=
  match n with
  | 0 => "0" | 1 => "1" | 2 => "2" | 3 => "3" | 4 => "4" | 5 => "5"
  | 6 => "6" | 7 => "7" | 8 => "8" | 9 => "9" | 10 => "a" | 11 => "b"
  | 12 => "c" | 13 => "d" | 14 => "e" | _ => "f"
  end%char.

Definition dquote : ascii := Eval cbv in ascii_of_nat 34.

Definition quoteByte (c : ascii) : string :=
  let n := nat_of_ascii c in
  if Ascii.eqb c dquote then String "\"%char (String dquote EmptyString)
  else if Ascii.eqb c "\"%char then "\\"
  else if (n =? 7)%nat then "\a"
  else if (n =? 8)%nat then "\b"
  else if (n =? 12)%nat then "\f"
  else if (n =? 10)%nat then "\n"
  else if (n =? 13)%nat then "\r"
  else if (n =? 9)%nat then "\t"
  else if (n =? 11)%nat then "\v"
  else if (n <? 32)%nat || (127 <=? n)%nat
       then String "\"%char (String "x"%char
              (String (hexDigit (n / 16)) (String (hexDigit (n mod 16)) EmptyString)))
  else String c EmptyString.

Fixpoint quoteBody (s : string) : string :=
  match s with
  | EmptyString => EmptyString
  | String c s' => quoteByte c +:+ quoteBody s'
  end.

Definition Quote (s : string) : string :=
  String dquote (quoteBody s +:+ String dquote EmptyString).

End GoStrings.

(** ** Package [regexp]

    [regexp.Compile] and [Regexp.MatchString] of the Go standard library,
    for the pattern syntax the repository and its documentation use:
    literal bytes, [.], the text anchors [^] and [$], alternation, capturing
    and [(?:] groups, the repetitions [*], [+], [?] (greedy or lazy),
    backslash escapes of punctuation and of [a f n r t v], the Perl classes
    [\d \w \s] and their negations, and bracket classes with ranges.
    Everything else of RE2 (counted repetition and the byte [{], flags,
    named groups, word boundaries, octal and hexadecimal escapes, Unicode
    classes, POSIX class names, bytes from 0x80 on in a pattern) lies
    outside the model, which answers [None] for it as it does for a syntax
    error.  A candidate is matched byte by byte, which is Go's matching for
    ASCII text. *)

Module regexp.

Inductive Regexp : Type :=
| EmptyMatch
| Literal (c : ascii)
| AnyCharNotNL
| CharClass (negated : bool) (ranges : list (ascii * ascii))
| BeginText
| EndText
| Concat (r1 r2 : Regexp)
| Alternate (r1 r2 : Regexp)
| Star (r : Regexp)
| Plus (r : Regexp)
| Quest (r : Regexp).

Definition byteLe (a b : ascii) : bool := (nat_of_ascii a <=? nat_of_ascii b)%nat.

Definition isAlnum (c : ascii) : bool :=
  (byteLe "0" c && byteLe c "9") || (byteLe "A" c && byteLe c "Z")
  || (byteLe "a" c && byteLe c "z").

Definition isASCII (c : ascii) : bool := (nat_of_ascii c <? 128)%nat.

Definition digitRanges : list (ascii * ascii) := [("0", "9")]%char.
Definition wordRanges : list (ascii * ascii) :=
  [("0", "9"); ("A", "Z"); ("_", "_"); ("a", "z")]%char.
Definition spaceRanges : list (ascii * ascii) :=
  [("009", "010"); ("012", "013"); (" ", " ")]%char.

Definition inRanges (ranges : list (ascii * ascii)) (c : ascii) : bool :=
  existsb (fun '(lo, hi) => byteLe lo c && byteLe c hi) ranges.

(** The complement of a list of ranges, as a list of ranges over bytes. *)
Definition negateRanges (ranges : list (ascii * ascii)) : list (ascii * ascii) :=
  map (fun c => (c, c))
      (filter (fun c => negb (inRanges ranges c)) (map ascii_of_nat (seq 0 256))).

(** *** Parsing *)

(** A backslash escape that denotes one byte, after the backslash. *)
Definition parseEscape (s : string) : option (ascii * string) :=
  match s with
  | EmptyString => None
  | String c rest =>
      if Ascii.eqb c "a" then Some (ascii_of_nat 7, rest)
      else if Ascii.eqb c "f" then Some (ascii_of_nat 12, rest)
      else if Ascii.eqb c "n" then Some (ascii_of_nat 10, rest)
      else if Ascii.eqb c "r" then Some (ascii_of_nat 13, rest)
      else if Ascii.eqb c "t" then Some (ascii_of_nat 9, rest)
      else if Ascii.eqb c "v" then Some (ascii_of_nat 11, rest)
      else if isASCII c && negb (isAlnum c) then Some (c, rest)
      else None
  end.

(** A Perl class letter after the backslash. *)
Definition perlClass (c : ascii) : option (list (ascii * ascii)) :=
  if Ascii.eqb c "d" then Some digitRanges
  else if Ascii.eqb c "D" then Some (negateRanges digitRanges)
  else if Ascii.eqb c "w" then Some wordRanges
  else if Ascii.eqb c "W" then Some (negateRanges wordRanges)
  else if Ascii.eqb c "s" then Some spaceRanges
  else if Ascii.eqb c "S" then Some (negateRanges spaceRanges)
  else None.

Definition parseClassChar (s : string) : option (ascii * string) :=
  match s with
  | EmptyString => None
  | String c rest =>
      if Ascii.eqb c "\" then parseEscape rest
      else if isASCII c then Some (c, rest) else None
  end.

(** The items of a bracket class, after [[] and an optional [^]; [first]
    tells that no item was read yet, where a []] stands for itself. *)
Fixpoint parseClassItems (fuel : nat) (first : bool) (s : string)
    (acc : list (ascii * ascii)) : option (list (ascii * ascii) * string) :=
  match fuel with
  | O => None
  | S fuel' =>
      match s with
      | EmptyString => None
      | String c rest =>
          if Ascii.eqb c "]" && negb first then Some (acc, rest)
          else if Ascii.eqb c "[" && GoStrings.HasPrefix rest ":" then None
          else
            match (if Ascii.eqb c "\" then
                     match rest with
                     | String k rest' => option_map (fun rs => (rs, rest')) (perlClass k)
                     | EmptyString => None
                     end
                   else None) with
            | Some (rs, rest') => parseClassItems fuel' false rest' (acc ++ rs)
            | None =>
                match parseClassChar s with
                | None => None
                | Some (lo, t) =>
                    match t with
                    | String d (String e t') =>
                        if Ascii.eqb d "-" && negb (Ascii.eqb e "]") then
                          match parseClassChar (String e t') with
                          | None => None
                          | Some (hi, t'') =>
                              if byteLe lo hi
                              then parseClassItems fuel' false t'' (acc ++ [(lo, hi)])
                              else None
                          end
                        else parseClassItems fuel' false t (acc ++ [(lo, lo)])
                    | _ => parseClassItems fuel' false t (acc ++ [(lo, lo)])
                    end
                end
            end
      end
  end.

Definition isRepeatOp (c : ascii) : bool :=
  Ascii.eqb c "*" || Ascii.eqb c "+" || Ascii.eqb c "?".

(** An optional repetition operator after the atom [a]: the operator, an
    optional [?] that makes it lazy, and then no further operator
    (stacked repetitions such as [a**] are rejected). *)
Definition parseRepeat (a : Regexp) (s : string) : option (Regexp * string) :=
  match s with
  | String op rest =>
      if isRepeatOp op then
        let r := if Ascii.eqb op "*" then Star a
                 else if Ascii.eqb op "+" then Plus a else Quest a in
        let rest' := match rest with
                     | String q t => if Ascii.eqb q "?" then t else rest
                     | EmptyString => rest
                     end in
        match rest' with
        | String n _ => if isRepeatOp n then None else Some (r, rest')
        | EmptyString => Some (r, rest')
        end
      else Some (a, s)
  | EmptyString => Some (a, s)
  end.

(** What follows the [(] of a group: the group's body, after an optional
    [?:]; any other [(?] construct is outside the model. *)
Definition groupBody (rest : string) : option string :=
  match rest with
  | String q t =>
      if Ascii.eqb q "?" then
        match t with
        | String k t' => if Ascii.eqb k ":" then Some t' else None
        | EmptyString => None
        end
      else Some rest
  | EmptyString => Some rest
  end.

(** An atom that is not a group: a bracket class, [.], an anchor, an
    escape or a literal byte [c], followed by [rest]. *)
Definition parseSimpleAtom (c : ascii) (rest : string) : option (Regexp * string) :=
  if Ascii.eqb c "[" then
    let '(neg, items) :=
      match rest with
      | String q t => if Ascii.eqb q "^" then (true, t) else (false, rest)
      | EmptyString => (false, rest)
      end in
    match parseClassItems (S (String.length items)) true items [] with
    | None => None
    | Some (rs, t) => Some (CharClass neg rs, t)
    end
  else if Ascii.eqb c "." then Some (AnyCharNotNL, rest)
  else if Ascii.eqb c "^" then Some (BeginText, rest)
  else if Ascii.eqb c "$" then Some (EndText, rest)
  else if Ascii.eqb c "\" then
    match rest with
    | String k t =>
        match perlClass k with
        | Some rs => Some (CharClass false rs, t)
        | None =>
            match parseEscape rest with
            | Some (e, t') => Some (Literal e, t')
            | None => None
            end
        end
    | EmptyString => None
    end
  else if isRepeatOp c || Ascii.eqb c "{" || Ascii.eqb c ")" || Ascii.eqb c "|"
       then None
  else if isASCII c then Some (Literal c, rest)
  else None.

(** Recursive descent: alternations of sequences of repeated atoms.
    [parseAlternation] and [parseSequence] stop in front of a [)] or at
    the end of the pattern. *)
Fixpoint parseAlternation (fuel : nat) (s : string) : option (Regexp * string) :=
  match fuel with
  | O => None
  | S fuel' =>
      match parseSequence fuel' s with
      | None => None
      | Some (r1, rest) =>
          match rest with
          | String c rest' =>
              if Ascii.eqb c "|" then
                match parseAlternation fuel' rest' with
                | None => None
                | Some (r2, rest'') => Some (Alternate r1 r2, rest'')
                end
              else Some (r1, rest)
          | EmptyString => Some (r1, rest)
          end
      end
  end
with parseSequence (fuel : nat) (s : string) : option (Regexp * string) :=
  match fuel with
  | O => None
  | S fuel' =>
      match s with
      | EmptyString => Some (EmptyMatch, s)
      | String c _ =>
          if Ascii.eqb c "|" || Ascii.eqb c ")" then Some (EmptyMatch, s)
          else
            match parseAtom fuel' s with
            | None => None
            | Some (a, rest) =>
                match parseRepeat a rest with
                | None => None
                | Some (a', rest') =>
                    match parseSequence fuel' rest' with
                    | None => None
                    | Some (r, rest'') => Some (Concat a' r, rest'')
                    end
                end
            end
      end
  end
with parseAtom (fuel : nat) (s : string) : option (Regexp * string) :=
  match fuel with
  | O => None
  | S fuel' =>
      match s with
      | EmptyString => None
      | String c rest =>
          if Ascii.eqb c "(" then
            match groupBody rest with
            | None => None
            | Some body =>
                match parseAlternation fuel' body with
                | Some (r, String k t) => if Ascii.eqb k ")" then Some (r, t) else None
                | _ => None
                end
            end
          else parseSimpleAtom c rest
      end
  end.

(** [regexp.Compile]: [None] stands for the returned error. *)
Definition Compile (expr : string) : option Regexp :=
  match parseAlternation (3 * String.length expr + 3) expr with
  | Some (r, EmptyString) => Some r
  | _ => None
  end.

(** *** Matching *)

(** [m r start s k]: some prefix of [s] matches [r] and the rest satisfies
    [k]; [start] tells that [s] is the whole text.  The continuation takes
    the same two pieces of state.  An iteration of a repetition that
    consumes nothing is not taken again. *)
Fixpoint m (r : Regexp) (start : bool) (s : string)
    (k : bool -> string -> bool) {struct r} : bool :=
  match r with
  | EmptyMatch => k start s
  | Literal c =>
      match s with
      | String d s' => Ascii.eqb c d && k false s'
      | EmptyString => false
      end
  | AnyCharNotNL =>
      match s with
      | String d s' => negb (Ascii.eqb d (ascii_of_nat 10)) && k false s'
      | EmptyString => false
      end
  | CharClass neg ranges =>
      match s with
      | String d s' => xorb neg (inRanges ranges d) && k false s'
      | EmptyString => false
      end
  | BeginText => start && k start s
  | EndText =>
      match s with
      | EmptyString => k start s
      | String _ _ => false
      end
  | Concat r1 r2 => m r1 start s (fun start' s' => m r2 start' s' k)
  | Alternate r1 r2 => m r1 start s k || m r2 start s k
  | Star r' =>
      (fix loop (n : nat) (start : bool) (s : string) {struct n} : bool :=
         k start s ||
         match n with
         | O => false
         | S n' =>
             m r' start s (fun start' s' =>
               (String.length s' <? String.length s)%nat && loop n' start' s')
         end) (String.length s) start s
  | Plus r' =>
      m r' start s (fun start0 s0 =>
        (fix loop (n : nat) (start : bool) (s : string) {struct n} : bool :=
           k start s ||
           match n with
           | O => false
           | S n' =>
               m r' start s (fun start' s' =>
                 (String.length s' <? String.length s)%nat && loop n' start' s')
           end) (String.length s0) start0 s0)
  | Quest r' => m r' start s k || k start s
  end.

(** A match that begins at some position of [s]. *)
Fixpoint search (r : Regexp) (start : bool) (s : string) : bool :=
  m r start s (fun _ _ => true) ||
  match s with
  | EmptyString => false
  | String _ s' => search r false s'
  end.

(** [re.MatchString(s)]: the text [s] contains a match of [re]. *)
Definition MatchString (re : Regexp) (s : string) : bool := search re true s.

End regexp.


Import regexp.

(** ** Effects *)

(** A [range] over a Go map: any order of the entries. *)
Definition rangeMap {V : Type} (m : gmap string V) : propset (list (string * V)) :=
  PropSet (λ order, order ≡ₚ map_to_list m).

(** A loop over a slice whose body may itself range over maps. *)
Fixpoint foldM {A S : Type} (body : S → A → propset S) (s : S) (l : list A) : propset S :=
  match l with
  | [] => mret s
  | x :: l' => s' ← body s x; foldM body s' l'
  end.

(** A computation that may stop with a run-time panic. *)
Inductive outcome (A : Type) : Type :=
| Returns (a : A)
| Panics.
Arguments Returns {A} a.
Arguments Panics {A}.

#[global] Instance outcome_ret : MRet outcome := λ A a, Returns a.

#[global] Instance outcome_bind : MBind outcome := λ A B k c,
  match c with
  | Returns a => k a
  | Panics => Panics
  end.

(** A Go [error] value of this package, by the place that creates it. *)
Inductive error : Type :=
| InvalidSourcePattern
| InvalidTargetPattern
| InvalidPackagePattern (pkg : string)
| SourceLayerNotFound (name : string)
| TargetLayerNotFound (name : string)
| InvalidStructPattern
| InvalidInterfacePattern
| InvalidMethodPattern
| InvalidParameterTypePattern.

(** ** The data model (arctest.go) *)

(** [Field] of the source; the name is reserved in Rocq. *)
Record StructField : Type := {
  Field_Name : string;
  Field_Type : string }.

(** [Parameter] of the source; the name is reserved in Rocq. *)
Record MethodParameter : Type := {
  Parameter_Name : string;
  Parameter_Type : string }.

Record Method : Type := {
  Method_Name : string;
  Params : list MethodParameter;
  ReturnType : string }.

Record Struct : Type := {
  Struct_Name : string;
  Fields : list StructField;
  Struct_Methods : list Method;
  Struct_Pkg_Path : string }.

Record Interface : Type := {
  Interface_Name : string;
  Interface_Methods : list Method;
  Interface_Pkg_Path : string }.

Record Package : Type := {
  Package_Name : string;
  Package_Path : string;
  Imports : list string;
  Structs : gmap string Struct;
  Interfaces : gmap string Interface;
  ImportedPkgs : gmap string string }.

Record Architecture : Type := {
  Packages : gmap string Package;
  basePath : string }.

(** ** Dependency rules *)

Record DependencyRule : Type := {
  SourcePattern : string;
  TargetPattern : string;
  AllowedImports : bool;
  sourcePatternRegex : Regexp;
  targetPatternRegex : Regexp }.

Definition NewDependencyRule (sourcePattern targetPattern : string)
    (allowedImports : bool) : error + DependencyRule :=
  match Compile sourcePattern with
  | None => inl InvalidSourcePattern
  | Some sourceRegex =>
      match Compile targetPattern with
      | None => inl InvalidTargetPattern
      | Some targetRegex =>
          inr {| SourcePattern := sourcePattern;
                 TargetPattern := targetPattern;
                 AllowedImports := allowedImports;
                 sourcePatternRegex := sourceRegex;
                 targetPatternRegex := targetRegex |}
      end
  end.

Definition dependencyViolation (pkgPath importPath : string) (rule : DependencyRule) : string :=
  "Package " +:+ GoStrings.Quote pkgPath +:+ " imports " +:+ GoStrings.Quote importPath
  +:+ ", but this is not allowed by rule: " +:+ SourcePattern rule
  +:+ " cannot import " +:+ TargetPattern rule.

(** The body of the innermost loop of [CheckDependencies]. *)
Definition CheckDependencies_rule (pkgPath importPath : string)
    (violations : list string) (rule : DependencyRule) : list string :=
  if MatchString (sourcePatternRegex rule) pkgPath then
    if MatchString (targetPatternRegex rule) importPath then
      if negb (AllowedImports rule)
      then violations ++ [dependencyViolation pkgPath importPath rule]
      else violations
    else violations
  else violations.

(** The three nested loops, for the packages in the order [order]. *)
Definition CheckDependencies_packages (order : list (string * Package))
    (rules : list DependencyRule) : list string :=
  foldl (fun violations '(pkgPath, pkg) =>
    foldl (fun violations importPath =>
      foldl (CheckDependencies_rule pkgPath importPath) violations rules)
      violations (Imports pkg))
    [] order.

(** [CheckDependencies]; the returned error is always [nil]. *)
Definition CheckDependencies (a : Architecture) (rules : list DependencyRule)
    : propset (list string) :=
  order ← rangeMap (Packages a);
  mret (CheckDependencies_packages order rules).

Definition ValidateDependenciesWithRules (a : Architecture)
    (rules : list DependencyRule) : propset (bool * list string) :=
  violations ← CheckDependencies a rules;
  mret ((length violations =? 0)%nat, violations).

(** ** Layers *)

(** The back-reference [arch] of a layer and of a layered architecture is
    written by [SetArchitecture] and read only by the layer-scoped rule
    constructors; no check reads it, and it is left out. *)
Record Layer : Type := {
  Layer_Name : string;
  Layer_Packages : list string;
  patterns : list Regexp }.

Fixpoint compilePatterns (packages : list string) (patterns : list Regexp)
    : error + list Regexp :=
  match packages with
  | [] => inr patterns
  | pkg :: rest =>
      match Compile pkg with
      | None => inl (InvalidPackagePattern pkg)
      | Some pattern => compilePatterns rest (patterns ++ [pattern])
      end
  end.

Definition NewLayer (name : string) (packages : list string) : error + Layer :=
  match compilePatterns packages [] with
  | inl e => inl e
  | inr patterns =>
      inr {| Layer_Name := name; Layer_Packages := packages; patterns := patterns |}
  end.

Fixpoint Contains_patterns (patterns : list Regexp) (pkgPath : string) : bool :=
  match patterns with
  | [] => false
  | pattern :: rest =>
      if MatchString pattern pkgPath then true else Contains_patterns rest pkgPath
  end.

Definition Contains (l : Layer) (pkgPath : string) : bool :=
  Contains_patterns (patterns l) pkgPath.

Record LayeredArchitecture : Type := {
  Layers : list Layer;
  rules : list DependencyRule }.

Definition NewLayeredArchitecture (layers : list Layer) : LayeredArchitecture :=
  {| Layers := layers; rules := [] |}.

Fixpoint WhereLayer_from (layers : list Layer) (name : string) : option Layer :=
  match layers with
  | [] => None
  | layer :: rest =>
      if String.eqb (Layer_Name layer) name then Some layer
      else WhereLayer_from rest name
  end.

Definition WhereLayer (la : LayeredArchitecture) (name : string) : option Layer :=
  WhereLayer_from (Layers la) name.

(** The two patterns [AddRule] builds from one layer pattern each. *)
Definition cleanPattern (pkg : string) : string :=
  GoStrings.TrimSuffix (GoStrings.TrimPrefix pkg "^") "$".

Definition endingWith (clean : string) : string := "(^|/)" +:+ clean +:+ "$".

(** The inner loop of [AddRule]: the rule list so far, and the error that
    ended the loop if one did. *)
Fixpoint AddRule_targets (sourcePkg : string) (targetPkgs : list string)
    (rules : list DependencyRule) : list DependencyRule * option error :=
  match targetPkgs with
  | [] => (rules, None)
  | targetPkg :: rest =>
      let sourceClean := cleanPattern sourcePkg in
      let targetClean := cleanPattern targetPkg in
      let sourcePattern := endingWith sourceClean in
      let targetPattern := endingWith targetClean in
      match NewDependencyRule sourcePattern targetPattern true with
      | inl err => (rules, Some err)
      | inr rule => AddRule_targets sourcePkg rest (rules ++ [rule])
      end
  end.

Fixpoint AddRule_sources (sourcePkgs targetPkgs : list string)
    (rules : list DependencyRule) : list DependencyRule * option error :=
  match sourcePkgs with
  | [] => (rules, None)
  | sourcePkg :: rest =>
      match AddRule_targets sourcePkg targetPkgs rules with
      | (rules', Some err) => (rules', Some err)
      | (rules', None) => AddRule_sources rest targetPkgs rules'
      end
  end.

(** [AddRule]: the layered architecture after the call, and the returned
    error ([None] for [nil]). *)
Definition AddRule (la : LayeredArchitecture) (sourceLayerName targetLayerName : string)
    : LayeredArchitecture * option error :=
  match WhereLayer la sourceLayerName with
  | None => (la, Some (SourceLayerNotFound sourceLayerName))
  | Some sourceLayer =>
      match WhereLayer la targetLayerName with
      | None => (la, Some (TargetLayerNotFound targetLayerName))
      | Some targetLayer =>
          let '(rules', err) :=
            AddRule_sources (Layer_Packages sourceLayer) (Layer_Packages targetLayer)
                            (rules la) in
          ({| Layers := Layers la; rules := rules' |}, err)
      end
  end.

(** ** The whole-architecture check *)

(** A loop over a slice whose body may panic. *)
Fixpoint foldO {A S : Type} (body : S → A → outcome S) (s : S) (l : list A) : outcome S :=
  match l with
  | [] => Returns s
  | x :: l' => s' ← body s x; foldO body s' l'
  end.

(** The first layer that contains the package, with its position in
    [la.Layers].  The code compares the source and the target layer as
    pointers; both are found by a first-match search of the same slice, so
    two results are the same pointer exactly when their positions agree. *)
Fixpoint findSourceLayer (layers : list Layer) (idx : nat) (pkgPath : string)
    : option (nat * Layer) :=
  match layers with
  | [] => None
  | layer :: rest =>
      if Contains layer pkgPath then Some (idx, layer)
      else findSourceLayer rest (S idx) pkgPath
  end.

(** The loop over [layer.patterns] in the search for the target layer;
    [layer.Packages[0]] panics when the layer has no package string. *)
Fixpoint importInLayer (layer : Layer) (pats : list Regexp) (importPath : string)
    : outcome bool :=
  match pats with
  | [] => Returns false
  | pattern :: rest =>
      if MatchString pattern importPath then Returns true
      else
        match Layer_Packages layer with
        | [] => Panics
        | first :: _ =>
            if GoStrings.HasSuffix importPath
                 ("/" +:+ GoStrings.TrimPrefix (GoStrings.TrimSuffix first "$") "^")
            then Returns true
            else importInLayer layer rest importPath
        end
  end.

Fixpoint findTargetLayer (layers : list Layer) (idx : nat) (importPath : string)
    : outcome (option (nat * Layer)) :=
  match layers with
  | [] => Returns None
  | layer :: rest =>
      found ← importInLayer layer (patterns layer) importPath;
      if found : bool then Returns (Some (idx, layer))
      else findTargetLayer rest (S idx) importPath
  end.

Fixpoint allowedByRules (rules : list DependencyRule) (pkgPath importPath : string) : bool :=
  match rules with
  | [] => false
  | rule :: rest =>
      if MatchString (sourcePatternRegex rule) pkgPath
         && MatchString (targetPatternRegex rule) importPath
         && AllowedImports rule
      then true
      else allowedByRules rest pkgPath importPath
  end.

Definition layerViolation (pkgPath sourceLayer importPath targetLayer : string) : string :=
  "Package " +:+ GoStrings.Quote pkgPath +:+ " in layer " +:+ GoStrings.Quote sourceLayer
  +:+ " imports " +:+ GoStrings.Quote importPath +:+ " in layer "
  +:+ GoStrings.Quote targetLayer +:+ ", but no rule allows this dependency".

(** The body of the loop over the imports of one package. *)
Definition Check_import (la : LayeredArchitecture) (pkgPath : string)
    (sourceLayer : nat * Layer) (violations : list string) (importPath : string)
    : outcome (list string) :=
  if negb (GoStrings.Contains importPath ".") && negb (GoStrings.Contains importPath "/")
  then Returns violations
  else
    targetLayer ← findTargetLayer (Layers la) 0 importPath;
    match targetLayer with
    | None => Returns violations
    | Some targetLayer =>
        if (sourceLayer.1 =? targetLayer.1)%nat then Returns violations
        else
          let allowed := allowedByRules (rules la) pkgPath importPath in
          if negb allowed
          then Returns (violations ++
                 [layerViolation pkgPath (Layer_Name sourceLayer.2)
                                 importPath (Layer_Name targetLayer.2)])
          else Returns violations
    end.

Definition Check_package (la : LayeredArchitecture) (violations : list string)
    (entry : string * Package) : outcome (list string) :=
  let '(pkgPath, pkg) := entry in
  match findSourceLayer (Layers la) 0 pkgPath with
  | None => Returns violations
  | Some sourceLayer => foldO (Check_import la pkgPath sourceLayer) violations (Imports pkg)
  end.

(** [LayeredArchitecture.Check]; the returned error is always [nil]. *)
Definition Check (la : LayeredArchitecture) (arch : Architecture)
    : propset (outcome (list string)) :=
  order ← rangeMap (Packages arch);
  mret (foldO (Check_package la) [] order).

(** ** Interface-implementation rules (interfaces.go) *)

Record InterfaceImplementationRule : Type := {
  IIR_StructPattern : string;
  IIR_InterfacePattern : string;
  IIR_structPatternRegex : Regexp;
  IIR_interfacePatternRegex : Regexp }.

Definition NewInterfaceImplementationRule (structPattern interfacePattern : string)
    : error + InterfaceImplementationRule :=
  match Compile structPattern with
  | None => inl InvalidStructPattern
  | Some structRegex =>
      match Compile interfacePattern with
      | None => inl InvalidInterfacePattern
      | Some interfaceRegex =>
          inr {| IIR_StructPattern := structPattern;
                 IIR_InterfacePattern := interfacePattern;
                 IIR_structPatternRegex := structRegex;
                 IIR_interfacePatternRegex := interfaceRegex |}
      end
  end.

Definition methodSignaturesMatch (m1 m2 : Method) : bool :=
  if negb (String.eqb (Method_Name m1) (Method_Name m2)) then false
  else if negb (length (Params m1) =? length (Params m2))%nat then false
  else if negb (Bool.eqb (String.eqb (ReturnType m1) "") (String.eqb (ReturnType m2) ""))
       then false
  else true.

(** The inner loop of [CheckInterfaceImplementation]: the value of [found]
    when the loop over the struct's methods ends. *)
Fixpoint foundIn (sMethods : list Method) (iMethod : Method) : bool :=
  match sMethods with
  | [] => false
  | sMethod :: rest =>
      if String.eqb (Method_Name sMethod) (Method_Name iMethod) then
        if methodSignaturesMatch sMethod iMethod then true
        else foundIn rest iMethod
      else foundIn rest iMethod
  end.

Fixpoint allFound (sMethods iMethods : list Method) : bool :=
  match iMethods with
  | [] => true
  | iMethod :: rest =>
      if negb (foundIn sMethods iMethod) then false else allFound sMethods rest
  end.

Definition CheckInterfaceImplementation (s : Struct) (i : Interface) : bool :=
  if (length (Interface_Methods i) =? 0)%nat then true
  else allFound (Struct_Methods s) (Interface_Methods i).

Fixpoint implementsAnyOf (s : Struct) (matchingInterfaces : list Interface) : bool :=
  match matchingInterfaces with
  | [] => false
  | i :: rest =>
      if CheckInterfaceImplementation s i then true else implementsAnyOf s rest
  end.

Definition implementationViolation (s : Struct) (rule : InterfaceImplementationRule)
    : string :=
  "Struct " +:+ GoStrings.Quote (Struct_Name s) +:+ " in package "
  +:+ GoStrings.Quote (Struct_Pkg_Path s) +:+ " does not implement any interface matching "
  +:+ GoStrings.Quote (IIR_InterfacePattern rule).

(** The first loop of a rule: the structs and interfaces of one package that
    match, appended to those found so far. *)
Definition collectMatching (rule : InterfaceImplementationRule)
    (found : list Struct * list Interface) (entry : string * Package)
    : propset (list Struct * list Interface) :=
  structs ← rangeMap (Structs entry.2);
  interfaces ← rangeMap (Interfaces entry.2);
  mret (foldl (fun matchingStructs '(_, s) =>
                 if MatchString (IIR_structPatternRegex rule) (Struct_Name s)
                 then matchingStructs ++ [s] else matchingStructs)
              found.1 structs,
        foldl (fun matchingInterfaces '(_, i) =>
                 if MatchString (IIR_interfacePatternRegex rule) (Interface_Name i)
                 then matchingInterfaces ++ [i] else matchingInterfaces)
              found.2 interfaces).

(** The second loop of a rule. *)
Definition reportUnimplemented (rule : InterfaceImplementationRule)
    (matchingInterfaces : list Interface) (violations : list string) (s : Struct)
    : list string :=
  let implementsAny := implementsAnyOf s matchingInterfaces in
  if negb implementsAny && (0 <? length matchingInterfaces)%nat
  then violations ++ [implementationViolation s rule]
  else violations.

Definition CheckStructImplementsInterfaces_rule (a : Architecture)
    (violations : list string) (rule : InterfaceImplementationRule)
    : propset (list string) :=
  order ← rangeMap (Packages a);
  found ← foldM (collectMatching rule) ([], []) order;
  mret (foldl (reportUnimplemented rule found.2) violations found.1).

(** [CheckStructImplementsInterfaces]; the returned error is always [nil]. *)
Definition CheckStructImplementsInterfaces (a : Architecture)
    (rules : list InterfaceImplementationRule) : propset (list string) :=
  foldM (CheckStructImplementsInterfaces_rule a) [] rules.

Definition ValidateInterfaceImplementations (a : Architecture)
    (rules : list InterfaceImplementationRule) : propset (bool * list string) :=
  violations ← CheckStructImplementsInterfaces a rules;
  mret ((length violations =? 0)%nat, violations).

(** ** Parameter rules (parameters.go) *)

Record ParameterRule : Type := {
  PR_StructPattern : string;
  PR_MethodPattern : string;
  PR_ParameterTypePattern : string;
  ShouldUseInterface : bool;
  PR_structPatternRegex : Regexp;
  PR_methodPatternRegex : Regexp;
  PR_parameterTypePatternRegex : Regexp }.

Definition NewParameterRule (structPattern methodPattern parameterTypePattern : string)
    (shouldUseInterface : bool) : error + ParameterRule :=
  match Compile structPattern with
  | None => inl InvalidStructPattern
  | Some structRegex =>
      match Compile methodPattern with
      | None => inl InvalidMethodPattern
      | Some methodRegex =>
          match Compile parameterTypePattern with
          | None => inl InvalidParameterTypePattern
          | Some paramRegex =>
              inr {| PR_StructPattern := structPattern;
                     PR_MethodPattern := methodPattern;
                     PR_ParameterTypePattern := parameterTypePattern;
                     ShouldUseInterface := shouldUseInterface;
                     PR_structPatternRegex := structRegex;
                     PR_methodPatternRegex := methodRegex;
                     PR_parameterTypePatternRegex := paramRegex |}
          end
      end
  end.

(** A Go [map[string]bool] read with the index expression: a missing key
    reads as [false]. *)
Definition index (table : gmap string bool) (key : string) : bool :=
  default false (table !! key).

Definition primitives : gmap string bool :=
  list_to_map
    [("bool", true); ("int", true); ("int8", true); ("int16", true);
     ("int32", true); ("int64", true); ("uint", true); ("uint8", true);
     ("uint16", true); ("uint32", true); ("uint64", true); ("uintptr", true);
     ("float32", true); ("float64", true); ("complex64", true);
     ("complex128", true); ("string", true); ("byte", true); ("rune", true);
     ("error", true)].

Definition isPrimitiveType (typeName : string) : bool := index primitives typeName.

(** The two insertions the lookup tables receive for every declared name. *)
Definition registerNames (pkgPrefix : string) (table : gmap string bool)
    (names : list string) : gmap string bool :=
  foldl (fun (table : gmap string bool) (name : string) =>
           <[pkgPrefix +:+ name := true]> (<[name := true]> table))
        table names.

(** The body of the loop that builds the lookup tables [interfaces] and
    [structs]. *)
Definition registerPackage (tables : gmap string bool * gmap string bool)
    (entry : string * Package) : propset (gmap string bool * gmap string bool) :=
  let pkgPrefix := Package_Name entry.2 +:+ "." in
  interfaces ← rangeMap (Interfaces entry.2);
  structs ← rangeMap (Structs entry.2);
  mret (registerNames pkgPrefix tables.1 interfaces.*1,
        registerNames pkgPrefix tables.2 structs.*1).

Definition structParameterViolation (m : Method) (s : Struct) (paramType : string) : string :=
  "Method " +:+ GoStrings.Quote (Method_Name m) +:+ " of struct "
  +:+ GoStrings.Quote (Struct_Name s) +:+ " in package " +:+ GoStrings.Quote (Struct_Pkg_Path s)
  +:+ " uses struct type " +:+ GoStrings.Quote paramType
  +:+ " as parameter, but should use an interface".

Definition interfaceParameterViolation (m : Method) (s : Struct) (paramType : string) : string :=
  "Method " +:+ GoStrings.Quote (Method_Name m) +:+ " of struct "
  +:+ GoStrings.Quote (Struct_Name s) +:+ " in package " +:+ GoStrings.Quote (Struct_Pkg_Path s)
  +:+ " uses interface type " +:+ GoStrings.Quote paramType
  +:+ " as parameter, but should use a struct".

(** The body of the loop over the parameters of a method. *)
Definition CheckMethodParameters_param (interfaces structs : gmap string bool)
    (rule : ParameterRule) (s : Struct) (m : Method)
    (violations : list string) (p : MethodParameter) : list string :=
  if String.eqb (Parameter_Type p) "" || isPrimitiveType (Parameter_Type p)
  then violations
  else
    let paramType :=
      if GoStrings.HasPrefix (Parameter_Type p) "*"
      then GoStrings.drop 1 (Parameter_Type p)
      else Parameter_Type p in
    if negb (MatchString (PR_parameterTypePatternRegex rule) paramType) then violations
    else
      let isInterface := index interfaces paramType in
      let isStruct := index structs paramType in
      if negb isInterface && negb isStruct then violations
      else if ShouldUseInterface rule && negb isInterface
           then violations ++ [structParameterViolation m s paramType]
      else if negb (ShouldUseInterface rule) && negb isStruct
           then violations ++ [interfaceParameterViolation m s paramType]
      else violations.

Definition CheckMethodParameters_method (interfaces structs : gmap string bool)
    (rule : ParameterRule) (s : Struct) (violations : list string) (m : Method)
    : list string :=
  if negb (MatchString (PR_methodPatternRegex rule) (Method_Name m)) then violations
  else foldl (CheckMethodParameters_param interfaces structs rule s m) violations (Params m).

Definition CheckMethodParameters_struct (interfaces structs : gmap string bool)
    (rule : ParameterRule) (violations : list string) (s : Struct) : list string :=
  if negb (MatchString (PR_structPatternRegex rule) (Struct_Name s)) then violations
  else foldl (CheckMethodParameters_method interfaces structs rule s) violations
             (Struct_Methods s).

Definition CheckMethodParameters_package (interfaces structs : gmap string bool)
    (rule : ParameterRule) (violations : list string) (entry : string * Package)
    : propset (list string) :=
  order ← rangeMap (Structs entry.2);
  mret (foldl (CheckMethodParameters_struct interfaces structs rule) violations order.*2).

Definition CheckMethodParameters_rule (a : Architecture)
    (interfaces structs : gmap string bool)
    (violations : list string) (rule : ParameterRule) : propset (list string) :=
  order ← rangeMap (Packages a);
  foldM (CheckMethodParameters_package interfaces structs rule) violations order.

(** [CheckMethodParameters]; the returned error is always [nil]. *)
Definition CheckMethodParameters (a : Architecture) (rules : list ParameterRule)
    : propset (list string) :=
  order ← rangeMap (Packages a);
  tables ← foldM registerPackage (∅, ∅) order;
  foldM (CheckMethodParameters_rule a tables.1 tables.2) [] rules.

Definition ValidateMethodParameters (a : Architecture) (rules : list ParameterRule)
    : propset (bool * list string) :=
  violations ← CheckMethodParameters a rules;
  mret ((length violations =? 0)%nat, violations).

(** ** The rest of the layer API *)

(** The errors of the layer-scoped constructors: a layer that was not
    bound to an architecture, a [nil] target layer, the error of a rule
    constructor passed on ([RuleError]) or wrapped
    ([FailedToCreateDependencyRule]). *)
Inductive layerError : Type :=
| LayerNotAssociated (name : string)
| TargetLayerNil
| RuleError (err : error)
| FailedToCreateDependencyRule (err : error).

(** The alternation of the patterns [(^|/)clean$] of a layer's package
    patterns, as [DoesNotDependOn] and [DoesNotDependOnLayer] build it. *)
Definition endingWithAny (packages : list string) : string :=
  GoStrings.Join (map (fun pkg => endingWith (cleanPattern pkg)) packages) "|".

(** The layer-scoped constructors read the field [arch] that the record
    [Layer] leaves out; they take it as the argument [arch], [None] for
    [nil]. *)
Definition Layer_DoesNotDependOn (l : Layer) (arch : option Architecture)
    (targetPattern : string) : layerError + DependencyRule :=
  match arch with
  | None => inl (LayerNotAssociated (Layer_Name l))
  | Some _ =>
      let sourcePattern := endingWithAny (Layer_Packages l) in
      match NewDependencyRule sourcePattern targetPattern false with
      | inl err => inl (RuleError err)
      | inr rule => inr rule
      end
  end.

Definition DoesNotDependOnLayer (l : Layer) (arch : option Architecture)
    (targetLayer : option Layer) : layerError + DependencyRule :=
  match arch with
  | None => inl (LayerNotAssociated (Layer_Name l))
  | Some _ =>
      match targetLayer with
      | None => inl TargetLayerNil
      | Some targetLayer =>
          let sourcePattern := endingWithAny (Layer_Packages l) in
          let targetPattern := endingWithAny (Layer_Packages targetLayer) in
          match NewDependencyRule sourcePattern targetPattern false with
          | inl err => inl (FailedToCreateDependencyRule err)
          | inr rule => inr rule
          end
      end
  end.

Definition getScopedPattern (l : Layer) (pattern : string) : string :=
  if GoStrings.HasPrefix pattern "^" then pattern
  else
    let scopedPatterns :=
      map (fun pkgPattern => "^" +:+ cleanPattern pkgPattern +:+ "\." +:+ pattern)
          (Layer_Packages l) in
    "(" +:+ GoStrings.Join scopedPatterns "|" +:+ ")".

Definition Layer_StructsImplementInterfaces (l : Layer) (arch : option Architecture)
    (structPattern interfacePattern : string) : layerError + InterfaceImplementationRule :=
  match arch with
  | None => inl (LayerNotAssociated (Layer_Name l))
  | Some _ =>
      let layerScopedStructPattern := getScopedPattern l structPattern in
      match NewInterfaceImplementationRule layerScopedStructPattern interfacePattern with
      | inl err => inl (RuleError err)
      | inr rule => inr rule
      end
  end.

Definition Layer_MethodsShouldUseInterfaceParameters (l : Layer)
    (arch : option Architecture) (structPattern methodPattern parameterTypePattern : string)
    : layerError + ParameterRule :=
  match arch with
  | None => inl (LayerNotAssociated (Layer_Name l))
  | Some _ =>
      let layerScopedStructPattern := getScopedPattern l structPattern in
      match NewParameterRule layerScopedStructPattern methodPattern parameterTypePattern true with
      | inl err => inl (RuleError err)
      | inr rule => inr rule
      end
  end.

Definition Layer_MethodsShouldUseStructParameters (l : Layer)
    (arch : option Architecture) (structPattern methodPattern parameterTypePattern : string)
    : layerError + ParameterRule :=
  match arch with
  | None => inl (LayerNotAssociated (Layer_Name l))
  | Some _ =>
      let layerScopedStructPattern := getScopedPattern l structPattern in
      match NewParameterRule layerScopedStructPattern methodPattern parameterTypePattern false with
      | inl err => inl (RuleError err)
      | inr rule => inr rule
      end
  end.

Definition AddDependencyConstraint (la : LayeredArchitecture) (rule : DependencyRule)
    : LayeredArchitecture :=
  {| Layers := Layers la; rules := rules la ++ [rule] |}.

(** ** The rest of interfaces.go and arctest.go *)

(** [GetPackage]: [None] for the [nil] of a missing path. *)
Definition GetPackage (a : Architecture) (pkgPath : string) : option Package :=
  Packages a !! pkgPath.

Inductive findError : Type :=
| PackageNotFound (pkgPath : string)
| InterfaceNotFound (interfaceName pkgPath : string).

(** The body of the loop over the packages in [FindAllImplementations]. *)
Definition implementationsIn (iface : Interface) (implementations : list Struct)
    (entry : string * Package) : propset (list Struct) :=
  structs ← rangeMap (Structs entry.2);
  mret (foldl (fun implementations '(_, s) =>
                 if CheckInterfaceImplementation s iface
                 then implementations ++ [s] else implementations)
              implementations structs).

Definition FindAllImplementations (a : Architecture)
    (interfaceName interfacePkgPath : string) : propset (findError + list Struct) :=
  match GetPackage a interfacePkgPath with
  | None => mret (inl (PackageNotFound interfacePkgPath))
  | Some pkg =>
      match Interfaces pkg !! interfaceName with
      | None => mret (inl (InterfaceNotFound interfaceName interfacePkgPath))
      | Some iface =>
          order ← rangeMap (Packages a);
          implementations ← foldM (implementationsIn iface) [] order;
          mret (inr implementations)
      end
  end.

(** * The configuration (package [config]) *)

Module config.

Record LayerConfig : Type := {
  LayerConfig_Name : string;
  LayerConfig_Pattern : string;
}.

Record RuleConfig : Type := {
  From : string;
  To : string;
}.

Record InterfaceRuleConfig : Type := {
  IRC_StructPattern : string;
  IRC_InterfacePattern : string;
}.

Record ParameterRuleConfig : Type := {
  PRC_StructPattern : string;
  PRC_MethodPattern : string;
  PRC_ParameterTypePattern : string;
  PRC_ShouldUseInterface : bool;
}.

Record LayerSpecificRuleConfig : Type := {
  LSR_Layer : string;
  RuleType : string;
  Parameters : gmap string string;
}.

Record DirectLayerDependencyRuleConfig : Type := {
  SourceLayer : string;
  TargetLayer : string;
  Allowed : bool;
}.

Record Config : Type := {
  Layers : list LayerConfig;
  Rules : list RuleConfig;
  InterfaceRules : list InterfaceRuleConfig;
  ParameterRules : list ParameterRuleConfig;
  LayerSpecificRules : list LayerSpecificRuleConfig;
  DirectLayerDependencyRules : list DirectLayerDependencyRuleConfig;
}.

(** What is wrong with one rule, as the messages of [validateConfig] name
    it: [<field> cannot be empty], [invalid <field>] (with the error of
    [regexp.Compile]), [references undefined <what>: <name>],
    [invalid rule type: <type>] and
    [<kind> rule requires '<parameter>' parameter]. *)
Inductive problem : Type :=
| CannotBeEmpty (field : string)
| InvalidPattern (field : string)
| UndefinedLayer (what name : string)
| InvalidRuleType (ruleType : string)
| RequiresParameter (kind parameter : string).

(** The errors of [validateConfig]; a rule of the last four lists is named
    by its index. *)
Inductive configError : Type :=
| NoLayersDefined
| LayerNameEmpty
| LayerPatternEmpty (name : string)
| DuplicateLayerName (name : string)
| InvalidLayerPattern (name : string)
| RuleFromEmpty
| RuleToEmpty
| RuleUndefinedLayer (name : string)
| InterfaceRuleError (i : nat) (what : problem)
| ParameterRuleError (i : nat) (what : problem)
| LayerSpecificRuleError (i : nat) (what : problem)
| DirectLayerDependencyRuleError (i : nat) (what : problem).

(** [regexp.Compile] fails. *)
Definition invalid (expr : string) : bool :=
  match Compile expr with
  | None => true
  | Some _ => false
  end.

(** The loop over the layers: the error that ends it, or the table
    [layerNames] after it. *)
Fixpoint validateLayers (layers : list LayerConfig) (layerNames : gmap string bool)
    : configError + gmap string bool :=
  match layers with
  | [] => inr layerNames
  | layer :: rest =>
      if String.eqb (LayerConfig_Name layer) "" then inl LayerNameEmpty
      else if String.eqb (LayerConfig_Pattern layer) ""
      then inl (LayerPatternEmpty (LayerConfig_Name layer))
      else if index layerNames (LayerConfig_Name layer)
      then inl (DuplicateLayerName (LayerConfig_Name layer))
      else
        let layerNames := <[LayerConfig_Name layer := true]> layerNames in
        if invalid (LayerConfig_Pattern layer)
        then inl (InvalidLayerPattern (LayerConfig_Name layer))
        else validateLayers rest layerNames
  end.

Fixpoint validateRules (layerNames : gmap string bool) (rules : list RuleConfig)
    : option configError :=
  match rules with
  | [] => None
  | rule :: rest =>
      if String.eqb (From rule) "" then Some RuleFromEmpty
      else if String.eqb (To rule) "" then Some RuleToEmpty
      else if negb (index layerNames (From rule)) then Some (RuleUndefinedLayer (From rule))
      else if negb (index layerNames (To rule)) then Some (RuleUndefinedLayer (To rule))
      else validateRules layerNames rest
  end.

Fixpoint validateInterfaceRules (i : nat) (rules : list InterfaceRuleConfig)
    : option configError :=
  match rules with
  | [] => None
  | rule :: rest =>
      if String.eqb (IRC_StructPattern rule) ""
      then Some (InterfaceRuleError i (CannotBeEmpty "struct pattern"))
      else if String.eqb (IRC_InterfacePattern rule) ""
      then Some (InterfaceRuleError i (CannotBeEmpty "interface pattern"))
      else if invalid (IRC_StructPattern rule)
      then Some (InterfaceRuleError i (InvalidPattern "struct pattern"))
      else if invalid (IRC_InterfacePattern rule)
      then Some (InterfaceRuleError i (InvalidPattern "interface pattern"))
      else validateInterfaceRules (S i) rest
  end.

Fixpoint validateParameterRules (i : nat) (rules : list ParameterRuleConfig)
    : option configError :=
  match rules with
  | [] => None
  | rule :: rest =>
      if String.eqb (PRC_StructPattern rule) ""
      then Some (ParameterRuleError i (CannotBeEmpty "struct pattern"))
      else if String.eqb (PRC_MethodPattern rule) ""
      then Some (ParameterRuleError i (CannotBeEmpty "method pattern"))
      else if String.eqb (PRC_ParameterTypePattern rule) ""
      then Some (ParameterRuleError i (CannotBeEmpty "parameter type pattern"))
      else if invalid (PRC_StructPattern rule)
      then Some (ParameterRuleError i (InvalidPattern "struct pattern"))
      else if invalid (PRC_MethodPattern rule)
      then Some (ParameterRuleError i (InvalidPattern "method pattern"))
      else if invalid (PRC_ParameterTypePattern rule)
      then Some (ParameterRuleError i (InvalidPattern "parameter type pattern"))
      else validateParameterRules (S i) rest
  end.

(** The value a Go [map[string]string] yields for a key: the empty string
    when the key is missing. *)
Definition parameter (parameters : gmap string string) (key : string) : string :=
  default EmptyString (parameters !! key).

(** The presence test [_, ok := parameters[key]]. *)
Definition present (parameters : gmap string string) (key : string) : bool :=
  bool_decide (is_Some (parameters !! key)).

(** The [switch] on the rule type of a layer-specific rule. *)
Definition validateParameters (ruleType : string) (parameters : gmap string string)
    : option problem :=
  if String.eqb ruleType "dependency" then
    if negb (present parameters "targetPattern")
    then Some (RequiresParameter "dependency" "targetPattern")
    else if invalid (parameter parameters "targetPattern")
    then Some (InvalidPattern "target pattern")
    else None
  else if String.eqb ruleType "interface" then
    if negb (present parameters "structPattern")
    then Some (RequiresParameter "interface" "structPattern")
    else if negb (present parameters "interfacePattern")
    then Some (RequiresParameter "interface" "interfacePattern")
    else if invalid (parameter parameters "structPattern")
    then Some (InvalidPattern "struct pattern")
    else if invalid (parameter parameters "interfacePattern")
    then Some (InvalidPattern "interface pattern")
    else None
  else if String.eqb ruleType "parameter" then
    if negb (present parameters "structPattern")
    then Some (RequiresParameter "parameter" "structPattern")
    else if negb (present parameters "methodPattern")
    then Some (RequiresParameter "parameter" "methodPattern")
    else if negb (present parameters "parameterTypePattern")
    then Some (RequiresParameter "parameter" "parameterTypePattern")
    else if negb (present parameters "shouldUseInterface")
    then Some (RequiresParameter "parameter" "shouldUseInterface")
    else if invalid (parameter parameters "structPattern")
    then Some (InvalidPattern "struct pattern")
    else if invalid (parameter parameters "methodPattern")
    then Some (InvalidPattern "method pattern")
    else if invalid (parameter parameters "parameterTypePattern")
    then Some (InvalidPattern "parameter type pattern")
    else None
  else None.

Fixpoint validateLayerSpecificRules (layerNames : gmap string bool) (i : nat)
    (rules : list LayerSpecificRuleConfig) : option configError :=
  match rules with
  | [] => None
  | rule :: rest =>
      if String.eqb (LSR_Layer rule) ""
      then Some (LayerSpecificRuleError i (CannotBeEmpty "layer"))
      else if negb (index layerNames (LSR_Layer rule))
      then Some (LayerSpecificRuleError i (UndefinedLayer "layer" (LSR_Layer rule)))
      else if String.eqb (RuleType rule) ""
      then Some (LayerSpecificRuleError i (CannotBeEmpty "rule type"))
      else if negb (String.eqb (RuleType rule) "dependency")
              && negb (String.eqb (RuleType rule) "interface")
              && negb (String.eqb (RuleType rule) "parameter")
      then Some (LayerSpecificRuleError i (InvalidRuleType (RuleType rule)))
      else if (size (Parameters rule) =? 0)%nat
      then Some (LayerSpecificRuleError i (CannotBeEmpty "parameters"))
      else
        match validateParameters (RuleType rule) (Parameters rule) with
        | Some what => Some (LayerSpecificRuleError i what)
        | None => validateLayerSpecificRules layerNames (S i) rest
        end
  end.

Fixpoint validateDirectLayerDependencyRules (layerNames : gmap string bool) (i : nat)
    (rules : list DirectLayerDependencyRuleConfig) : option configError :=
  match rules with
  | [] => None
  | rule :: rest =>
      if String.eqb (SourceLayer rule) ""
      then Some (DirectLayerDependencyRuleError i (CannotBeEmpty "source layer"))
      else if String.eqb (TargetLayer rule) ""
      then Some (DirectLayerDependencyRuleError i (CannotBeEmpty "target layer"))
      else if negb (index layerNames (SourceLayer rule))
      then Some (DirectLayerDependencyRuleError i
                   (UndefinedLayer "source layer" (SourceLayer rule)))
      else if negb (index layerNames (TargetLayer rule))
      then Some (DirectLayerDependencyRuleError i
                   (UndefinedLayer "target layer" (TargetLayer rule)))
      else validateDirectLayerDependencyRules layerNames (S i) rest
  end.

(** [validateConfig]: [None] for [nil]. *)
Definition validateConfig (config : Config) : option configError :=
  if (length (Layers config) =? 0)%nat then Some NoLayersDefined
  else
    match validateLayers (Layers config) ∅ with
    | inl err => Some err
    | inr layerNames =>
        match validateRules layerNames (Rules config) with
        | Some err => Some err
        | None =>
            match validateInterfaceRules 0 (InterfaceRules config) with
            | Some err => Some err
            | None =>
                match validateParameterRules 0 (ParameterRules config) with
                | Some err => Some err
                | None =>
                    match validateLayerSpecificRules layerNames 0
                            (LayerSpecificRules config) with
                    | Some err => Some err
                    | None =>
                        validateDirectLayerDependencyRules layerNames 0
                          (DirectLayerDependencyRules config)
                    end
                end
            end
        end
    end.

End config.

(** * Vocabulary of the specification *)

(** ** The dependency rule engine *)

(** The triples (package, declared import, rule), one for every occurrence
    of an import in a package and every rule instance of the list, for the
    packages in the order [order]. *)
Definition triples (order : list (string * Package)) (rules : list DependencyRule)
    : list (string * string * DependencyRule) :=
  entry ← order; importPath ← Imports entry.2; rule ← rules;
  [(entry.1, importPath, rule)].

(** The rule's source pattern matches the package path, its target pattern
    matches the import path, and the rule disallows. *)
Definition disallowedMatch (t : string * string * DependencyRule) : bool :=
  MatchString (sourcePatternRegex t.2) t.1.1
  && MatchString (targetPatternRegex t.2) t.1.2
  && negb (AllowedImports t.2).

Definition tripleViolation (t : string * string * DependencyRule) : string :=
  dependencyViolation t.1.1 t.1.2 t.2.

(** ** Example inputs *)

(** [regexp.MustCompile] for the patterns of the examples, which all
    compile. *)
Definition MustCompile (expr : string) : Regexp := default EmptyMatch (Compile expr).

Definition dependencyRule (sourcePattern targetPattern : string) (allowed : bool)
    : DependencyRule :=
  {| SourcePattern := sourcePattern;
     TargetPattern := targetPattern;
     AllowedImports := allowed;
     sourcePatternRegex := MustCompile sourcePattern;
     targetPatternRegex := MustCompile targetPattern |}.

Definition layer (name pattern : string) : Layer :=
  {| Layer_Name := name; Layer_Packages := [pattern]; patterns := [MustCompile pattern] |}.

(** A package without declared types. *)
Definition importsOnly (name path : string) (imports : list string) : Package :=
  {| Package_Name := name; Package_Path := path; Imports := imports;
     Structs := ∅; Interfaces := ∅; ImportedPkgs := ∅ |}.

Definition utilsImport : string :=
  "github.com/mstrYoda/go-arctest/examples/example_project/utils".

(** The package [domain] of the example project: it imports the standard
    library's [errors] and the project's [utils]. *)
Definition exampleDomain : Architecture :=
  {| Packages := {[ "domain" := importsOnly "domain" "domain" ["errors"; utilsImport] ]};
     basePath := "/example_project" |}.

(** Two packages that both import [utils]. *)
Definition twoImporters : Architecture :=
  {| Packages :=
       <[ "domain" := importsOnly "domain" "domain" [utilsImport] ]>
         {[ "application" := importsOnly "application" "application" [utilsImport] ]};
     basePath := "/example_project" |}.

Definition noUtils : DependencyRule :=
  dependencyRule "^(domain|application)$" ".*utils$" false.
Definition mayUseUtils : DependencyRule :=
  dependencyRule "^(domain|application)$" ".*utils$" true.

(** ** Interface satisfaction *)

(** The method [sMethod] of a struct answers the method [iMethod] of an
    interface: same name, same number of parameters, and both or neither
    return something. *)
Definition answers (sMethod iMethod : Method) : Prop :=
  Method_Name sMethod = Method_Name iMethod
  ∧ length (Params sMethod) = length (Params iMethod)
  ∧ (ReturnType sMethod = "" ↔ ReturnType iMethod = "").

Definition satisfies (s : Struct) (i : Interface) : Prop :=
  ∀ iMethod, iMethod ∈ Interface_Methods i →
    ∃ sMethod, sMethod ∈ Struct_Methods s ∧ answers sMethod iMethod.

(** Two methods that differ at most in the names of their parameters. *)
Definition sameUpToParameterNames (m m' : Method) : Prop :=
  Method_Name m = Method_Name m'
  ∧ ReturnType m = ReturnType m'
  ∧ Forall2 (λ p p', Parameter_Type p = Parameter_Type p') (Params m) (Params m').

Definition method (name : string) (params : list (string * string)) (returns : string)
    : Method :=
  {| Method_Name := name;
     Params := map (λ p, {| Parameter_Name := p.1; Parameter_Type := p.2 |}) params;
     ReturnType := returns |}.

(** The struct [{A(), B(x) error}] and interfaces that ask for [A] and [B],
    for a third method, and for [B] with another arity. *)
Definition structAB : Struct :=
  {| Struct_Name := "AB"; Fields := [];
     Struct_Methods := [method "A" [] ""; method "B" [("x", "int")] "has_return"];
     Struct_Pkg_Path := "domain" |}.

Definition interfaceOf (methods : list Method) : Interface :=
  {| Interface_Name := "I"; Interface_Methods := methods; Interface_Pkg_Path := "domain" |}.

Definition interfaceAB : Interface :=
  interfaceOf [method "A" [] ""; method "B" [("y", "int")] "has_return"].
Definition interfaceABC : Interface :=
  interfaceOf [method "A" [] ""; method "B" [("y", "int")] "has_return"; method "C" [] ""].
Definition interfaceAB2 : Interface :=
  interfaceOf [method "A" [] ""; method "B" [("y", "int"); ("z", "int")] "has_return"].

(** ** Patterns without operators *)

(** A byte that stands for itself in a pattern. *)
Definition plainByte (c : ascii) : bool :=
  isASCII c
  && negb (Ascii.eqb c "(" || Ascii.eqb c "[" || Ascii.eqb c "." || Ascii.eqb c "^"
           || Ascii.eqb c "$" || Ascii.eqb c "\" || Ascii.eqb c "*" || Ascii.eqb c "+"
           || Ascii.eqb c "?" || Ascii.eqb c "{" || Ascii.eqb c ")" || Ascii.eqb c "|").

(** A pattern of such bytes only: a literal path such as [utils] or
    [internal/domain]. *)
Fixpoint plain (f : string) : bool :=
  match f with
  | EmptyString => true
  | String c f' => plainByte c && plain f'
  end.

(** The first byte of [s], if any, is no repetition operator. *)
Definition noRepeatAhead (s : string) : bool :=
  match s with
  | EmptyString => true
  | String c _ => negb (isRepeatOp c)
  end.

(** The compiled form of the bytes of [f] followed by [tail]. *)
Fixpoint literals (f : string) (tail : Regexp) : Regexp :=
  match f with
  | EmptyString => tail
  | String c f' => Concat (Literal c) (literals f' tail)
  end.

(** The compiled form of [(^|/)f$] for a plain [f]. *)
Definition endingWithRegexp (f : string) : Regexp :=
  Concat (Alternate (Concat BeginText EmptyMatch) (Concat (Literal "/") EmptyMatch))
         (literals f (Concat EndText EmptyMatch)).

(** A path that ends in the fragment [f] at a path-segment boundary. *)
Definition endsInSegment (path f : string) : bool :=
  String.eqb path f || GoStrings.HasSuffix path ("/" +:+ f).

(** ** The interface-implementation rule engine *)

(** All structs and all interfaces of the architecture. *)
Definition allStructs (a : Architecture) : list Struct :=
  entry ← map_to_list (Packages a); (map_to_list (Structs entry.2)).*2.

Definition allInterfaces (a : Architecture) : list Interface :=
  entry ← map_to_list (Packages a); (map_to_list (Interfaces entry.2)).*2.

Definition matchedStructs (a : Architecture) (rule : InterfaceImplementationRule)
    : list Struct :=
  List.filter (λ s, MatchString (IIR_structPatternRegex rule) (Struct_Name s))
              (allStructs a).

Definition matchedInterfaces (a : Architecture) (rule : InterfaceImplementationRule)
    : list Interface :=
  List.filter (λ i, MatchString (IIR_interfacePatternRegex rule) (Interface_Name i))
              (allInterfaces a).

(** The matched structs that satisfy none of the matched interfaces. *)
Definition unsatisfied (a : Architecture) (rule : InterfaceImplementationRule)
    : list Struct :=
  List.filter
    (λ s, forallb (λ i, negb (CheckInterfaceImplementation s i)) (matchedInterfaces a rule))
    (matchedStructs a rule).

(** The violations of one rule: none when no interface matches, otherwise
    one for every unsatisfied matched struct. *)
Definition ruleViolations (a : Architecture) (rule : InterfaceImplementationRule)
    : list string :=
  match matchedInterfaces a rule with
  | [] => []
  | _ :: _ => map (λ s, implementationViolation s rule) (unsatisfied a rule)
  end.

(** The repositories of the example project: the interface
    [UserRepositoryInterface] of package [domain] and the struct
    [UserRepository] of package [infrastructure] with the given methods. *)
Definition repositoryInterface : Interface :=
  {| Interface_Name := "UserRepositoryInterface";
     Interface_Methods := [method "FindByID" [("id", "string")] "has_return";
                           method "Save" [("user", "*User")] "has_return"];
     Interface_Pkg_Path := "domain" |}.

Definition repositoryStruct (methods : list Method) : Struct :=
  {| Struct_Name := "UserRepository"; Fields := [];
     Struct_Methods := methods; Struct_Pkg_Path := "infrastructure" |}.

Definition repositories (methods : list Method) : Architecture :=
  {| Packages :=
       <[ "domain" :=
            {| Package_Name := "domain"; Package_Path := "domain"; Imports := [];
               Structs := ∅;
               Interfaces := {[ "UserRepositoryInterface" := repositoryInterface ]};
               ImportedPkgs := ∅ |} ]>
       {[ "infrastructure" :=
            {| Package_Name := "infrastructure"; Package_Path := "infrastructure";
               Imports := [];
               Structs := {[ "UserRepository" := repositoryStruct methods ]};
               Interfaces := ∅; ImportedPkgs := ∅ |} ]};
     basePath := "/example_project" |}.

Definition repositoryRule : InterfaceImplementationRule :=
  {| IIR_StructPattern := ".*Repository$";
     IIR_InterfacePattern := ".*RepositoryInterface$";
     IIR_structPatternRegex := MustCompile ".*Repository$";
     IIR_interfacePatternRegex := MustCompile ".*RepositoryInterface$" |}.

Definition bothMethods : list Method :=
  [method "Save" [("u", "*User")] "has_return";
   method "FindByID" [("id", "string")] "has_return"].

Definition saveOnly : list Method := [method "Save" [("u", "*User")] "has_return"].

(** ** The parameter rule engine *)

(** The keys under which the names of a package are entered in a lookup
    table: the simple name and the package-qualified name. *)
Definition qualifiedNames (pkgName : string) (names : list string) : list string :=
  name ← names; [name; pkgName +:+ "." +:+ name].

Definition interfaceKeys (entry : string * Package) : list string :=
  qualifiedNames (Package_Name entry.2) (map_to_list (Interfaces entry.2)).*1.

Definition structKeys (entry : string * Package) : list string :=
  qualifiedNames (Package_Name entry.2) (map_to_list (Structs entry.2)).*1.

(** The lookup tables [interfaces] and [structs] of an architecture. *)
Definition interfaceTable (a : Architecture) : gmap string bool :=
  gset_to_gmap true (list_to_set (map_to_list (Packages a) ≫= interfaceKeys)).

Definition structTable (a : Architecture) : gmap string bool :=
  gset_to_gmap true (list_to_set (map_to_list (Packages a) ≫= structKeys)).

(** The violations of one rule, for the maps in their canonical order. *)
Definition parameterViolations (a : Architecture) (rule : ParameterRule) : list string :=
  entry ← map_to_list (Packages a);
  s ← (map_to_list (Structs entry.2)).*2;
  CheckMethodParameters_struct (interfaceTable a) (structTable a) rule [] s.

(** The same parameter behind one more indirection marker. *)
Definition pointerTo (p : MethodParameter) : MethodParameter :=
  {| Parameter_Name := Parameter_Name p; Parameter_Type := "*" +:+ Parameter_Type p |}.

Definition withPointerParams (m : Method) : Method :=
  {| Method_Name := Method_Name m; Params := map pointerTo (Params m);
     ReturnType := ReturnType m |}.

(** How [CheckMethodParameters] classifies a parameter under a rule:
    skipped, or looked up as an interface name and as a struct name. *)
Inductive classification : Type :=
| Skipped
| Classified (isInterface isStruct : bool).

Definition classify (interfaces structs : gmap string bool) (rule : ParameterRule)
    (p : MethodParameter) : classification :=
  if String.eqb (Parameter_Type p) "" || isPrimitiveType (Parameter_Type p) then Skipped
  else
    let paramType :=
      if GoStrings.HasPrefix (Parameter_Type p) "*"
      then GoStrings.drop 1 (Parameter_Type p)
      else Parameter_Type p in
    if negb (MatchString (PR_parameterTypePatternRegex rule) paramType) then Skipped
    else if negb (index interfaces paramType) && negb (index structs paramType) then Skipped
    else Classified (index interfaces paramType) (index structs paramType).

(** A type text that is neither empty, nor the name of a built-in scalar,
    nor itself behind an indirection marker. *)
Definition namedType (T : string) : bool :=
  negb (String.eqb T "") && negb (isPrimitiveType T) && negb (GoStrings.HasPrefix T "*").

(** A service whose method takes a parameter of the given type text; the
    package declares no other type. *)
Definition loggerService (paramType : string) : Struct :=
  {| Struct_Name := "LoggerService"; Fields := [];
     Struct_Methods := [method "UpdateFrom" [("other", paramType)] ""];
     Struct_Pkg_Path := "application" |}.

Definition services (paramType : string) : Architecture :=
  {| Packages :=
       {[ "application" :=
            {| Package_Name := "application"; Package_Path := "application";
               Imports := [];
               Structs := {[ "LoggerService" := loggerService paramType ]};
               Interfaces := ∅; ImportedPkgs := ∅ |} ]};
     basePath := "/example_project" |}.

Definition interfaceParameters : ParameterRule :=
  {| PR_StructPattern := ".*Service.*"; PR_MethodPattern := "Update.*";
     PR_ParameterTypePattern := ".*Service"; ShouldUseInterface := true;
     PR_structPatternRegex := MustCompile ".*Service.*";
     PR_methodPatternRegex := MustCompile "Update.*";
     PR_parameterTypePatternRegex := MustCompile ".*Service" |}.

(** ** The whole-architecture check *)

(** The violations of a list of items when each item returns its own or
    panics. *)
Fixpoint collect {A B : Type} (f : A → outcome (list B)) (l : list A) : outcome (list B) :=
  match l with
  | [] => Returns []
  | x :: l' => new ← f x; rest ← collect f l'; Returns (new ++ rest)
  end.

(** Two outcomes agree up to the order of the violations. *)
Definition sameUpToOrder (o1 o2 : outcome (list string)) : Prop :=
  match o1, o2 with
  | Returns v1, Returns v2 => v1 ≡ₚ v2
  | Panics, Panics => True
  | _, _ => False
  end.

(** An import path without dot and slash, taken for the standard library. *)
Definition standardLibrary (importPath : string) : bool :=
  negb (GoStrings.Contains importPath ".") && negb (GoStrings.Contains importPath "/").

(** Scenario A: the layers [Domain] and [Utils], with the patterns of the
    repository's tests and with unanchored patterns, and no allow rule. *)
Definition domainAndUtils : LayeredArchitecture :=
  NewLayeredArchitecture [layer "Domain" "^domain$"; layer "Utils" "^utils$"].

Definition domainAndUtilsUnanchored : LayeredArchitecture :=
  NewLayeredArchitecture [layer "Domain" "domain"; layer "Utils" "utils"].

(** The package [domain] with the import path [utils] as the scenario of the
    specification writes it. *)
Definition bareUtilsImport : Architecture :=
  {| Packages := {[ "domain" := importsOnly "domain" "domain" ["utils"] ]};
     basePath := "/example_project" |}.

(** The packages [domain] and [utils] of the example project. *)
Definition exampleProject : Architecture :=
  {| Packages :=
       <[ "domain" := importsOnly "domain" "domain" ["errors"; utilsImport] ]>
         {[ "utils" := importsOnly "utils" "utils" ["fmt"; "time"] ]};
     basePath := "/example_project" |}.

(** ** Layer permissions *)

(** The pairs of one source pattern and one target pattern of two layers,
    in the order of the two loops of [AddRule]. *)
Definition patternPairs (sourceLayer targetLayer : Layer) : list (string * string) :=
  sourcePkg ← Layer_Packages sourceLayer; targetPkg ← Layer_Packages targetLayer;
  [(sourcePkg, targetPkg)].

(** The allow rule [AddRule] constructs for a pair. *)
Definition allowRuleFor (pp : string * string) : error + DependencyRule :=
  NewDependencyRule (endingWith (cleanPattern pp.1)) (endingWith (cleanPattern pp.2)) true.

(** The two loops of [AddRule] as one loop over the pairs. *)
Fixpoint addAllowRules (pairs : list (string * string)) (rules : list DependencyRule)
    : list DependencyRule * option error :=
  match pairs with
  | [] => (rules, None)
  | pp :: rest =>
      match allowRuleFor pp with
      | inl err => (rules, Some err)
      | inr rule => addAllowRules rest (rules ++ [rule])
      end
  end.

(** The allow rule for a pair of patterns whose fragments are literal. *)
Definition literalAllowRule (pp : string * string) : DependencyRule :=
  {| SourcePattern := endingWith (cleanPattern pp.1);
     TargetPattern := endingWith (cleanPattern pp.2);
     AllowedImports := true;
     sourcePatternRegex := endingWithRegexp (cleanPattern pp.1);
     targetPatternRegex := endingWithRegexp (cleanPattern pp.2) |}.

(** A layer value whose pattern text does not compile; the fields of
    [Layer] that hold the texts are exported. *)
Definition brokenLayer : Layer :=
  {| Layer_Name := "Broken"; Layer_Packages := ["("]; patterns := [] |}.

(** A layer with two alternatives. *)
Definition frontLayer : Layer := layer "Front" "application|web".

(** * Vocabulary for the rest of the API *)

(** A layer whose loop over [patterns] can evaluate [Packages[0]]. *)
Definition hasPackageText (l : Layer) : Prop :=
  patterns l = [] ∨ Layer_Packages l ≠ [].

(** A layer whose pattern fragments are all literal. *)
Definition literalLayer (l : Layer) : Prop :=
  Forall (λ pkg, plain (cleanPattern pkg) = true) (Layer_Packages l).

(** The path ends, at a segment boundary, in a fragment of the layer. *)
Definition endsInLayer (l : Layer) (path : string) : bool :=
  existsb (λ pkg, endsInSegment path (cleanPattern pkg)) (Layer_Packages l).

(** The outcome [o'] reports a sublist of what [o] reports, or both panic. *)
Definition fewerViolations (o' o : outcome (list string)) : Prop :=
  match o', o with
  | Returns v', Returns v => sublist v' v
  | Panics, Panics => True
  | _, _ => False
  end.

(** The rule lets the package import the path in [Check]. *)
Definition allows (pkgPath importPath : string) (rule : DependencyRule) : bool :=
  MatchString (sourcePatternRegex rule) pkgPath
  && MatchString (targetPatternRegex rule) importPath
  && AllowedImports rule.

(** The layer [l] at position [i] is the first one that passes [test]. *)
Definition firstLayer (test : Layer → outcome bool) (layers : list Layer)
    (i : nat) (l : Layer) : Prop :=
  layers !! i = Some l ∧ test l = Returns true
  ∧ ∀ j l', j < i → layers !! j = Some l' → test l' = Returns false.

(** The layer of a package, and the layer [Check] takes an import for. *)
Definition sourceLayerOf (la : LayeredArchitecture) (pkgPath : string) :=
  firstLayer (λ l, Returns (Contains l pkgPath)) (Layers la).
Definition targetLayerOf (la : LayeredArchitecture) (importPath : string) :=
  firstLayer (λ l, importInLayer l (patterns l) importPath) (Layers la).

(** An import the layered check objects to. *)
Definition crossLayerImport (la : LayeredArchitecture) (arch : Architecture)
    (violation : string) : Prop :=
  ∃ pkgPath pkg importPath si sourceLayer ti targetLayer,
    Packages arch !! pkgPath = Some pkg
    ∧ importPath ∈ Imports pkg
    ∧ standardLibrary importPath = false
    ∧ sourceLayerOf la pkgPath si sourceLayer
    ∧ targetLayerOf la importPath ti targetLayer
    ∧ si ≠ ti
    ∧ allowedByRules (rules la) pkgPath importPath = false
    ∧ violation = layerViolation pkgPath (Layer_Name sourceLayer)
                                 importPath (Layer_Name targetLayer).

(** The compiled form of an alternation [r1|r2|...]. *)
Fixpoint anyOf (rs : list Regexp) : Regexp :=
  match rs with
  | [] => EmptyMatch
  | [r] => r
  | r :: rest => Alternate r (anyOf rest)
  end.

(** What the pattern built from a layer's package patterns matches: a layer
    without package patterns yields the empty pattern, which matches every
    path. *)
Definition matchedByLayerRule (l : Layer) (path : string) : bool :=
  match Layer_Packages l with
  | [] => true
  | _ => endsInLayer l path
  end.

(** The pattern [^f$] and its compiled form for a literal [f]. *)
Definition anchored (f : string) : string := "^" +:+ f +:+ "$".
Definition anchoredRegexp (f : string) : Regexp :=
  Concat BeginText (literals f (Concat EndText EmptyMatch)).

(** The layer was made by [NewLayer] from the patterns [^f$] of the
    literal paths [fs]. *)
Definition madeOfPaths (l : Layer) (fs : list string) : Prop :=
  Forall (λ f, plain f = true) fs
  ∧ NewLayer (Layer_Name l) (map anchored fs) = inr l.

(** The repositories of the example with one more interface in [domain],
    which has no methods and a name the rule's interface pattern matches. *)
Definition markerInterface : Interface :=
  {| Interface_Name := "AnyRepositoryInterface"; Interface_Methods := [];
     Interface_Pkg_Path := "domain" |}.

Definition repositoriesWithMarker (methods : list Method) : Architecture :=
  {| Packages :=
       <[ "domain" :=
            {| Package_Name := "domain"; Package_Path := "domain"; Imports := [];
               Structs := ∅;
               Interfaces := <[ "AnyRepositoryInterface" := markerInterface ]>
                               {[ "UserRepositoryInterface" := repositoryInterface ]};
               ImportedPkgs := ∅ |} ]>
       {[ "infrastructure" :=
            {| Package_Name := "infrastructure"; Package_Path := "infrastructure";
               Imports := [];
               Structs := {[ "UserRepository" := repositoryStruct methods ]};
               Interfaces := ∅; ImportedPkgs := ∅ |} ]};
     basePath := "/example_project" |}.

(** Some package declares an interface (a struct) that the key names: by
    its simple name, or by the package name, a dot and the simple name. *)
Definition declaresInterface (a : Architecture) (key : string) : Prop :=
  ∃ path pkg name,
    Packages a !! path = Some pkg ∧ is_Some (Interfaces pkg !! name)
    ∧ (key = name ∨ key = Package_Name pkg +:+ "." +:+ name).

Definition declaresStruct (a : Architecture) (key : string) : Prop :=
  ∃ path pkg name,
    Packages a !! path = Some pkg ∧ is_Some (Structs pkg !! name)
    ∧ (key = name ∨ key = Package_Name pkg +:+ "." +:+ name).

(** The type text without one leading pointer marker. *)
Definition pointee (type : string) : string :=
  if GoStrings.HasPrefix type "*" then GoStrings.drop 1 type else type.

(** A parameter that a rule objects to, with the message. *)
Definition misusedParameter (a : Architecture) (rule : ParameterRule)
    (violation : string) : Prop :=
  ∃ path pkg key s m p,
    Packages a !! path = Some pkg ∧ Structs pkg !! key = Some s
    ∧ MatchString (PR_structPatternRegex rule) (Struct_Name s) = true
    ∧ m ∈ Struct_Methods s
    ∧ MatchString (PR_methodPatternRegex rule) (Method_Name m) = true
    ∧ p ∈ Params m
    ∧ Parameter_Type p ≠ EmptyString
    ∧ isPrimitiveType (Parameter_Type p) = false
    ∧ MatchString (PR_parameterTypePatternRegex rule) (pointee (Parameter_Type p)) = true
    ∧ ((ShouldUseInterface rule = true
        ∧ declaresStruct a (pointee (Parameter_Type p))
        ∧ ¬ declaresInterface a (pointee (Parameter_Type p))
        ∧ violation = structParameterViolation m s (pointee (Parameter_Type p)))
       ∨ (ShouldUseInterface rule = false
          ∧ declaresInterface a (pointee (Parameter_Type p))
          ∧ ¬ declaresStruct a (pointee (Parameter_Type p))
          ∧ violation = interfaceParameterViolation m s (pointee (Parameter_Type p)))).

(** The compiled form of [^f\.] followed by a pattern whose compiled form
    is [r], for a literal [f]. *)
Definition scopedRegexp (f : string) (r : Regexp) : Regexp :=
  Concat BeginText (literals f (Concat (Literal ".") r)).

Definition isAlternate (r : Regexp) : bool :=
  match r with
  | Alternate _ _ => true
  | _ => false
  end.

(** The compiled form of the pattern [getScopedPattern] makes for a layer
    of literal package patterns. *)
Definition scopedPatternRegexp (l : Layer) (r : Regexp) : Regexp :=
  Concat (anyOf (map (λ pkg, scopedRegexp (cleanPattern pkg) r) (Layer_Packages l)))
         EmptyMatch.

(** The names of the structs of an architecture contain no dot: they are Go
    identifiers. *)
Definition structNamesPlain (a : Architecture) : Prop :=
  ∀ path pkg key s,
    Packages a !! path = Some pkg → Structs pkg !! key = Some s →
    GoStrings.Contains (Struct_Name s) "." = false.

(** ** Well-formed configurations *)

Definition layerNamesOf (c : config.Config) : list string :=
  map config.LayerConfig_Name (config.Layers c).

(** The parameters a layer-specific rule of the given type needs: the keys
    that must be present, and those whose values must compile. *)
Definition requiredParameters (ruleType : string) : list string :=
  if String.eqb ruleType "dependency" then ["targetPattern"]
  else if String.eqb ruleType "interface" then ["structPattern"; "interfacePattern"]
  else ["structPattern"; "methodPattern"; "parameterTypePattern"; "shouldUseInterface"].

Definition patternParameters (ruleType : string) : list string :=
  if String.eqb ruleType "dependency" then ["targetPattern"]
  else if String.eqb ruleType "interface" then ["structPattern"; "interfacePattern"]
  else ["structPattern"; "methodPattern"; "parameterTypePattern"].

(** A text that is not empty and compiles. *)
Definition goodPattern (expr : string) : Prop :=
  expr ≠ EmptyString ∧ is_Some (Compile expr).

Definition wellFormed (c : config.Config) : Prop :=
  config.Layers c ≠ []
  ∧ Forall (λ layer, config.LayerConfig_Name layer ≠ EmptyString
                     ∧ goodPattern (config.LayerConfig_Pattern layer)) (config.Layers c)
  ∧ NoDup (layerNamesOf c)
  ∧ Forall (λ rule, config.From rule ∈ layerNamesOf c ∧ config.To rule ∈ layerNamesOf c)
           (config.Rules c)
  ∧ Forall (λ rule, goodPattern (config.IRC_StructPattern rule)
                    ∧ goodPattern (config.IRC_InterfacePattern rule))
           (config.InterfaceRules c)
  ∧ Forall (λ rule, goodPattern (config.PRC_StructPattern rule)
                    ∧ goodPattern (config.PRC_MethodPattern rule)
                    ∧ goodPattern (config.PRC_ParameterTypePattern rule))
           (config.ParameterRules c)
  ∧ Forall (λ rule, config.LSR_Layer rule ∈ layerNamesOf c
                    ∧ config.RuleType rule ∈ ["dependency"; "interface"; "parameter"]
                    ∧ Forall (λ key, is_Some (config.Parameters rule !! key))
                             (requiredParameters (config.RuleType rule))
                    ∧ Forall (λ key, is_Some (Compile (config.parameter
                                                         (config.Parameters rule) key)))
                             (patternParameters (config.RuleType rule)))
           (config.LayerSpecificRules c)
  ∧ Forall (λ rule, config.SourceLayer rule ∈ layerNamesOf c
                    ∧ config.TargetLayer rule ∈ layerNamesOf c)
           (config.DirectLayerDependencyRules c).

(** The valid configuration of the package's test. *)
Definition validConfig : config.Config :=
  {| config.Layers := [ {| config.LayerConfig_Name := "Layer1";
                           config.LayerConfig_Pattern := "^layer1$" |};
                        {| config.LayerConfig_Name := "Layer2";
                           config.LayerConfig_Pattern := "^layer2$" |} ];
     config.Rules := [ {| config.From := "Layer1"; config.To := "Layer2" |} ];
     config.InterfaceRules := [];
     config.ParameterRules := [];
     config.LayerSpecificRules := [];
     config.DirectLayerDependencyRules := [] |}.

(** * Properties *)

(** ** Loops that append to a slice, and ranges over maps *)

Lemma foldl_append {A B : Type} (g : list B → A → list B) (f : A → list B) :
  (∀ acc x, g acc x = acc ++ f x) →
  ∀ l acc, foldl g acc l = acc ++ (l ≫= f).
Proof.
  intros Hg l. induction l as [|x l IH]; intros acc; csimpl.
  - by rewrite app_nil_r.
  - rewrite Hg, IH. by rewrite <- app_assoc.
Qed.

Lemma filter_bind {A B : Type} (p : B → bool) (f : A → list B) (l : list A) :
  List.filter p (l ≫= f) = l ≫= (λ x, List.filter p (f x)).
Proof.
  induction l as [|x l IH]; csimpl; [done|].
  by rewrite List.filter_app, IH.
Qed.

Lemma map_bind {A B C : Type} (g : B → C) (f : A → list B) (l : list A) :
  map g (l ≫= f) = l ≫= (λ x, map g (f x)).
Proof.
  induction l as [|x l IH]; csimpl; [done|].
  by rewrite map_app, IH.
Qed.

Lemma filter_Permutation_bool {A : Type} (p : A → bool) (l1 l2 : list A) :
  l1 ≡ₚ l2 → List.filter p l1 ≡ₚ List.filter p l2.
Proof.
  induction 1 as [|x l1 l2 _ IH|x y l|l1 l2 l3 _ IH1 _ IH2]; simpl.
  - done.
  - destruct (p x); by rewrite IH.
  - destruct (p x), (p y); try done. apply perm_swap.
  - by etrans.
Qed.

Lemma rangeMap_canonical {V : Type} (m : gmap string V) : map_to_list m ∈ rangeMap m.
Proof. unfold rangeMap. by apply elem_of_PropSet. Qed.

Lemma elem_of_rangeMap {V : Type} (m : gmap string V) order :
  order ∈ rangeMap m ↔ order ≡ₚ map_to_list m.
Proof. unfold rangeMap. by rewrite elem_of_PropSet. Qed.

(** ** The example inputs are what the constructors return *)

Lemma examples_constructed :
  NewDependencyRule "^(domain|application)$" ".*utils$" false = inr noUtils
  ∧ NewDependencyRule "^(domain|application)$" ".*utils$" true = inr mayUseUtils
  ∧ NewLayer "Domain" ["^domain$"] = inr (layer "Domain" "^domain$")
  ∧ NewLayer "Utils" ["^utils$"] = inr (layer "Utils" "^utils$")
  ∧ NewLayer "Application" ["^application$"] = inr (layer "Application" "^application$")
  ∧ NewLayer "Domain" ["domain"] = inr (layer "Domain" "domain")
  ∧ NewLayer "Utils" ["utils"] = inr (layer "Utils" "utils")
  ∧ NewLayer "Front" ["application|web"] = inr frontLayer
  ∧ NewInterfaceImplementationRule ".*Repository$" ".*RepositoryInterface$"
    = inr repositoryRule
  ∧ NewParameterRule ".*Service.*" "Update.*" ".*Service" true = inr interfaceParameters.
Proof. repeat split; vm_compute; reflexivity. Qed.

(** ** The dependency rule engine *)

Lemma CheckDependencies_rule_app pkgPath importPath violations rule :
  CheckDependencies_rule pkgPath importPath violations rule
  = violations ++ map tripleViolation
      (List.filter disallowedMatch [(pkgPath, importPath, rule)]).
Proof.
  unfold CheckDependencies_rule, disallowedMatch; simpl.
  destruct (MatchString (sourcePatternRegex rule) pkgPath),
           (MatchString (targetPatternRegex rule) importPath),
           (AllowedImports rule); simpl; by rewrite ?app_nil_r.
Qed.

Lemma CheckDependencies_packages_triples order rules :
  CheckDependencies_packages order rules
  = map tripleViolation (List.filter disallowedMatch (triples order rules)).
Proof.
  unfold CheckDependencies_packages, triples.
  rewrite filter_bind, map_bind.
  rewrite (foldl_append _
    (λ entry, map tripleViolation (List.filter disallowedMatch
       (importPath ← Imports entry.2; rule ← rules; [(entry.1, importPath, rule)])))).
  { done. }
  intros acc [pkgPath pkg]; simpl.
  rewrite filter_bind, map_bind.
  apply foldl_append. intros acc' importPath.
  rewrite filter_bind, map_bind.
  apply foldl_append. intros acc'' rule.
  apply CheckDependencies_rule_app.
Qed.

Lemma triples_Permutation order1 order2 rules :
  order1 ≡ₚ order2 → triples order1 rules ≡ₚ triples order2 rules.
Proof. intros H. unfold triples. by rewrite H. Qed.

Lemma elem_of_CheckDependencies a rules violations :
  violations ∈ CheckDependencies a rules ↔
  ∃ order, order ≡ₚ map_to_list (Packages a) ∧
    violations = map tripleViolation (List.filter disallowedMatch (triples order rules)).
Proof.
  unfold CheckDependencies. rewrite elem_of_bind. split.
  - intros (order & Hret & Hord). apply elem_of_ret in Hret.
    apply elem_of_rangeMap in Hord. exists order. split; [done|].
    by rewrite Hret, CheckDependencies_packages_triples.
  - intros (order & Hord & ->). exists order. split.
    + apply elem_of_ret. by rewrite CheckDependencies_packages_triples.
    + by apply elem_of_rangeMap.
Qed.

Lemma CheckDependencies_returns a rules :
  ∃ violations, violations ∈ CheckDependencies a rules.
Proof.
  eexists. apply elem_of_CheckDependencies. by exists (map_to_list (Packages a)).
Qed.

Lemma filter_none {A : Type} (p : A → bool) (l : list A) :
  Forall (λ x, p x = false) l → List.filter p l = [].
Proof. induction 1 as [|x l Hx _ IH]; simpl; [done|]. by rewrite Hx. Qed.

Lemma triples_rules order rules t :
  t ∈ triples order rules → t.2 ∈ rules.
Proof.
  unfold triples. intros H.
  apply list_elem_of_bind in H as (entry & H & _).
  apply list_elem_of_bind in H as (importPath & H & _).
  apply list_elem_of_bind in H as (rule & H & Hrule).
  apply list_elem_of_singleton in H as ->. done.
Qed.

(** C1. [CheckDependencies] always returns, and what it returns is, for
    some order of the packages, the list with exactly one violation for every
    triple (package, declared import, rule) whose rule matches the package
    path with its source pattern and the import path with its target pattern
    and disallows.  The number of violations is the number of such triples,
    every instance of a rule in the list counting for itself, and rules that
    allow add nothing: with only such rules the result is empty. *)
Theorem CheckDependencies_one_per_triple (a : Architecture) (rules : list DependencyRule) :
  (∃ violations, violations ∈ CheckDependencies a rules) ∧
  (∀ violations, violations ∈ CheckDependencies a rules ↔
     ∃ order, order ≡ₚ map_to_list (Packages a) ∧
       violations = map tripleViolation
                      (List.filter disallowedMatch (triples order rules))) ∧
  (∀ violations, violations ∈ CheckDependencies a rules →
     length violations
     = length (List.filter disallowedMatch (triples (map_to_list (Packages a)) rules))) ∧
  (∀ violations, violations ∈ CheckDependencies a rules →
     Forall (λ rule, AllowedImports rule = true) rules → violations = []).
Proof.
  split; [|split; [|split]].
  - apply CheckDependencies_returns.
  - apply elem_of_CheckDependencies.
  - intros violations (order & Hord & ->)%elem_of_CheckDependencies.
    rewrite length_map. apply Permutation_length, filter_Permutation_bool.
    by apply triples_Permutation.
  - intros violations (order & Hord & ->)%elem_of_CheckDependencies Hallow.
    rewrite filter_none; [done|].
    apply Forall_forall. intros t Ht%triples_rules.
    rewrite Forall_forall in Hallow. unfold disallowedMatch.
    rewrite (Hallow _ Ht). simpl. by rewrite andb_false_r.
Qed.

(** The example package [domain] under two instances of a rule that forbids
    [utils] and one rule that allows it: two violations. *)
Lemma CheckDependencies_one_per_triple_witness :
  ∃ violations, violations ∈ CheckDependencies exampleDomain [noUtils; mayUseUtils; noUtils]
    ∧ length violations = 2.
Proof.
  destruct (CheckDependencies_one_per_triple exampleDomain [noUtils; mayUseUtils; noUtils])
    as ((violations & Hin) & _ & Hlen & _).
  exists violations. split; [exact Hin|].
  rewrite (Hlen violations Hin). vm_compute. reflexivity.
Defined.

(** ** Interface satisfaction *)

Lemma methodSignaturesMatch_answers m1 m2 :
  methodSignaturesMatch m1 m2 = true ↔ answers m1 m2.
Proof.
  unfold methodSignaturesMatch, answers.
  destruct (String.eqb_spec (Method_Name m1) (Method_Name m2)) as [Hn|Hn]; simpl;
    [|split; [done|tauto]].
  destruct (Nat.eqb_spec (length (Params m1)) (length (Params m2))) as [Hl|Hl]; simpl;
    [|split; [done|tauto]].
  destruct (String.eqb_spec (ReturnType m1) "") as [H1|H1],
           (String.eqb_spec (ReturnType m2) "") as [H2|H2]; simpl;
    split; try done; tauto.
Qed.

Lemma foundIn_answers sMethods iMethod :
  foundIn sMethods iMethod = true ↔
  ∃ sMethod, sMethod ∈ sMethods ∧ answers sMethod iMethod.
Proof.
  induction sMethods as [|sMethod rest IH]; simpl.
  - split; [done|]. intros (? & H & _). by apply elem_of_nil in H.
  - destruct (String.eqb_spec (Method_Name sMethod) (Method_Name iMethod)) as [Hn|Hn].
    + destruct (methodSignaturesMatch sMethod iMethod) eqn:Hsig.
      * split; [|done]. intros _. exists sMethod. split; [left|].
        by apply methodSignaturesMatch_answers.
      * rewrite IH. split.
        -- intros (x & Hx & Hans). exists x. split; [by right|done].
        -- intros (x & Hx & Hans). apply elem_of_cons in Hx as [->|Hx].
           ++ apply methodSignaturesMatch_answers in Hans. congruence.
           ++ by exists x.
    + rewrite IH. split.
      * intros (x & Hx & Hans). exists x. split; [by right|done].
      * intros (x & Hx & Hans). apply elem_of_cons in Hx as [->|Hx].
        -- destruct Hans as [Hans _]. done.
        -- by exists x.
Qed.

Lemma allFound_Forall sMethods iMethods :
  allFound sMethods iMethods = true ↔
  ∀ iMethod, iMethod ∈ iMethods →
    ∃ sMethod, sMethod ∈ sMethods ∧ answers sMethod iMethod.
Proof.
  induction iMethods as [|iMethod rest IH]; simpl.
  - split; [|done]. intros _ x Hx. by apply elem_of_nil in Hx.
  - destruct (foundIn sMethods iMethod) eqn:Hf; simpl.
    + rewrite IH. split.
      * intros H x [->|Hx]%elem_of_cons; [by apply foundIn_answers|by apply H].
      * intros H x Hx. apply H. by right.
    + split; [done|]. intros H.
      assert (foundIn sMethods iMethod = true) as Hf'
        by (apply foundIn_answers, H; left).
      congruence.
Qed.

Lemma CheckInterfaceImplementation_satisfies s i :
  CheckInterfaceImplementation s i = true ↔ satisfies s i.
Proof.
  unfold CheckInterfaceImplementation, satisfies.
  destruct (Interface_Methods i) as [|iMethod rest] eqn:Hm; simpl.
  - split; [|done]. intros _ x Hx. by apply elem_of_nil in Hx.
  - apply (allFound_Forall (Struct_Methods s) (iMethod :: rest)).
Qed.

Lemma answers_sameUpToParameterNames sMethod sMethod' iMethod iMethod' :
  sameUpToParameterNames sMethod sMethod' →
  sameUpToParameterNames iMethod iMethod' →
  answers sMethod iMethod → answers sMethod' iMethod'.
Proof.
  intros (Hn1 & Hr1 & Hp1) (Hn2 & Hr2 & Hp2) (Hn & Hl & Hr).
  apply Forall2_length in Hp1, Hp2.
  unfold answers. rewrite <- Hn1, <- Hn2, <- Hr1, <- Hr2, <- Hp1, <- Hp2. done.
Qed.

Lemma sameUpToParameterNames_sym m m' :
  sameUpToParameterNames m m' → sameUpToParameterNames m' m.
Proof.
  intros (Hn & Hr & Hp). repeat split; try done.
  apply Forall2_flip. eapply Forall2_impl; [exact Hp|]. done.
Qed.

Lemma satisfies_sameUpToParameterNames s s' i i' :
  Forall2 sameUpToParameterNames (Struct_Methods s) (Struct_Methods s') →
  Forall2 sameUpToParameterNames (Interface_Methods i) (Interface_Methods i') →
  satisfies s i → satisfies s' i'.
Proof.
  intros Hs Hi Hsat iMethod' Hin'.
  apply list_elem_of_lookup in Hin' as (k & Hk).
  destruct (Forall2_lookup_r _ _ _ _ _ Hi Hk) as (iMethod & Hk0 & Hsame).
  destruct (Hsat iMethod) as (sMethod & Hin & Hans).
  { apply list_elem_of_lookup. by exists k. }
  apply list_elem_of_lookup in Hin as (j & Hj).
  destruct (Forall2_lookup_l _ _ _ _ _ Hs Hj) as (sMethod' & Hj' & Hsame').
  exists sMethod'. split.
  - apply list_elem_of_lookup. by exists j.
  - by eapply answers_sameUpToParameterNames.
Qed.

(** C2. [CheckInterfaceImplementation] answers [true] exactly when every
    method of the interface has a method of the struct with the same name,
    the same number of parameters and the same presence of a return value;
    an interface without methods is implemented by every struct; and the
    answer is the same for structs and interfaces that differ only in the
    names of parameters. *)
Theorem CheckInterfaceImplementation_iff (s : Struct) (i : Interface) :
  (CheckInterfaceImplementation s i = true ↔ satisfies s i) ∧
  (Interface_Methods i = [] → CheckInterfaceImplementation s i = true) ∧
  (∀ s' i',
     Forall2 sameUpToParameterNames (Struct_Methods s) (Struct_Methods s') →
     Forall2 sameUpToParameterNames (Interface_Methods i) (Interface_Methods i') →
     CheckInterfaceImplementation s' i' = CheckInterfaceImplementation s i).
Proof.
  split; [apply CheckInterfaceImplementation_satisfies|split].
  - intros Hm. unfold CheckInterfaceImplementation. by rewrite Hm.
  - intros s' i' Hs Hi. apply Bool.eq_iff_eq_true.
    rewrite !CheckInterfaceImplementation_satisfies. split.
    + apply satisfies_sameUpToParameterNames.
      * apply Forall2_flip. eapply Forall2_impl; [exact Hs|].
        apply sameUpToParameterNames_sym.
      * apply Forall2_flip. eapply Forall2_impl; [exact Hi|].
        apply sameUpToParameterNames_sym.
    + by apply satisfies_sameUpToParameterNames.
Qed.

(** The struct [{A(), B(x) error}] implements [{A(), B(y) error}] and the
    empty interface, but neither an interface with a third method nor one
    where [B] has two parameters. *)
Lemma CheckInterfaceImplementation_iff_witness :
  satisfies structAB interfaceAB
  ∧ CheckInterfaceImplementation structAB (interfaceOf []) = true
  ∧ CheckInterfaceImplementation structAB interfaceAB
    = CheckInterfaceImplementation structAB
        (interfaceOf [method "A" [] ""; method "B" [("x", "int")] "has_return"])
  ∧ CheckInterfaceImplementation structAB interfaceABC = false
  ∧ CheckInterfaceImplementation structAB interfaceAB2 = false.
Proof.
  split; [|split; [|split; [|split]]].
  - apply (proj1 (CheckInterfaceImplementation_iff structAB interfaceAB)). reflexivity.
  - apply (proj1 (proj2 (CheckInterfaceImplementation_iff structAB (interfaceOf [])))).
    reflexivity.
  - apply (proj2 (proj2 (CheckInterfaceImplementation_iff structAB
             (interfaceOf [method "A" [] ""; method "B" [("x", "int")] "has_return"])))).
    + repeat constructor.
    + repeat constructor.
  - reflexivity.
  - reflexivity.
Defined.

(** ** Every check returns *)

Lemma rangeMap_inhabited {V : Type} (m : gmap string V) : ∃ order, order ∈ rangeMap m.
Proof. exists (map_to_list m). apply rangeMap_canonical. Qed.

Lemma foldM_inhabited {A S : Type} (body : S → A → propset S) (l : list A) :
  (∀ s x, ∃ s', s' ∈ body s x) → ∀ s, ∃ s', s' ∈ foldM body s l.
Proof.
  intros Hbody. induction l as [|x l IH]; intros s; simpl.
  - exists s. by apply elem_of_ret.
  - destruct (Hbody s x) as (s1 & Hs1). destruct (IH s1) as (s2 & Hs2).
    exists s2. apply elem_of_bind. eauto.
Qed.

Lemma CheckStructImplementsInterfaces_returns a rules :
  ∃ violations, violations ∈ CheckStructImplementsInterfaces a rules.
Proof.
  apply foldM_inhabited. intros violations rule.
  unfold CheckStructImplementsInterfaces_rule.
  destruct (rangeMap_inhabited (Packages a)) as (order & Horder).
  destruct (foldM_inhabited (collectMatching rule) order) with (s := ([], []) : list Struct * list Interface)
    as (found & Hfound).
  { intros found entry. unfold collectMatching.
    destruct (rangeMap_inhabited (Structs entry.2)) as (o1 & Ho1).
    destruct (rangeMap_inhabited (Interfaces entry.2)) as (o2 & Ho2).
    eexists. apply elem_of_bind. exists o1. split; [|done].
    apply elem_of_bind. exists o2. split; [|done]. by apply elem_of_ret. }
  eexists. apply elem_of_bind. exists order. split; [|done].
  apply elem_of_bind. exists found. split; [|done]. by apply elem_of_ret.
Qed.

Lemma CheckMethodParameters_returns a rules :
  ∃ violations, violations ∈ CheckMethodParameters a rules.
Proof.
  unfold CheckMethodParameters.
  destruct (rangeMap_inhabited (Packages a)) as (order & Horder).
  destruct (foldM_inhabited registerPackage order) with (s := (∅, ∅) : gmap string bool * gmap string bool)
    as (tables & Htables).
  { intros tables entry. unfold registerPackage.
    destruct (rangeMap_inhabited (Interfaces entry.2)) as (o1 & Ho1).
    destruct (rangeMap_inhabited (Structs entry.2)) as (o2 & Ho2).
    eexists. apply elem_of_bind. exists o1. split; [|done].
    apply elem_of_bind. exists o2. split; [|done]. by apply elem_of_ret. }
  destruct (foldM_inhabited (CheckMethodParameters_rule a tables.1 tables.2) rules)
    with (s := [] : list string) as (violations & Hv).
  { intros violations rule. unfold CheckMethodParameters_rule.
    destruct (foldM_inhabited (CheckMethodParameters_package tables.1 tables.2 rule) order)
      with (s := violations) as (v' & Hv').
    { intros v entry. unfold CheckMethodParameters_package.
      destruct (rangeMap_inhabited (Structs entry.2)) as (o & Ho).
      eexists. apply elem_of_bind. exists o. split; [|done]. by apply elem_of_ret. }
    exists v'. apply elem_of_bind. exists order. split; done. }
  exists violations. apply elem_of_bind. exists order. split; [|done].
  apply elem_of_bind. exists tables. split; done.
Qed.

(** ** The validation entry points *)

Lemma passes_iff (pass : bool) (violations : list string) :
  pass = (length violations =? 0)%nat ↔ (pass = true ↔ violations = []).
Proof.
  destruct violations as [|v violations], pass; simpl; split; try done; try tauto;
    intros [H1 H2]; try (by specialize (H1 eq_refl)); by specialize (H2 eq_refl).
Qed.

Lemma elem_of_validate (check : propset (list string)) pass violations :
  (pass, violations) ∈ (violations ← check; mret ((length violations =? 0)%nat, violations))
  ↔ violations ∈ check ∧ (pass = true ↔ violations = []).
Proof.
  rewrite elem_of_bind. split.
  - intros (v & Hret & Hv). apply elem_of_ret in Hret. injection Hret as -> ->.
    split; [done|]. by apply passes_iff.
  - intros (Hv & Hpass). exists violations. split; [|done].
    apply elem_of_ret. f_equal. by apply passes_iff.
Qed.

(** C10. Each validation entry point returns some pair, and the pairs it can
    return are the violation lists of its check, each with a flag that is
    [true] exactly when the list is empty. *)
Theorem Validate_passes_iff_no_violations (a : Architecture)
    (dependencyRules : list DependencyRule)
    (interfaceRules : list InterfaceImplementationRule)
    (parameterRules : list ParameterRule) :
  ((∃ r, r ∈ ValidateDependenciesWithRules a dependencyRules) ∧
   ∀ pass violations,
     (pass, violations) ∈ ValidateDependenciesWithRules a dependencyRules ↔
     violations ∈ CheckDependencies a dependencyRules ∧ (pass = true ↔ violations = [])) ∧
  ((∃ r, r ∈ ValidateInterfaceImplementations a interfaceRules) ∧
   ∀ pass violations,
     (pass, violations) ∈ ValidateInterfaceImplementations a interfaceRules ↔
     violations ∈ CheckStructImplementsInterfaces a interfaceRules
     ∧ (pass = true ↔ violations = [])) ∧
  ((∃ r, r ∈ ValidateMethodParameters a parameterRules) ∧
   ∀ pass violations,
     (pass, violations) ∈ ValidateMethodParameters a parameterRules ↔
     violations ∈ CheckMethodParameters a parameterRules
     ∧ (pass = true ↔ violations = [])).
Proof.
  split; [|split]; (split; [|intros pass violations; by apply elem_of_validate]).
  - destruct (CheckDependencies_returns a dependencyRules) as (v & Hv).
    exists ((length v =? 0)%nat, v).
    apply elem_of_bind. exists v. split; [by apply elem_of_ret|done].
  - destruct (CheckStructImplementsInterfaces_returns a interfaceRules) as (v & Hv).
    exists ((length v =? 0)%nat, v).
    apply elem_of_bind. exists v. split; [by apply elem_of_ret|done].
  - destruct (CheckMethodParameters_returns a parameterRules) as (v & Hv).
    exists ((length v =? 0)%nat, v).
    apply elem_of_bind. exists v. split; [by apply elem_of_ret|done].
Qed.

(** ** Construction of dependency rules *)

Lemma Compile_empty : Compile "" = Some EmptyMatch.
Proof. reflexivity. Qed.

(** C7, as stated, fails: a rule with empty patterns is constructed. *)
Lemma NewDependencyRule_empty_patterns_accepted :
  NewDependencyRule "" "" false
  = inr {| SourcePattern := ""; TargetPattern := ""; AllowedImports := false;
           sourcePatternRegex := EmptyMatch; targetPatternRegex := EmptyMatch |}
  ∧ (∃ rule, NewDependencyRule "" "^utils$" false = inr rule)
  ∧ (∃ rule, NewDependencyRule "^domain$" "" false = inr rule).
Proof. split; [reflexivity|split; eexists; vm_compute; reflexivity]. Qed.

(** C7, amended. [NewDependencyRule] fails exactly when the source pattern
    or the target pattern does not compile, with the error of the first
    pattern that does not; when both compile the rule holds both texts, the
    flag and both compiled patterns.  The empty pattern compiles, so an empty
    source or target pattern is accepted whenever the other pattern
    compiles. *)
Theorem NewDependencyRule_fails_iff_not_compiling
    (sourcePattern targetPattern : string) (allowedImports : bool) :
  (NewDependencyRule sourcePattern targetPattern allowedImports = inl InvalidSourcePattern
     ↔ Compile sourcePattern = None) ∧
  (NewDependencyRule sourcePattern targetPattern allowedImports = inl InvalidTargetPattern
     ↔ is_Some (Compile sourcePattern) ∧ Compile targetPattern = None) ∧
  (∀ rule, NewDependencyRule sourcePattern targetPattern allowedImports = inr rule ↔
     ∃ sourceRegex targetRegex,
       Compile sourcePattern = Some sourceRegex ∧ Compile targetPattern = Some targetRegex ∧
       rule = {| SourcePattern := sourcePattern; TargetPattern := targetPattern;
                 AllowedImports := allowedImports;
                 sourcePatternRegex := sourceRegex; targetPatternRegex := targetRegex |}) ∧
  (is_Some (Compile targetPattern) →
     ∃ rule, NewDependencyRule "" targetPattern allowedImports = inr rule) ∧
  (is_Some (Compile sourcePattern) →
     ∃ rule, NewDependencyRule sourcePattern "" allowedImports = inr rule).
Proof.
  unfold NewDependencyRule. rewrite Compile_empty.
  destruct (Compile sourcePattern) as [sourceRegex|] eqn:Hs,
           (Compile targetPattern) as [targetRegex|] eqn:Ht.
  all: repeat match goal with |- _ ∧ _ => split end.
  all: try (split; [done|]; try done).
  all: try (intros [? ?]; done).
  all: try (intros; by eexists).
  all: try (intros (? & ? & ? & ?); done).
  all: try (intros [[? ?] ?]; done).
  all: try (intros [? ?]; by eapply is_Some_None).
  - intros rule. split.
    + intros [= <-]. eauto.
    + intros (? & ? & [= <-] & [= <-] & ->). done.
  - intros (? & ? & _ & ? & _). done.
Qed.

(** The patterns of the repository's tests: [^domain$] and [.*utils$]
    compile, the pattern [[invalid] of the configuration test does not. *)
Lemma NewDependencyRule_fails_iff_not_compiling_witness :
  NewDependencyRule "[invalid" ".*utils$" false = inl InvalidSourcePattern
  ∧ NewDependencyRule "^domain$" "[invalid" false = inl InvalidTargetPattern
  ∧ (∃ rule, NewDependencyRule "" ".*utils$" false = inr rule)
  ∧ (∃ rule, NewDependencyRule "^domain$" "" false = inr rule).
Proof.
  split; [|split; [|split]].
  - apply (proj1 (NewDependencyRule_fails_iff_not_compiling "[invalid" ".*utils$" false)).
    reflexivity.
  - apply (proj1 (proj2 (NewDependencyRule_fails_iff_not_compiling "^domain$" "[invalid" false))).
    split; [eexists|]; vm_compute; reflexivity.
  - apply (proj1 (proj2 (proj2 (proj2
      (NewDependencyRule_fails_iff_not_compiling "^domain$" ".*utils$" false))))).
    eexists; vm_compute; reflexivity.
  - apply (proj2 (proj2 (proj2 (proj2
      (NewDependencyRule_fails_iff_not_compiling "^domain$" ".*utils$" false))))).
    eexists; vm_compute; reflexivity.
Defined.

(** ** Package [regexp]: patterns without operators *)

Lemma parseAlternation_S fuel s :
  parseAlternation (S fuel) s =
  match parseSequence fuel s with
  | None => None
  | Some (r1, rest) =>
      match rest with
      | String c rest' =>
          if Ascii.eqb c "|" then
            match parseAlternation fuel rest' with
            | None => None
            | Some (r2, rest'') => Some (Alternate r1 r2, rest'')
            end
          else Some (r1, rest)
      | EmptyString => Some (r1, rest)
      end
  end.
Proof. reflexivity. Qed.

Lemma parseSequence_S fuel s :
  parseSequence (S fuel) s =
  match s with
  | EmptyString => Some (EmptyMatch, s)
  | String c _ =>
      if Ascii.eqb c "|" || Ascii.eqb c ")" then Some (EmptyMatch, s)
      else
        match parseAtom fuel s with
        | None => None
        | Some (a, rest) =>
            match parseRepeat a rest with
            | None => None
            | Some (a', rest') =>
                match parseSequence fuel rest' with
                | None => None
                | Some (r, rest'') => Some (Concat a' r, rest'')
                end
            end
        end
  end.
Proof. reflexivity. Qed.

Lemma parseAtom_S fuel s :
  parseAtom (S fuel) s =
  match s with
  | EmptyString => None
  | String c rest =>
      if Ascii.eqb c "(" then
        match groupBody rest with
        | None => None
        | Some body =>
            match parseAlternation fuel body with
            | Some (r, String k t) => if Ascii.eqb k ")" then Some (r, t) else None
            | _ => None
            end
        end
      else parseSimpleAtom c rest
  end.
Proof. reflexivity. Qed.

(** More fuel does not change a result. *)
Lemma parse_fuel_S fuel :
  (∀ s r, parseAlternation fuel s = Some r → parseAlternation (S fuel) s = Some r) ∧
  (∀ s r, parseSequence fuel s = Some r → parseSequence (S fuel) s = Some r) ∧
  (∀ s r, parseAtom fuel s = Some r → parseAtom (S fuel) s = Some r).
Proof.
  induction fuel as [|fuel (IHa & IHs & IHt)]; [by repeat split|].
  split; [|split]; intros s r H.
  - rewrite parseAlternation_S in H |- *.
    destruct (parseSequence fuel s) as [[r1 rest]|] eqn:E; [|done].
    rewrite (IHs _ _ E).
    destruct rest as [|c rest']; [done|].
    destruct (Ascii.eqb c "|"); [|done].
    destruct (parseAlternation fuel rest') as [[r2 rest'']|] eqn:E2; [|done].
    by rewrite (IHa _ _ E2).
  - rewrite parseSequence_S in H |- *.
    destruct s as [|c s']; [done|].
    destruct (Ascii.eqb c "|" || Ascii.eqb c ")"); [done|].
    destruct (parseAtom fuel (String c s')) as [[a rest]|] eqn:E; [|done].
    rewrite (IHt _ _ E).
    destruct (parseRepeat a rest) as [[a' rest']|]; [|done].
    destruct (parseSequence fuel rest') as [[r' rest'']|] eqn:E2; [|done].
    by rewrite (IHs _ _ E2).
  - rewrite parseAtom_S in H |- *.
    destruct s as [|c rest]; [done|].
    destruct (Ascii.eqb c "("); [|done].
    destruct (groupBody rest) as [body|]; [|done].
    destruct (parseAlternation fuel body) as [[r' rest']|] eqn:E; [|done].
    by rewrite (IHa _ _ E).
Qed.

Lemma parseAlternation_fuel_le fuel fuel' s r :
  fuel ≤ fuel' → parseAlternation fuel s = Some r → parseAlternation fuel' s = Some r.
Proof.
  induction 1 as [|fuel' _ IH]; [done|].
  intros H. by apply parse_fuel_S, IH.
Qed.

Lemma parseSequence_fuel_le fuel fuel' s r :
  fuel ≤ fuel' → parseSequence fuel s = Some r → parseSequence fuel' s = Some r.
Proof.
  induction 1 as [|fuel' _ IH]; [done|].
  intros H. by apply parse_fuel_S, IH.
Qed.

Lemma plainByte_inv c :
  plainByte c = true →
  isASCII c = true ∧ isRepeatOp c = false
  ∧ Ascii.eqb c "(" = false ∧ Ascii.eqb c "[" = false ∧ Ascii.eqb c "." = false
  ∧ Ascii.eqb c "^" = false ∧ Ascii.eqb c "$" = false ∧ Ascii.eqb c "\" = false
  ∧ Ascii.eqb c "{" = false ∧ Ascii.eqb c ")" = false ∧ Ascii.eqb c "|" = false.
Proof.
  unfold plainByte, isRepeatOp. intros [Hascii H]%andb_true_iff.
  apply negb_true_iff in H.
  repeat (apply orb_false_iff in H as [H ?]).
  repeat split; try done.
  by repeat (apply orb_false_iff; split).
Qed.

Lemma parseSimpleAtom_plain c rest :
  plainByte c = true → parseSimpleAtom c rest = Some (Literal c, rest).
Proof.
  intros (Hascii & Hrep & H1 & H2 & H3 & H4 & H5 & H6 & H7 & H8 & H9)%plainByte_inv.
  unfold parseSimpleAtom. by rewrite H2, H3, H4, H5, H6, Hrep, H7, H8, H9, Hascii.
Qed.

Lemma parseRepeat_none a s :
  noRepeatAhead s = true → parseRepeat a s = Some (a, s).
Proof.
  destruct s as [|c s]; [done|]. simpl. intros H%negb_true_iff. by rewrite H.
Qed.

Lemma noRepeatAhead_plain f rest :
  plain f = true → noRepeatAhead rest = true → noRepeatAhead (f +:+ rest) = true.
Proof.
  destruct f as [|c f]; [done|]. simpl.
  intros [Hc _]%andb_true_iff _.
  apply plainByte_inv in Hc as (_ & -> & _). done.
Qed.

Lemma parseSequence_plain f rest fuel tail rest' :
  plain f = true → noRepeatAhead rest = true →
  parseSequence fuel rest = Some (tail, rest') →
  parseSequence (String.length f + fuel) (f +:+ rest) = Some (literals f tail, rest').
Proof.
  intros Hf Hrest Hparse. induction f as [|c f IH]; [done|].
  simpl in Hf. apply andb_true_iff in Hf as [Hc Hf].
  change (String.length (String c f) + fuel) with (S (String.length f + fuel)).
  change (String c f +:+ rest) with (String c (f +:+ rest)).
  rewrite parseSequence_S.
  pose proof (plainByte_inv c Hc) as (_ & _ & Hparen & _ & _ & _ & _ & _ & _ & Hc1 & Hc2).
  rewrite Hc1, Hc2. simpl orb. cbv iota.
  assert (∃ n, String.length f + fuel = S n) as [n Hn].
  { destruct fuel as [|fuel']; [done|]. exists (String.length f + fuel'). lia. }
  rewrite Hn at 1.
  rewrite parseAtom_S, Hparen, parseSimpleAtom_plain by done.
  rewrite parseRepeat_none by (by apply noRepeatAhead_plain).
  rewrite (IH Hf). done.
Qed.

Lemma append_empty (f : string) : f +:+ "" = f.
Proof.
  induction f as [|c f IH]; [done|].
  change (String c (f +:+ "") = String c f). by rewrite IH.
Qed.

Lemma length_append (f g : string) :
  String.length (f +:+ g) = String.length f + String.length g.
Proof.
  induction f as [|c f IH]; [done|].
  change (S (String.length (f +:+ g)) = S (String.length f + String.length g)).
  by rewrite IH.
Qed.

(** A plain pattern compiles to its bytes. *)
Lemma Compile_plain f : plain f = true → Compile f = Some (literals f EmptyMatch).
Proof.
  intros Hf. unfold Compile.
  assert (parseAlternation (S (String.length f + 1)) f
          = Some (literals f EmptyMatch, "")) as H.
  { rewrite parseAlternation_S.
    pose proof (parseSequence_plain f "" 1 EmptyMatch "" Hf eq_refl eq_refl) as H.
    rewrite append_empty in H. by rewrite H. }
  apply (parseAlternation_fuel_le _ (3 * String.length f + 3)) in H; [|lia].
  by rewrite H.
Qed.

(** The pattern [(^|/)f$] of a plain fragment compiles. *)
Lemma Compile_endingWith f :
  plain f = true → Compile (endingWith f) = Some (endingWithRegexp f).
Proof.
  intros Hf. unfold Compile, endingWith.
  assert (parseAlternation (S (S (String.length f + 7))) ("(^|/)" +:+ f +:+ "$")
          = Some (endingWithRegexp f, "")) as H.
  { rewrite parseAlternation_S, parseSequence_S.
    change ("(^|/)" +:+ f +:+ "$") with (String "(" ("^|/)" +:+ f +:+ "$")).
    cbv iota. simpl (Ascii.eqb _ _ || _). cbv iota.
    replace (String.length f + 7) with (S (String.length f + 6)) by lia.
    rewrite parseAtom_S. simpl (Ascii.eqb "(" "("). cbv iota.
    change (groupBody ("^|/)" +:+ f +:+ "$")) with (Some ("^|/)" +:+ f +:+ "$")).
    cbv iota.
    assert (parseAlternation (String.length f + 6) ("^|/)" +:+ f +:+ "$")
            = Some (Alternate (Concat BeginText EmptyMatch) (Concat (Literal "/") EmptyMatch),
                    ")" +:+ f +:+ "$")) as ->.
    { apply (parseAlternation_fuel_le 6); [lia|]. reflexivity. }
    change (")" +:+ f +:+ "$") with (String ")" (f +:+ "$")). cbv iota.
    simpl (Ascii.eqb ")" ")"). cbv iota.
    rewrite parseRepeat_none by (by apply noRepeatAhead_plain).
    replace (S (String.length f + 6)) with (String.length f + 7) by lia.
    rewrite (parseSequence_plain f "$" 7 (Concat EndText EmptyMatch) "" Hf eq_refl eq_refl).
    done. }
  apply (parseAlternation_fuel_le _ (3 * String.length ("(^|/)" +:+ f +:+ "$") + 3)) in H.
  - by rewrite H.
  - change ("(^|/)" +:+ f +:+ "$") with
      (String "(" (String "^" (String "|" (String "/" (String ")" (f +:+ "$")))))).
    simpl String.length. rewrite length_append. simpl. lia.
Qed.

(** ** Package [regexp]: matching a plain pattern *)

#[local] Arguments Ascii.eqb : simpl never.
#[local] Arguments String.eqb : simpl never.

Lemma eqb_sym_ascii (c d : ascii) : Ascii.eqb c d = Ascii.eqb d c.
Proof.
  destruct (Ascii.eqb_spec c d) as [->|Hne].
  - by rewrite Ascii.eqb_refl.
  - symmetry. apply Ascii.eqb_neq. congruence.
Qed.

(** Matching the bytes of [f] and then [tail]. *)
Lemma m_literals f tail start s k :
  m (literals f tail) start s k
  = GoStrings.HasPrefix s f
    && m tail (match f with EmptyString => start | _ => false end)
         (GoStrings.drop (String.length f) s) k.
Proof.
  revert start s. induction f as [|c f IH]; intros start s; [done|].
  simpl. destruct s as [|d s]; [done|].
  rewrite IH, (eqb_sym_ascii c d).
  destruct (Ascii.eqb d c); [|done]. simpl.
  by destruct f.
Qed.

Lemma HasPrefix_drop_eqb s f :
  GoStrings.HasPrefix s f
  && match GoStrings.drop (String.length f) s with
     | EmptyString => true
     | String _ _ => false
     end
  = String.eqb s f.
Proof.
  revert s. induction f as [|c f IH]; intros s.
  - by destruct s.
  - destruct s as [|d s]; [done|]. simpl.
    change (String.eqb (String d s) (String c f))
      with (if Ascii.eqb d c then String.eqb s f else false).
    rewrite <- IH. by destruct (Ascii.eqb d c).
Qed.

(** An unanchored plain pattern matches the paths that contain it. *)
Lemma MatchString_literals f start path :
  search (literals f EmptyMatch) start path = GoStrings.Contains path f.
Proof.
  revert start. induction path as [|c path IH]; intros start.
  - simpl. rewrite m_literals. simpl. by rewrite andb_true_r.
  - simpl. rewrite m_literals, IH. simpl. by rewrite andb_true_r.
Qed.

Lemma eqb_length (s t : string) : String.eqb s t = true → String.length s = String.length t.
Proof. by intros ->%String.eqb_eq. Qed.

Lemma HasSuffix_cons c s t :
  GoStrings.HasSuffix (String c s) t = String.eqb (String c s) t || GoStrings.HasSuffix s t.
Proof.
  unfold GoStrings.HasSuffix.
  destruct (decide (String.length t ≤ String.length s)) as [Hle|Hgt].
  - replace (String.length (String c s) - String.length t)
      with (S (String.length s - String.length t)) by (simpl; lia).
    simpl GoStrings.drop.
    destruct (String.eqb (String c s) t) eqn:E.
    { apply eqb_length in E. simpl in E. lia. }
    replace (String.length t <=? String.length (String c s)) with true
      by (symmetry; apply Nat.leb_le; simpl; lia).
    replace (String.length t <=? String.length s) with true
      by (symmetry; apply Nat.leb_le; lia).
    done.
  - destruct (decide (String.length t = S (String.length s))) as [Heq|Hne].
    + replace (String.length (String c s) - String.length t) with 0 by (simpl; lia).
      simpl GoStrings.drop.
      replace (String.length t <=? String.length (String c s)) with true
        by (symmetry; apply Nat.leb_le; simpl; lia).
      replace (String.length t <=? String.length s) with false
        by (symmetry; apply Nat.leb_gt; lia).
      simpl. by rewrite orb_false_r.
    + replace (String.length t <=? String.length (String c s)) with false
        by (symmetry; apply Nat.leb_gt; simpl; lia).
      replace (String.length t <=? String.length s) with false
        by (symmetry; apply Nat.leb_gt; lia).
      rewrite !Bool.andb_false_l, orb_false_r.
      destruct (String.eqb (String c s) t) eqn:E; [|done].
      apply eqb_length in E. simpl in E. lia.
Qed.

Lemma m_endingWithRegexp f start s :
  m (endingWithRegexp f) start s (λ _ _, true)
  = (start && String.eqb s f) || String.eqb s ("/" +:+ f).
Proof.
  unfold endingWithRegexp.
  change (m (Concat ?a ?b) start s ?k) with (m a start s (λ start' s', m b start' s' k)).
  simpl m at 1.
  assert (∀ st s', m (literals f (Concat EndText EmptyMatch)) st s' (λ _ _, true)
                   = String.eqb s' f) as Hlit.
  { intros st s'. rewrite m_literals. simpl. apply HasPrefix_drop_eqb. }
  rewrite Hlit. f_equal.
  destruct s as [|d s]; [done|].
  rewrite Hlit.
  change (String.eqb (String d s) ("/" +:+ f))
    with (if Ascii.eqb d "/" then String.eqb s f else false).
  rewrite (eqb_sym_ascii "/" d). by destruct (Ascii.eqb d "/").
Qed.

Lemma search_endingWithRegexp_inner f s :
  search (endingWithRegexp f) false s = GoStrings.HasSuffix s ("/" +:+ f).
Proof.
  induction s as [|c s IH].
  - change (search (endingWithRegexp f) false "")
      with (m (endingWithRegexp f) false "" (λ _ _, true) || false).
    rewrite m_endingWithRegexp. by rewrite orb_false_r.
  - rewrite HasSuffix_cons, <- IH.
    change (search (endingWithRegexp f) false (String c s))
      with (m (endingWithRegexp f) false (String c s) (λ _ _, true)
            || search (endingWithRegexp f) false s).
    by rewrite m_endingWithRegexp.
Qed.

(** The pattern [(^|/)f$] of a plain fragment matches the paths that are
    [f] or end in [/f]. *)
Lemma MatchString_endingWithRegexp f path :
  MatchString (endingWithRegexp f) path = endsInSegment path f.
Proof.
  unfold MatchString, endsInSegment. destruct path as [|c path].
  - change (search (endingWithRegexp f) true "")
      with (m (endingWithRegexp f) true "" (λ _ _, true) || false).
    rewrite m_endingWithRegexp. simpl andb.
    unfold GoStrings.HasSuffix. simpl. by rewrite !orb_false_r.
  - change (search (endingWithRegexp f) true (String c path))
      with (m (endingWithRegexp f) true (String c path) (λ _ _, true)
            || search (endingWithRegexp f) false path).
    rewrite m_endingWithRegexp, search_endingWithRegexp_inner, HasSuffix_cons.
    simpl andb. by rewrite orb_assoc.
Qed.

(** ** Layer containment *)

(** C4, as stated, fails: the layer of the single pattern [utils] contains
    the path [myutils], as it contains [utils] and [utils/sub]. *)
Lemma Contains_myutils :
  NewLayer "Utils" ["utils"] = inr (layer "Utils" "utils")
  ∧ Contains (layer "Utils" "utils") "utils" = true
  ∧ Contains (layer "Utils" "utils") "utils/sub" = true
  ∧ Contains (layer "Utils" "utils") "myutils" = true.
Proof. repeat split; vm_compute; reflexivity. Qed.

(** C4, amended.  A layer constructed with a single pattern of literal
    bytes, such as [utils], contains exactly the package paths that have the
    pattern as a substring: the path itself, nested paths such as
    [utils/sub], and also paths such as [myutils]. *)
Theorem Contains_plain_pattern (name pattern : string) :
  plain pattern = true →
  ∃ l, NewLayer name [pattern] = inr l
       ∧ ∀ pkgPath, Contains l pkgPath = GoStrings.Contains pkgPath pattern.
Proof.
  intros Hplain. unfold NewLayer. simpl. rewrite (Compile_plain _ Hplain).
  eexists. split; [reflexivity|].
  intros pkgPath. unfold Contains. simpl.
  unfold MatchString. rewrite MatchString_literals.
  by destruct (GoStrings.Contains pkgPath pattern).
Qed.

Lemma Contains_plain_pattern_witness :
  ∃ l, NewLayer "Utils" ["utils"] = inr l
       ∧ Contains l "utils" = true
       ∧ Contains l "utils/sub" = true
       ∧ Contains l "myutils" = true
       ∧ Contains l "domain" = false.
Proof.
  destruct (Contains_plain_pattern "Utils" "utils" eq_refl) as (l & Hnew & Hl).
  exists l. split; [exact Hnew|].
  rewrite !Hl. repeat split; reflexivity.
Defined.

(** ** Loops whose body ranges over maps *)

Lemma foldM_append {A B : Type} (body : list B → A → propset (list B))
    (canon : A → list B) :
  (∀ acc x r, r ∈ body acc x → ∃ new, r = acc ++ new ∧ new ≡ₚ canon x) →
  ∀ l acc r, r ∈ foldM body acc l →
    ∃ news, r = acc ++ concat news ∧ Forall2 (λ x new, new ≡ₚ canon x) l news.
Proof.
  intros Hbody l. induction l as [|x l IH]; intros acc r; simpl.
  - intros ->%elem_of_ret. exists []. split; [by rewrite app_nil_r|constructor].
  - intros (r1 & Hr & Hr1)%elem_of_bind.
    destruct (Hbody _ _ _ Hr1) as (new & -> & Hnew).
    destruct (IH _ _ Hr) as (news & -> & Hnews).
    exists (new :: news). split; [by rewrite <- app_assoc|by constructor].
Qed.

Lemma concat_Forall2_Permutation {A B : Type} (canon : A → list B) l news :
  Forall2 (λ x new, new ≡ₚ canon x) l news → concat news ≡ₚ l ≫= canon.
Proof.
  induction 1 as [|x new l news Hnew _ IH]; csimpl; [done|]. by rewrite Hnew, IH.
Qed.

Lemma foldl_filter_append {K A : Type} (p : A → bool) (l : list (K * A)) (acc : list A) :
  foldl (λ found '(_, x), if p x then found ++ [x] else found) acc l
  = acc ++ List.filter p l.*2.
Proof.
  revert acc. induction l as [|[k x] l IH]; intros acc; simpl.
  - by rewrite app_nil_r.
  - rewrite IH. destruct (p x); [|done]. by rewrite <- app_assoc.
Qed.

(** ** The interface-implementation rule engine *)

Lemma collectMatching_found rule order found r :
  r ∈ foldM (collectMatching rule) found order →
  r.1 ≡ₚ found.1 ++ List.filter
           (λ s, MatchString (IIR_structPatternRegex rule) (Struct_Name s))
           (entry ← order; (map_to_list (Structs entry.2)).*2)
  ∧ r.2 ≡ₚ found.2 ++ List.filter
           (λ i, MatchString (IIR_interfacePatternRegex rule) (Interface_Name i))
           (entry ← order; (map_to_list (Interfaces entry.2)).*2).
Proof.
  revert found. induction order as [|entry order IH]; intros found; simpl.
  - intros ->%elem_of_ret. csimpl. by rewrite !app_nil_r.
  - intros (r1 & Hr & Hr1)%elem_of_bind.
    unfold collectMatching in Hr1.
    apply elem_of_bind in Hr1 as (structs & Hr1 & Hstructs%elem_of_rangeMap).
    apply elem_of_bind in Hr1 as (interfaces & Hr1 & Hinterfaces%elem_of_rangeMap).
    apply elem_of_ret in Hr1 as ->.
    destruct (IH _ Hr) as [H1 H2]. simpl in H1, H2.
    rewrite foldl_filter_append in H1. rewrite foldl_filter_append in H2.
    csimpl. rewrite !List.filter_app.
    split.
    + rewrite H1, <- app_assoc.
      apply Permutation_app; [done|]. apply Permutation_app; [|done].
      apply filter_Permutation_bool. by rewrite Hstructs.
    + rewrite H2, <- app_assoc.
      apply Permutation_app; [done|]. apply Permutation_app; [|done].
      apply filter_Permutation_bool. by rewrite Hinterfaces.
Qed.

Lemma implementsAnyOf_existsb s interfaces :
  implementsAnyOf s interfaces = existsb (CheckInterfaceImplementation s) interfaces.
Proof.
  induction interfaces as [|i rest IH]; simpl; [done|].
  rewrite IH. by destruct (CheckInterfaceImplementation s i).
Qed.

Lemma existsb_Permutation {A : Type} (p : A → bool) l1 l2 :
  l1 ≡ₚ l2 → existsb p l1 = existsb p l2.
Proof.
  induction 1 as [|x l1 l2 _ IH|x y l|l1 l2 l3 _ IH1 _ IH2]; simpl.
  - done.
  - by rewrite IH.
  - by destruct (p x), (p y).
  - congruence.
Qed.

Lemma reportUnimplemented_app rule interfaces violations s :
  reportUnimplemented rule interfaces violations s
  = violations ++ map (λ s, implementationViolation s rule)
      (List.filter (λ s, negb (implementsAnyOf s interfaces) && (0 <? length interfaces)) [s]).
Proof.
  unfold reportUnimplemented. simpl.
  destruct (negb (implementsAnyOf s interfaces) && (0 <? length interfaces)); simpl;
    by rewrite ?app_nil_r.
Qed.

Lemma filter_ext_bool {A : Type} (p q : A → bool) l :
  (∀ x, p x = q x) → List.filter p l = List.filter q l.
Proof. intros H. induction l as [|x l IH]; simpl; [done|]. by rewrite H, IH. Qed.

Lemma singleton_bind {A : Type} (l : list A) : l ≫= (λ x, [x]) = l.
Proof. induction l as [|x l IH]; csimpl; [done|]. by rewrite IH. Qed.

(** The violations one rule adds, whatever the order of the maps. *)
Lemma CheckStructImplementsInterfaces_rule_app a violations rule r :
  r ∈ CheckStructImplementsInterfaces_rule a violations rule →
  ∃ new, r = violations ++ new ∧ new ≡ₚ ruleViolations a rule.
Proof.
  unfold CheckStructImplementsInterfaces_rule.
  intros (order & Hr & Horder%elem_of_rangeMap)%elem_of_bind.
  apply elem_of_bind in Hr as (found & Hr & Hfound).
  apply elem_of_ret in Hr as ->.
  apply collectMatching_found in Hfound as [Hstructs Hinterfaces].
  simpl in Hstructs, Hinterfaces.
  assert (found.1 ≡ₚ matchedStructs a rule) as Hs.
  { rewrite Hstructs. apply filter_Permutation_bool. unfold allStructs. by rewrite Horder. }
  assert (found.2 ≡ₚ matchedInterfaces a rule) as Hi.
  { rewrite Hinterfaces. apply filter_Permutation_bool. unfold allInterfaces.
    by rewrite Horder. }
  rewrite (foldl_append _ (λ s, map (λ s, implementationViolation s rule)
    (List.filter (λ s, negb (implementsAnyOf s found.2) && (0 <? length found.2)) [s])))
    by apply reportUnimplemented_app.
  eexists. split; [reflexivity|].
  rewrite <- map_bind, <- filter_bind, singleton_bind.
  unfold ruleViolations, unsatisfied.
  rewrite (filter_ext_bool _
    (λ s, forallb (λ i, negb (CheckInterfaceImplementation s i)) (matchedInterfaces a rule)
          && (0 <? length (matchedInterfaces a rule)))).
  2:{ intros s. rewrite !implementsAnyOf_existsb, (existsb_Permutation _ _ _ Hi).
      rewrite (Permutation_length Hi). f_equal.
      generalize (matchedInterfaces a rule). intros l.
      induction l as [|i l IH]; simpl; [done|].
      rewrite <- IH. by destruct (CheckInterfaceImplementation s i). }
  destruct (matchedInterfaces a rule) as [|i rest] eqn:Hm.
  - simpl. rewrite filter_none; [done|]. apply Forall_forall. done.
  - apply Permutation_map.
    rewrite (filter_ext_bool _
      (λ s, forallb (λ i, negb (CheckInterfaceImplementation s i)) (i :: rest))).
    + by apply filter_Permutation_bool.
    + intros s. simpl. by rewrite andb_true_r.
Qed.

Lemma CheckStructImplementsInterfaces_rules a rules violations :
  violations ∈ CheckStructImplementsInterfaces a rules →
  ∃ perRule, violations = concat perRule
    ∧ Forall2 (λ rule new, new ≡ₚ ruleViolations a rule) rules perRule.
Proof.
  intros H. apply (foldM_append _ (ruleViolations a)) in H.
  - done.
  - apply CheckStructImplementsInterfaces_rule_app.
Qed.



(** ** The parameter rule engine *)

Lemma append_assoc (a b c : string) : (a +:+ b) +:+ c = a +:+ b +:+ c.
Proof.
  induction a as [|x a IH]; [done|].
  change (String x ((a +:+ b) +:+ c) = String x (a +:+ b +:+ c)). by rewrite IH.
Qed.

Lemma registerNames_lookup pkgName table names k :
  registerNames (pkgName +:+ ".") table names !! k
  = if decide (k ∈ qualifiedNames pkgName names) then Some true else table !! k.
Proof.
  unfold registerNames, qualifiedNames.
  revert table. induction names as [|name names IH]; intros table; csimpl.
  - done.
  - rewrite IH. clear IH. rewrite append_assoc.
    destruct (decide (k ∈ names ≫= λ name0, [name0; pkgName +:+ "." +:+ name0]))
      as [Hin|Hnin].
    { rewrite decide_True; [done|]. by do 2 right. }
    rewrite !lookup_insert.
    destruct (decide (pkgName +:+ "." +:+ name = k)) as [<-|Hne1].
    { rewrite decide_True; [done|]. right. by left. }
    destruct (decide (name = k)) as [<-|Hne2].
    { rewrite decide_True; [done|]. by left. }
    rewrite decide_False; [done|].
    intros [->|[->|H]%elem_of_cons]%elem_of_cons; done.
Qed.

Lemma qualifiedNames_Permutation pkgName names1 names2 :
  names1 ≡ₚ names2 → qualifiedNames pkgName names1 ≡ₚ qualifiedNames pkgName names2.
Proof. intros H. unfold qualifiedNames. by rewrite H. Qed.

Lemma lookup_step (k : string) (here here' rest : list string) (old : option bool) :
  (k ∈ here ↔ k ∈ here') →
  (if decide (k ∈ rest) then Some true
   else if decide (k ∈ here) then Some true else old)
  = if decide (k ∈ here' ++ rest) then Some true else old.
Proof.
  intros Hk. destruct (decide (k ∈ rest)) as [Hin|Hnin].
  { rewrite decide_True; [done|]. apply elem_of_app. by right. }
  destruct (decide (k ∈ here)) as [Hin'|Hnin'].
  { rewrite decide_True; [done|]. apply elem_of_app. left. by apply Hk. }
  rewrite decide_False; [done|].
  intros [H|H]%elem_of_app; [by apply Hk in H|done].
Qed.

Lemma registerPackage_lookup order tables r :
  r ∈ foldM registerPackage tables order →
  (∀ k, r.1 !! k = if decide (k ∈ order ≫= interfaceKeys) then Some true
                   else tables.1 !! k)
  ∧ (∀ k, r.2 !! k = if decide (k ∈ order ≫= structKeys) then Some true
                     else tables.2 !! k).
Proof.
  revert tables. induction order as [|entry order IH]; intros tables; simpl.
  - intros ->%elem_of_ret. by split; intros k; csimpl.
  - intros (r1 & Hr & Hr1)%elem_of_bind.
    unfold registerPackage in Hr1.
    apply elem_of_bind in Hr1 as (interfaces & Hr1 & Hinterfaces%elem_of_rangeMap).
    apply elem_of_bind in Hr1 as (structs & Hr1 & Hstructs%elem_of_rangeMap).
    apply elem_of_ret in Hr1 as ->.
    destruct (IH _ Hr) as [H1 H2]. simpl in H1, H2.
    split; intros k; csimpl.
    + rewrite H1, registerNames_lookup.
      assert (k ∈ qualifiedNames (Package_Name entry.2) interfaces.*1
              ↔ k ∈ interfaceKeys entry) as Hk.
      { unfold interfaceKeys.
        by rewrite (qualifiedNames_Permutation _ _ _ (fmap_Permutation fst _ _ Hinterfaces)). }
      by apply lookup_step.
    + rewrite H2, registerNames_lookup.
      assert (k ∈ qualifiedNames (Package_Name entry.2) structs.*1
              ↔ k ∈ structKeys entry) as Hk.
      { unfold structKeys.
        by rewrite (qualifiedNames_Permutation _ _ _ (fmap_Permutation fst _ _ Hstructs)). }
      by apply lookup_step.
Qed.

(** The lookup tables do not depend on the order in which the maps are
    visited. *)
Lemma registerPackage_tables a order r :
  order ≡ₚ map_to_list (Packages a) →
  r ∈ foldM registerPackage (∅, ∅) order →
  r = (interfaceTable a, structTable a).
Proof.
  intros Horder [H1 H2]%registerPackage_lookup.
  destruct r as [t1 t2]. simpl in H1, H2. f_equal; apply map_eq; intros k.
  - rewrite H1. unfold interfaceTable. rewrite lookup_gset_to_gmap, lookup_empty.
    assert (k ∈ order ≫= interfaceKeys ↔ k ∈ map_to_list (Packages a) ≫= interfaceKeys)
      as Hk by (by rewrite Horder).
    case_decide as H.
    + rewrite option_guard_True; [done|]. by apply elem_of_list_to_set, Hk.
    + rewrite option_guard_False; [done|]. by rewrite elem_of_list_to_set, <- Hk.
  - rewrite H2. unfold structTable. rewrite lookup_gset_to_gmap, lookup_empty.
    assert (k ∈ order ≫= structKeys ↔ k ∈ map_to_list (Packages a) ≫= structKeys)
      as Hk by (by rewrite Horder).
    case_decide as H.
    + rewrite option_guard_True; [done|]. by apply elem_of_list_to_set, Hk.
    + rewrite option_guard_False; [done|]. by rewrite elem_of_list_to_set, <- Hk.
Qed.

Lemma CheckMethodParameters_param_app interfaces structs rule s m violations p :
  CheckMethodParameters_param interfaces structs rule s m violations p
  = violations ++ CheckMethodParameters_param interfaces structs rule s m [] p.
Proof.
  unfold CheckMethodParameters_param.
  repeat match goal with
         | |- context [if ?b then _ else _] => destruct b
         end; by rewrite ?app_nil_r.
Qed.

Lemma CheckMethodParameters_method_app interfaces structs rule s violations m :
  CheckMethodParameters_method interfaces structs rule s violations m
  = violations ++ CheckMethodParameters_method interfaces structs rule s [] m.
Proof.
  unfold CheckMethodParameters_method.
  destruct (negb (MatchString (PR_methodPatternRegex rule) (Method_Name m)));
    [by rewrite app_nil_r|].
  rewrite !(foldl_append _ (CheckMethodParameters_param interfaces structs rule s m []))
    by apply CheckMethodParameters_param_app.
  done.
Qed.

Lemma CheckMethodParameters_struct_app interfaces structs rule violations s :
  CheckMethodParameters_struct interfaces structs rule violations s
  = violations ++ CheckMethodParameters_struct interfaces structs rule [] s.
Proof.
  unfold CheckMethodParameters_struct.
  destruct (negb (MatchString (PR_structPatternRegex rule) (Struct_Name s)));
    [by rewrite app_nil_r|].
  rewrite !(foldl_append _ (CheckMethodParameters_method interfaces structs rule s []))
    by apply CheckMethodParameters_method_app.
  done.
Qed.

Lemma CheckMethodParameters_package_app interfaces structs rule violations entry r :
  r ∈ CheckMethodParameters_package interfaces structs rule violations entry →
  ∃ new, r = violations ++ new
    ∧ new ≡ₚ (s ← (map_to_list (Structs entry.2)).*2;
              CheckMethodParameters_struct interfaces structs rule [] s).
Proof.
  unfold CheckMethodParameters_package.
  intros (order & Hr & Horder%elem_of_rangeMap)%elem_of_bind.
  apply elem_of_ret in Hr as ->.
  rewrite (foldl_append _ (CheckMethodParameters_struct interfaces structs rule []))
    by apply CheckMethodParameters_struct_app.
  eexists. split; [reflexivity|]. by rewrite Horder.
Qed.

Lemma CheckMethodParameters_rule_app a rule violations r :
  r ∈ CheckMethodParameters_rule a (interfaceTable a) (structTable a) violations rule →
  ∃ new, r = violations ++ new ∧ new ≡ₚ parameterViolations a rule.
Proof.
  unfold CheckMethodParameters_rule.
  intros (order & Hr & Horder%elem_of_rangeMap)%elem_of_bind.
  apply (foldM_append _ (λ entry, s ← (map_to_list (Structs entry.2)).*2;
           CheckMethodParameters_struct (interfaceTable a) (structTable a) rule [] s)) in Hr.
  2:{ apply CheckMethodParameters_package_app. }
  destruct Hr as (news & -> & Hnews).
  eexists. split; [reflexivity|].
  rewrite (concat_Forall2_Permutation _ _ _ Hnews).
  unfold parameterViolations. by rewrite Horder.
Qed.

Lemma CheckMethodParameters_rules a rules violations :
  violations ∈ CheckMethodParameters a rules →
  ∃ perRule, violations = concat perRule
    ∧ Forall2 (λ rule new, new ≡ₚ parameterViolations a rule) rules perRule.
Proof.
  unfold CheckMethodParameters.
  intros (order & Hr & Horder%elem_of_rangeMap)%elem_of_bind.
  apply elem_of_bind in Hr as (tables & Hr & Htables).
  apply (registerPackage_tables a) in Htables as ->; [|done]. simpl in Hr.
  apply (foldM_append _ (parameterViolations a)) in Hr.
  - done.
  - intros acc rule r. apply CheckMethodParameters_rule_app.
Qed.

(** ** Parameter classification *)

Lemma isPrimitiveType_pointer T : isPrimitiveType ("*" +:+ T) = false.
Proof.
  unfold isPrimitiveType, index.
  destruct (primitives !! ("*" +:+ T)) as [b|] eqn:E; [|done].
  apply elem_of_list_to_map_2 in E.
  repeat (apply elem_of_cons in E as [E|E]; [discriminate E|]).
  by apply elem_of_nil in E.
Qed.

(** The violations of a parameter are decided by its classification. *)
Lemma CheckMethodParameters_param_classify interfaces structs rule s m violations p :
  CheckMethodParameters_param interfaces structs rule s m violations p
  = match classify interfaces structs rule p with
    | Skipped => violations
    | Classified isInterface isStruct =>
        let paramType :=
          if GoStrings.HasPrefix (Parameter_Type p) "*"
          then GoStrings.drop 1 (Parameter_Type p)
          else Parameter_Type p in
        if ShouldUseInterface rule && negb isInterface
        then violations ++ [structParameterViolation m s paramType]
        else if negb (ShouldUseInterface rule) && negb isStruct
        then violations ++ [interfaceParameterViolation m s paramType]
        else violations
    end.
Proof.
  unfold CheckMethodParameters_param, classify.
  destruct (String.eqb (Parameter_Type p) "" || isPrimitiveType (Parameter_Type p));
    [done|].
  set (paramType := if GoStrings.HasPrefix (Parameter_Type p) "*"
                    then GoStrings.drop 1 (Parameter_Type p) else Parameter_Type p).
  destruct (negb (MatchString (PR_parameterTypePatternRegex rule) paramType)); [done|].
  by destruct (negb (index interfaces paramType) && negb (index structs paramType)).
Qed.

Lemma namedType_inv T :
  namedType T = true →
  String.eqb T "" = false ∧ isPrimitiveType T = false ∧ GoStrings.HasPrefix T "*" = false.
Proof.
  unfold namedType.
  intros [[H1%negb_true_iff H2%negb_true_iff]%andb_true_iff H3%negb_true_iff]%andb_true_iff.
  done.
Qed.

Lemma CheckMethodParameters_param_pointerTo interfaces structs rule s m violations p :
  namedType (Parameter_Type p) = true →
  CheckMethodParameters_param interfaces structs rule s m violations (pointerTo p)
  = CheckMethodParameters_param interfaces structs rule s m violations p.
Proof.
  intros (Hempty & Hprim & Hptr)%namedType_inv.
  unfold CheckMethodParameters_param, pointerTo. simpl Parameter_Type.
  rewrite isPrimitiveType_pointer, Hempty, Hprim, Hptr.
  reflexivity.
Qed.

(** C5, as stated, fails: under a rule that demands interface parameters,
    the parameter of type [*LoggerService] of the only struct is reported,
    the same parameter with type [**LoggerService] is skipped. *)
Lemma pointer_to_pointer_classified_differently :
  classify (interfaceTable (services "*LoggerService")) (structTable (services "*LoggerService"))
     interfaceParameters {| Parameter_Name := "other"; Parameter_Type := "*LoggerService" |}
   = Classified false true
  ∧ classify (interfaceTable (services "*LoggerService")) (structTable (services "*LoggerService"))
       interfaceParameters
       (pointerTo {| Parameter_Name := "other"; Parameter_Type := "*LoggerService" |})
     = Skipped
  ∧ (∀ violations,
       violations ∈ CheckMethodParameters (services "*LoggerService") [interfaceParameters] →
       violations = [structParameterViolation (method "UpdateFrom" [("other", "*LoggerService")] "")
                       (loggerService "*LoggerService") "LoggerService"])
  ∧ (∀ violations,
       violations ∈ CheckMethodParameters (services "**LoggerService") [interfaceParameters] →
       violations = []).
Proof.
  split; [vm_compute; reflexivity|]. split; [vm_compute; reflexivity|]. split.
  - intros violations (perRule & -> & Hper)%CheckMethodParameters_rules.
    inversion Hper as [|? new ? rest Hnew Hrest]; subst. inversion Hrest; subst.
    simpl. rewrite app_nil_r. apply Permutation_singleton_r. rewrite Hnew.
    vm_compute. reflexivity.
  - intros violations (perRule & -> & Hper)%CheckMethodParameters_rules.
    inversion Hper as [|? new ? rest Hnew Hrest]; subst. inversion Hrest; subst.
    simpl. rewrite app_nil_r. apply Permutation_nil_r. rewrite Hnew.
    vm_compute. reflexivity.
Qed.

Lemma classify_pointerTo interfaces structs rule p :
  namedType (Parameter_Type p) = true →
  classify interfaces structs rule (pointerTo p) = classify interfaces structs rule p.
Proof.
  intros (Hempty & Hprim & Hptr)%namedType_inv.
  unfold classify, pointerTo. simpl Parameter_Type.
  rewrite isPrimitiveType_pointer, Hempty, Hprim, Hptr.
  reflexivity.
Qed.

Lemma CheckMethodParameters_param_method_name interfaces structs rule s m m' violations p :
  Method_Name m = Method_Name m' →
  CheckMethodParameters_param interfaces structs rule s m violations p
  = CheckMethodParameters_param interfaces structs rule s m' violations p.
Proof.
  intros Hname. unfold CheckMethodParameters_param, structParameterViolation,
    interfaceParameterViolation. by rewrite Hname.
Qed.

Lemma foldl_pointerTo interfaces structs rule s m params violations :
  Forall (λ p, namedType (Parameter_Type p) = true) params →
  foldl (CheckMethodParameters_param interfaces structs rule s (withPointerParams m))
        violations (map pointerTo params)
  = foldl (CheckMethodParameters_param interfaces structs rule s m) violations params.
Proof.
  intros Hparams. revert violations.
  induction Hparams as [|p params Hp _ IH]; intros violations; simpl; [done|].
  rewrite IH. f_equal.
  rewrite (CheckMethodParameters_param_method_name _ _ _ _ (withPointerParams m) m)
    by done.
  by apply CheckMethodParameters_param_pointerTo.
Qed.

(** C5, amended.  For a type text [T] that is not empty, not the name of a
    built-in scalar and does not itself begin with the indirection marker, a
    parameter of type [*T] is classified as the parameter of type [T] is, and
    adds the same violations under every rule; so does a method all of whose
    parameters are put behind one more marker. *)
Theorem pointer_classified_as_pointee (interfaces structs : gmap string bool)
    (rule : ParameterRule) (s : Struct) (m : Method) (violations : list string) :
  (∀ p, namedType (Parameter_Type p) = true →
     classify interfaces structs rule (pointerTo p) = classify interfaces structs rule p
     ∧ CheckMethodParameters_param interfaces structs rule s m violations (pointerTo p)
       = CheckMethodParameters_param interfaces structs rule s m violations p) ∧
  (Forall (λ p, namedType (Parameter_Type p) = true) (Params m) →
     CheckMethodParameters_method interfaces structs rule s violations (withPointerParams m)
     = CheckMethodParameters_method interfaces structs rule s violations m).
Proof.
  split.
  - intros p Hp. split.
    + by apply classify_pointerTo.
    + by apply CheckMethodParameters_param_pointerTo.
  - intros Hparams. unfold CheckMethodParameters_method. simpl Method_Name.
    destruct (negb (MatchString (PR_methodPatternRegex rule) (Method_Name m))); [done|].
    by apply foldl_pointerTo.
Qed.

(** The parameters [LoggerService] and [*LoggerService] of the example
    service are both looked up as the struct [LoggerService] and reported. *)
Lemma pointer_classified_as_pointee_witness :
  classify (interfaceTable (services "LoggerService")) (structTable (services "LoggerService"))
    interfaceParameters
    (pointerTo {| Parameter_Name := "other"; Parameter_Type := "LoggerService" |})
  = Classified false true
  ∧ CheckMethodParameters_method
      (interfaceTable (services "LoggerService")) (structTable (services "LoggerService"))
      interfaceParameters (loggerService "LoggerService") []
      (withPointerParams (method "UpdateFrom" [("other", "LoggerService")] ""))
    = [structParameterViolation (method "UpdateFrom" [("other", "LoggerService")] "")
         (loggerService "LoggerService") "LoggerService"].
Proof.
  split.
  - rewrite (proj1 (proj1 (pointer_classified_as_pointee
               (interfaceTable (services "LoggerService"))
               (structTable (services "LoggerService")) interfaceParameters
               (loggerService "LoggerService")
               (method "UpdateFrom" [("other", "LoggerService")] "") [])
               {| Parameter_Name := "other"; Parameter_Type := "LoggerService" |} eq_refl)).
    vm_compute. reflexivity.
  - rewrite (proj2 (pointer_classified_as_pointee
               (interfaceTable (services "LoggerService"))
               (structTable (services "LoggerService")) interfaceParameters
               (loggerService "LoggerService")
               (method "UpdateFrom" [("other", "LoggerService")] "") [])).
    + vm_compute. reflexivity.
    + repeat constructor.
Defined.

(** ** The whole-architecture check *)

Lemma foldO_append {A B : Type} (body : list B → A → outcome (list B))
    (f : A → outcome (list B)) :
  (∀ acc x, body acc x = (new ← f x; Returns (acc ++ new))) →
  ∀ l acc, foldO body acc l = (news ← collect f l; Returns (acc ++ news)).
Proof.
  intros Hbody l. induction l as [|x l IH]; intros acc; simpl.
  - by rewrite app_nil_r.
  - rewrite Hbody. destruct (f x) as [new|]; [|done]. simpl.
    rewrite IH. destruct (collect f l) as [rest|]; [|done]. simpl.
    by rewrite app_assoc.
Qed.

Lemma Check_import_app la pkgPath sourceLayer violations importPath :
  Check_import la pkgPath sourceLayer violations importPath
  = (new ← Check_import la pkgPath sourceLayer [] importPath; Returns (violations ++ new)).
Proof.
  unfold Check_import.
  destruct (negb (GoStrings.Contains importPath ".")
            && negb (GoStrings.Contains importPath "/")).
  { simpl. by rewrite app_nil_r. }
  destruct (findTargetLayer (Layers la) 0 importPath) as [[targetLayer|]|]; simpl;
    [|by rewrite app_nil_r|done].
  destruct (sourceLayer.1 =? targetLayer.1)%nat; simpl; [by rewrite app_nil_r|].
  destruct (negb (allowedByRules (rules la) pkgPath importPath)); simpl;
    by rewrite ?app_nil_r.
Qed.

Lemma Check_package_app la violations entry :
  Check_package la violations entry
  = (new ← Check_package la [] entry; Returns (violations ++ new)).
Proof.
  unfold Check_package. destruct entry as [pkgPath pkg].
  destruct (findSourceLayer (Layers la) 0 pkgPath) as [sourceLayer|].
  - rewrite !(foldO_append _ (Check_import la pkgPath sourceLayer []))
      by apply Check_import_app.
    by destruct (collect _ (Imports pkg)).
  - simpl. by rewrite app_nil_r.
Qed.

Lemma sameUpToOrder_refl o : sameUpToOrder o o.
Proof. destruct o; simpl; [reflexivity|exact I]. Qed.

Lemma sameUpToOrder_sym o1 o2 : sameUpToOrder o1 o2 → sameUpToOrder o2 o1.
Proof. destruct o1, o2; simpl; try done. Qed.

Lemma sameUpToOrder_trans o1 o2 o3 :
  sameUpToOrder o1 o2 → sameUpToOrder o2 o3 → sameUpToOrder o1 o3.
Proof. destruct o1, o2, o3; simpl; try done. by intros -> ->. Qed.

Lemma collect_Permutation (f : string * Package → outcome (list string)) l1 l2 :
  l1 ≡ₚ l2 → sameUpToOrder (collect f l1) (collect f l2).
Proof.
  induction 1 as [|x l1 l2 _ IH|x y l|l1 l2 l3 _ IH1 _ IH2]; simpl.
  - done.
  - destruct (f x) as [new|]; simpl; [|done].
    destruct (collect f l1), (collect f l2); simpl in *; try done. by rewrite IH.
  - destruct (f x) as [newx|], (f y) as [newy|]; simpl; try done;
      destruct (collect f l) as [rest|]; simpl; try done.
    rewrite !app_assoc. apply Permutation_app; [|done]. apply Permutation_app_comm.
  - by eapply sameUpToOrder_trans.
Qed.

(** What [Check] returns: the violations of the packages, collected in the
    order in which the package map is visited. *)
Lemma elem_of_Check la arch o :
  o ∈ Check la arch ↔
  ∃ order, order ≡ₚ map_to_list (Packages arch) ∧ o = collect (Check_package la []) order.
Proof.
  unfold Check. rewrite elem_of_bind.
  assert (∀ order, foldO (Check_package la) [] order = collect (Check_package la []) order)
    as Hfold.
  { intros order. rewrite (foldO_append _ (Check_package la [])) by apply Check_package_app.
    by destruct (collect _ order). }
  split.
  - intros (order & Hret%elem_of_ret & Hord%elem_of_rangeMap).
    exists order. split; [done|]. by rewrite Hret, Hfold.
  - intros (order & Hord & ->). exists order. split.
    + apply elem_of_ret. by rewrite Hfold.
    + by apply elem_of_rangeMap.
Qed.

(** ** Determinism up to the order of the violations *)

(** C9, as stated, fails: with two packages that both violate the rule, the
    dependency check can return the two violations in either order. *)
Lemma CheckDependencies_two_orders :
  ∃ violations1 violations2,
    violations1 ∈ CheckDependencies twoImporters [noUtils]
    ∧ violations2 ∈ CheckDependencies twoImporters [noUtils]
    ∧ violations1 ≠ violations2.
Proof.
  exists (CheckDependencies_packages
            [("domain", importsOnly "domain" "domain" [utilsImport]);
             ("application", importsOnly "application" "application" [utilsImport])]
            [noUtils]),
         (CheckDependencies_packages
            [("application", importsOnly "application" "application" [utilsImport]);
             ("domain", importsOnly "domain" "domain" [utilsImport])]
            [noUtils]).
  split; [|split].
  - apply elem_of_bind. eexists. split; [by apply elem_of_ret|].
    apply elem_of_rangeMap. vm_compute. apply perm_swap.
  - apply elem_of_bind. eexists. split; [by apply elem_of_ret|].
    apply elem_of_rangeMap. vm_compute. reflexivity.
  - vm_compute. discriminate.
Qed.

(** C9, amended.  Two runs of the same check on the same architecture and
    rules return the same violations with the same multiplicities, in an
    order that may differ; the whole-architecture check either panics in
    both runs or returns in both.  Every check has an outcome. *)
Theorem checks_agree_up_to_order (a : Architecture)
    (dependencyRules : list DependencyRule)
    (interfaceRules : list InterfaceImplementationRule)
    (parameterRules : list ParameterRule)
    (la : LayeredArchitecture) :
  (∀ violations1 violations2,
     violations1 ∈ CheckDependencies a dependencyRules →
     violations2 ∈ CheckDependencies a dependencyRules →
     violations1 ≡ₚ violations2) ∧
  (∀ violations1 violations2,
     violations1 ∈ CheckStructImplementsInterfaces a interfaceRules →
     violations2 ∈ CheckStructImplementsInterfaces a interfaceRules →
     violations1 ≡ₚ violations2) ∧
  (∀ violations1 violations2,
     violations1 ∈ CheckMethodParameters a parameterRules →
     violations2 ∈ CheckMethodParameters a parameterRules →
     violations1 ≡ₚ violations2) ∧
  (∀ outcome1 outcome2,
     outcome1 ∈ Check la a → outcome2 ∈ Check la a →
     sameUpToOrder outcome1 outcome2) ∧
  ((∃ violations, violations ∈ CheckDependencies a dependencyRules)
   ∧ (∃ violations, violations ∈ CheckStructImplementsInterfaces a interfaceRules)
   ∧ (∃ violations, violations ∈ CheckMethodParameters a parameterRules)
   ∧ (∃ outcome, outcome ∈ Check la a)).
Proof.
  split; [|split; [|split; [|split]]];
    [| | | |repeat split;
            [apply CheckDependencies_returns
            |apply CheckStructImplementsInterfaces_returns
            |apply CheckMethodParameters_returns
            |eexists; apply elem_of_Check; by exists (map_to_list (Packages a))]].
  - intros v1 v2 (o1 & Ho1 & ->)%elem_of_CheckDependencies
                 (o2 & Ho2 & ->)%elem_of_CheckDependencies.
    apply Permutation_map, filter_Permutation_bool, triples_Permutation.
    by rewrite Ho1, Ho2.
  - intros v1 v2 (p1 & -> & Hp1)%CheckStructImplementsInterfaces_rules
                 (p2 & -> & Hp2)%CheckStructImplementsInterfaces_rules.
    by rewrite (concat_Forall2_Permutation _ _ _ Hp1), (concat_Forall2_Permutation _ _ _ Hp2).
  - intros v1 v2 (p1 & -> & Hp1)%CheckMethodParameters_rules
                 (p2 & -> & Hp2)%CheckMethodParameters_rules.
    by rewrite (concat_Forall2_Permutation _ _ _ Hp1), (concat_Forall2_Permutation _ _ _ Hp2).
  - intros o1 o2 (order1 & Ho1 & ->)%elem_of_Check (order2 & Ho2 & ->)%elem_of_Check.
    apply collect_Permutation. by rewrite Ho1, Ho2.
Qed.

(** The two orders of the two example packages give two lists with the same
    two violations. *)
Lemma checks_agree_up_to_order_witness :
  ∃ violations1 violations2 : list string,
    violations1 ≠ violations2 ∧ length violations1 = 2 ∧ violations1 ≡ₚ violations2.
Proof.
  exists (CheckDependencies_packages
            [("domain", importsOnly "domain" "domain" [utilsImport]);
             ("application", importsOnly "application" "application" [utilsImport])]
            [noUtils]),
         (CheckDependencies_packages
            [("application", importsOnly "application" "application" [utilsImport]);
             ("domain", importsOnly "domain" "domain" [utilsImport])]
            [noUtils]).
  split; [vm_compute; discriminate|]. split; [vm_compute; reflexivity|].
  apply (proj1 (checks_agree_up_to_order twoImporters [noUtils] [] []
                  (NewLayeredArchitecture []))).
  - apply elem_of_bind. eexists. split; [by apply elem_of_ret|].
    apply elem_of_rangeMap. vm_compute. apply perm_swap.
  - apply elem_of_bind. eexists. split; [by apply elem_of_ret|].
    apply elem_of_rangeMap. vm_compute. reflexivity.
Defined.

(** ** Scenario A *)

Lemma Check_import_standardLibrary la pkgPath sourceLayer violations importPath :
  standardLibrary importPath = true →
  Check_import la pkgPath sourceLayer violations importPath = Returns violations.
Proof. unfold standardLibrary, Check_import. by intros ->. Qed.

Lemma collect_standardLibrary la pkgPath sourceLayer imports :
  Forall (λ i, standardLibrary i = true) imports →
  collect (Check_import la pkgPath sourceLayer []) imports = Returns [].
Proof.
  induction 1 as [|i imports Hi _ IH]; simpl; [done|].
  by rewrite Check_import_standardLibrary, IH.
Qed.

Lemma collect_app {A B : Type} (f : A → outcome (list B)) l1 l2 :
  collect f (l1 ++ l2)
  = (v1 ← collect f l1; v2 ← collect f l2; Returns (v1 ++ v2)).
Proof.
  induction l1 as [|x l1 IH]; simpl.
  - by destruct (collect f l2).
  - destruct (f x) as [new|]; simpl; [|done]. rewrite IH.
    destruct (collect f l1) as [v1|]; simpl; [|done].
    destruct (collect f l2) as [v2|]; simpl; [|done].
    by rewrite app_assoc.
Qed.

Lemma Check_package_collect la pkgPath pkg :
  Check_package la [] (pkgPath, pkg)
  = match findSourceLayer (Layers la) 0 pkgPath with
    | None => Returns []
    | Some sourceLayer => collect (Check_import la pkgPath sourceLayer []) (Imports pkg)
    end.
Proof.
  unfold Check_package. destruct (findSourceLayer (Layers la) 0 pkgPath) as [src|]; [|done].
  rewrite (foldO_append _ (Check_import la pkgPath src [])) by apply Check_import_app.
  by destruct (collect _ (Imports pkg)).
Qed.

Lemma Check_package_standardLibrary la pkgPath pkg :
  Forall (λ i, standardLibrary i = true) (Imports pkg) →
  Check_package la [] (pkgPath, pkg) = Returns [].
Proof.
  intros H. rewrite Check_package_collect.
  destruct (findSourceLayer (Layers la) 0 pkgPath); [|done].
  by apply collect_standardLibrary.
Qed.

Lemma collect_all_return {A B : Type} (f : A → outcome (list B)) (g : A → list B) l :
  Forall (λ x, f x = Returns (g x)) l → collect f l = Returns (l ≫= g).
Proof.
  induction 1 as [|x l Hx _ IH]; csimpl; [done|]. by rewrite Hx, IH.
Qed.

Lemma bind_all_nil {A B : Type} (g : A → list B) l :
  Forall (λ x, g x = []) l → l ≫= g = [].
Proof. induction 1 as [|x l Hx _ IH]; csimpl; [done|]. by rewrite Hx, IH. Qed.

(** C3, as stated, fails: the declared import [utils] has neither dot nor
    slash and is skipped, so the check returns no violation, with the
    anchored patterns of the repository's tests and with unanchored ones. *)
Lemma Check_bare_utils_import_no_violation :
  NewLayer "Domain" ["^domain$"] = inr (layer "Domain" "^domain$")
  ∧ NewLayer "Utils" ["^utils$"] = inr (layer "Utils" "^utils$")
  ∧ Contains (layer "Domain" "^domain$") "domain" = true
  ∧ Contains (layer "Utils" "^utils$") "utils" = true
  ∧ (∀ o, o ∈ Check domainAndUtils bareUtilsImport ↔ o = Returns [])
  ∧ (∀ o, o ∈ Check domainAndUtilsUnanchored bareUtilsImport ↔ o = Returns []).
Proof.
  repeat split; try (vm_compute; reflexivity).
  - intros (order & Hord & ->)%elem_of_Check.
    unfold bareUtilsImport in Hord. simpl in Hord. rewrite map_to_list_singleton in Hord.
    apply Permutation_singleton_r in Hord as ->. vm_compute. reflexivity.
  - intros ->. apply elem_of_Check. eexists. split; [reflexivity|].
    vm_compute. reflexivity.
  - intros (order & Hord & ->)%elem_of_Check.
    unfold bareUtilsImport in Hord. simpl in Hord. rewrite map_to_list_singleton in Hord.
    apply Permutation_singleton_r in Hord as ->. vm_compute. reflexivity.
  - intros ->. apply elem_of_Check. eexists. split; [reflexivity|].
    vm_compute. reflexivity.
Qed.

(** C3, amended.  With the layers Domain and Utils and no rule, where the
    Domain layer contains the package [domain], the package declares one
    import path with a dot or a slash that belongs to the Utils layer and not
    to the Domain layer, and every other import of the architecture has
    neither dot nor slash, [Check] returns exactly one violation; it names
    the package [domain], the import path and both layers. *)
Theorem Check_scenario_A (domainLayer utilsLayer : Layer) (arch : Architecture)
    (pkg : Package) (importPath : string) (before after : list string) :
  Contains domainLayer "domain" = true →
  Packages arch !! "domain" = Some pkg →
  Imports pkg = before ++ importPath :: after →
  Forall (λ i, standardLibrary i = true) (before ++ after) →
  (∀ pkgPath other, pkgPath ≠ "domain" → Packages arch !! pkgPath = Some other →
     Forall (λ i, standardLibrary i = true) (Imports other)) →
  standardLibrary importPath = false →
  importInLayer domainLayer (patterns domainLayer) importPath = Returns false →
  importInLayer utilsLayer (patterns utilsLayer) importPath = Returns true →
  ∀ o, o ∈ Check {| Layers := [domainLayer; utilsLayer]; rules := [] |} arch ↔
       o = Returns [layerViolation "domain" (Layer_Name domainLayer)
                      importPath (Layer_Name utilsLayer)].
Proof.
  intros Hdomain Hpkg Himports Hstd Hothers Hpath Hnot Hin.
  set (la := {| Layers := [domainLayer; utilsLayer]; rules := [] |}).
  set (v := layerViolation "domain" (Layer_Name domainLayer) importPath (Layer_Name utilsLayer)).
  apply Forall_app in Hstd as [Hbefore Hafter].
  assert (Check_package la [] ("domain", pkg) = Returns [v]) as Hmain.
  { rewrite Check_package_collect. simpl. rewrite Hdomain, Himports, collect_app.
    rewrite (collect_standardLibrary _ _ _ before) by done.
    change (collect ?f (importPath :: after))
      with (new ← f importPath; rest ← collect f after; Returns (new ++ rest)).
    rewrite (collect_standardLibrary _ _ _ after) by done.
    unfold Check_import. fold (standardLibrary importPath). rewrite Hpath. simpl.
    rewrite Hnot. simpl. rewrite Hin. simpl. done. }
  assert (∀ order, order ≡ₚ map_to_list (Packages arch) →
            collect (Check_package la []) order = Returns [v]) as Hall.
  { intros order Hord.
    rewrite (collect_all_return _ (λ e, if decide (e.1 = "domain") then [v] else [])).
    - f_equal. apply Permutation_singleton_r.
      rewrite Hord, <- (map_to_list_delete _ _ _ Hpkg). csimpl.
      rewrite bind_all_nil; [done|].
      apply Forall_forall. intros [pkgPath other] Hel%elem_of_map_to_list.
      apply lookup_delete_Some in Hel as [Hne _]. simpl.
      by rewrite decide_False.
    - apply Forall_forall. intros [pkgPath other] Hel. rewrite Hord in Hel.
      apply elem_of_map_to_list in Hel. cbn [fst].
      destruct (decide (pkgPath = "domain")) as [->|Hne].
      + rewrite Hpkg in Hel. by injection Hel as <-.
      + apply Check_package_standardLibrary. by eapply Hothers. }
  intros o. rewrite elem_of_Check. split.
  - intros (order & Hord & ->). by apply Hall.
  - intros ->. exists (map_to_list (Packages arch)). split; [done|].
    symmetry. by apply Hall.
Qed.

(** The example project: [domain] imports [errors] and the project's
    [utils], [utils] imports the standard library only. *)
Lemma Check_scenario_A_witness :
  Returns [layerViolation "domain" "Domain" utilsImport "Utils"]
    ∈ Check domainAndUtils exampleProject
  ∧ GoStrings.Contains (layerViolation "domain" "Domain" utilsImport "Utils") "domain" = true
  ∧ GoStrings.Contains (layerViolation "domain" "Domain" utilsImport "Utils") "utils" = true.
Proof.
  split; [|split; vm_compute; reflexivity].
  apply (Check_scenario_A (layer "Domain" "^domain$") (layer "Utils" "^utils$")
           exampleProject (importsOnly "domain" "domain" ["errors"; utilsImport])
           utilsImport ["errors"] []).
  - vm_compute. reflexivity.
  - vm_compute. reflexivity.
  - reflexivity.
  - repeat constructor.
  - intros pkgPath other Hne Hlookup. unfold exampleProject in Hlookup. simpl in Hlookup.
    rewrite lookup_insert_ne in Hlookup by done.
    apply lookup_singleton_Some in Hlookup as [_ <-]. repeat constructor.
  - vm_compute. reflexivity.
  - vm_compute. reflexivity.
  - vm_compute. reflexivity.
  - reflexivity.
Defined.

(** ** Layer permissions *)

Lemma AddRule_targets_flat sourcePkg targetPkgs rules :
  AddRule_targets sourcePkg targetPkgs rules
  = addAllowRules (map (λ targetPkg, (sourcePkg, targetPkg)) targetPkgs) rules.
Proof.
  revert rules. induction targetPkgs as [|targetPkg rest IH]; intros rules; simpl; [done|].
  unfold allowRuleFor. simpl.
  destruct (NewDependencyRule _ _ true) as [err|rule]; [done|]. apply IH.
Qed.

Lemma addAllowRules_app pairs1 pairs2 rules :
  addAllowRules (pairs1 ++ pairs2) rules
  = match addAllowRules pairs1 rules with
    | (rules', Some err) => (rules', Some err)
    | (rules', None) => addAllowRules pairs2 rules'
    end.
Proof.
  revert rules. induction pairs1 as [|pp rest IH]; intros rules; simpl; [done|].
  destruct (allowRuleFor pp) as [err|rule]; [done|]. apply IH.
Qed.

Lemma bind_singleton_map {A B : Type} (f : A → B) (l : list A) :
  l ≫= (λ x, [f x]) = map f l.
Proof. induction l as [|x l IH]; csimpl; [done|]. by rewrite IH. Qed.

Lemma AddRule_sources_flat sourcePkgs targetPkgs rules :
  AddRule_sources sourcePkgs targetPkgs rules
  = addAllowRules (sourcePkg ← sourcePkgs; targetPkg ← targetPkgs;
                   [(sourcePkg, targetPkg)]) rules.
Proof.
  revert rules. induction sourcePkgs as [|sourcePkg rest IH]; intros rules; csimpl; [done|].
  rewrite addAllowRules_app, bind_singleton_map, <- AddRule_targets_flat.
  destruct (AddRule_targets sourcePkg targetPkgs rules) as [rules' [err|]]; [done|].
  apply IH.
Qed.

Lemma addAllowRules_all pairs new rules :
  Forall2 (λ pp rule, allowRuleFor pp = inr rule) pairs new →
  addAllowRules pairs rules = (rules ++ new, None).
Proof.
  intros H. revert rules.
  induction H as [|pp rule pairs new Hrule _ IH]; intros rules; simpl.
  - by rewrite app_nil_r.
  - rewrite Hrule, IH. by rewrite <- app_assoc.
Qed.

Lemma addAllowRules_fails done pp rest new err rules :
  Forall2 (λ pp rule, allowRuleFor pp = inr rule) done new →
  allowRuleFor pp = inl err →
  addAllowRules (done ++ pp :: rest) rules = (rules ++ new, Some err).
Proof.
  intros Hdone Herr. rewrite addAllowRules_app, (addAllowRules_all _ _ _ Hdone).
  simpl. by rewrite Herr.
Qed.

Lemma AddRule_found la sourceLayerName targetLayerName sourceLayer targetLayer :
  WhereLayer la sourceLayerName = Some sourceLayer →
  WhereLayer la targetLayerName = Some targetLayer →
  AddRule la sourceLayerName targetLayerName
  = let '(rules', err) := addAllowRules (patternPairs sourceLayer targetLayer) (rules la) in
    ({| Layers := Layers la; rules := rules' |}, err).
Proof.
  intros Hs Ht. unfold AddRule. rewrite Hs, Ht, AddRule_sources_flat. done.
Qed.

Lemma HasSuffix_append_dollar f : GoStrings.HasSuffix (f +:+ "$") "$" = true.
Proof.
  induction f as [|c f IH]; [done|].
  change (String c f +:+ "$") with (String c (f +:+ "$")).
  rewrite HasSuffix_cons, IH. apply orb_true_r.
Qed.

Lemma take_append f g : GoStrings.take (String.length f) (f +:+ g) = f.
Proof.
  induction f as [|c f IH]; simpl; [by destruct g|].
  change (String c (GoStrings.take (String.length f) (f +:+ g)) = String c f).
  by rewrite IH.
Qed.

(** The anchors of [^f$] are stripped. *)
Lemma cleanPattern_anchored f : cleanPattern ("^" +:+ f +:+ "$") = f.
Proof.
  unfold cleanPattern.
  change (GoStrings.TrimPrefix ("^" +:+ f +:+ "$") "^") with (f +:+ "$").
  unfold GoStrings.TrimSuffix. rewrite HasSuffix_append_dollar, length_append.
  replace (String.length f + String.length "$" - String.length "$")
    with (String.length f) by (simpl; lia).
  apply take_append.
Qed.

Lemma AddRule_literal_pattern f :
  plain f = true →
  Compile (endingWith f) = Some (endingWithRegexp f)
  ∧ ∀ path, MatchString (endingWithRegexp f) path = endsInSegment path f.
Proof.
  intros Hf. split; [by apply Compile_endingWith|].
  intros path. apply MatchString_endingWithRegexp.
Qed.

Lemma allowRuleFor_literal pp :
  plain (cleanPattern pp.1) = true → plain (cleanPattern pp.2) = true →
  allowRuleFor pp = inr (literalAllowRule pp).
Proof.
  intros H1 H2. unfold allowRuleFor, NewDependencyRule.
  by rewrite (Compile_endingWith _ H1), (Compile_endingWith _ H2).
Qed.

Lemma patternPairs_literal sourceLayer targetLayer :
  Forall (λ p, plain (cleanPattern p) = true) (Layer_Packages sourceLayer) →
  Forall (λ p, plain (cleanPattern p) = true) (Layer_Packages targetLayer) →
  Forall2 (λ pp rule, allowRuleFor pp = inr rule)
          (patternPairs sourceLayer targetLayer)
          (map literalAllowRule (patternPairs sourceLayer targetLayer)).
Proof.
  intros Hs Ht. apply Forall2_fmap_r, Forall_Forall2_diag, Forall_forall.
  intros [sp tp] Hin. unfold patternPairs in Hin.
  apply list_elem_of_bind in Hin as (sp' & Hin & Hsp).
  apply list_elem_of_bind in Hin as (tp' & Hin & Htp).
  apply list_elem_of_singleton in Hin. injection Hin as -> ->.
  rewrite Forall_forall in Hs. rewrite Forall_forall in Ht.
  apply allowRuleFor_literal; simpl; auto.
Qed.

(** C8, as stated, fails.  With both layer names defined, [AddRule] returns
    an error and appends nothing when a pattern text of the layer does not
    compile after wrapping; and for the layer pattern [application|web],
    which [NewLayer] accepts, the appended rule matches paths that neither
    end in the fragment nor meet it at a path-segment boundary. *)
Lemma AddRule_defined_layers_unexpected :
  WhereLayer (NewLayeredArchitecture [brokenLayer]) "Broken" = Some brokenLayer
  ∧ AddRule (NewLayeredArchitecture [brokenLayer]) "Broken" "Broken"
    = (NewLayeredArchitecture [brokenLayer], Some InvalidSourcePattern)
  ∧ NewLayer "Front" ["application|web"] = inr frontLayer
  ∧ ∃ rule,
      AddRule (NewLayeredArchitecture [frontLayer]) "Front" "Front"
      = ({| Layers := [frontLayer]; rules := [rule] |}, None)
      ∧ SourcePattern rule = "(^|/)application|web$"
      ∧ MatchString (sourcePatternRegex rule) "myweb" = true
      ∧ MatchString (sourcePatternRegex rule) "application/internal" = true.
Proof.
  split; [reflexivity|]. split; [vm_compute; reflexivity|].
  split; [vm_compute; reflexivity|].
  eexists. split; [vm_compute; reflexivity|].
  repeat split; vm_compute; reflexivity.
Qed.

(** C8, amended.  [AddRule] returns an error and leaves the rules unchanged
    when a layer name is not defined.  With both layers found it visits the
    pairs of one source pattern and one target pattern in order and
    constructs for each the allow rule whose patterns are [(^|/)], the layer
    pattern without a leading [^] and a trailing [$], and [$]: when every
    rule is constructed it appends exactly these rules, one per pair, and
    returns no error; when the construction for a pair fails it returns that
    error, having appended the rules of the pairs before.  A pattern [^f$]
    is stripped to [f], and for a fragment [f] of literal bytes the rule is
    constructed and its pattern matches exactly the paths that are [f] or end
    in [/f]; so for layers whose patterns all have literal fragments
    [AddRule] succeeds with one such rule per pair. *)
Theorem AddRule_allow_rule_per_pair (la : LayeredArchitecture)
    (sourceLayerName targetLayerName : string) :
  (WhereLayer la sourceLayerName = None →
     AddRule la sourceLayerName targetLayerName
     = (la, Some (SourceLayerNotFound sourceLayerName))) ∧
  (is_Some (WhereLayer la sourceLayerName) → WhereLayer la targetLayerName = None →
     AddRule la sourceLayerName targetLayerName
     = (la, Some (TargetLayerNotFound targetLayerName))) ∧
  (∀ sourceLayer targetLayer,
     WhereLayer la sourceLayerName = Some sourceLayer →
     WhereLayer la targetLayerName = Some targetLayer →
     (∀ new,
        Forall2 (λ pp rule, allowRuleFor pp = inr rule)
                (patternPairs sourceLayer targetLayer) new →
        AddRule la sourceLayerName targetLayerName
        = ({| Layers := Layers la; rules := rules la ++ new |}, None)
        ∧ length new = length (Layer_Packages sourceLayer) * length (Layer_Packages targetLayer)
        ∧ Forall2 (λ pp rule,
             SourcePattern rule = "(^|/)" +:+ cleanPattern pp.1 +:+ "$"
             ∧ TargetPattern rule = "(^|/)" +:+ cleanPattern pp.2 +:+ "$"
             ∧ AllowedImports rule = true
             ∧ Compile (SourcePattern rule) = Some (sourcePatternRegex rule)
             ∧ Compile (TargetPattern rule) = Some (targetPatternRegex rule))
           (patternPairs sourceLayer targetLayer) new) ∧
     (∀ done pp rest new err,
        patternPairs sourceLayer targetLayer = done ++ pp :: rest →
        Forall2 (λ pp rule, allowRuleFor pp = inr rule) done new →
        allowRuleFor pp = inl err →
        AddRule la sourceLayerName targetLayerName
        = ({| Layers := Layers la; rules := rules la ++ new |}, Some err)) ∧
     (Forall (λ p, plain (cleanPattern p) = true) (Layer_Packages sourceLayer) →
      Forall (λ p, plain (cleanPattern p) = true) (Layer_Packages targetLayer) →
      AddRule la sourceLayerName targetLayerName
      = ({| Layers := Layers la;
            rules := rules la ++ map literalAllowRule
                                     (patternPairs sourceLayer targetLayer) |}, None))) ∧
  (∀ f, cleanPattern ("^" +:+ f +:+ "$") = f) ∧
  (∀ f, plain f = true →
     Compile (endingWith f) = Some (endingWithRegexp f)
     ∧ ∀ path, MatchString (endingWithRegexp f) path = endsInSegment path f).
Proof.
  split; [|split; [|split; [|split]]].
  - intros Hs. unfold AddRule. by rewrite Hs.
  - intros [sourceLayer Hs] Ht. unfold AddRule. by rewrite Hs, Ht.
  - intros sourceLayer targetLayer Hs Ht. split; [|split].
    + intros new Hnew. split; [|split].
      * rewrite (AddRule_found _ _ _ _ _ Hs Ht), (addAllowRules_all _ _ _ Hnew). done.
      * rewrite <- (Forall2_length _ _ _ Hnew). unfold patternPairs.
        generalize (Layer_Packages targetLayer). intros tps.
        induction (Layer_Packages sourceLayer) as [|sp sps IH]; csimpl; [done|].
        rewrite length_app, IH, bind_singleton_map, length_map. done.
      * eapply Forall2_impl; [exact Hnew|].
        intros pp rule Hrule. unfold allowRuleFor, NewDependencyRule in Hrule.
        destruct (Compile (endingWith (cleanPattern pp.1))) as [sre|] eqn:Hsre; [|done].
        destruct (Compile (endingWith (cleanPattern pp.2))) as [tre|] eqn:Htre; [|done].
        injection Hrule as <-. simpl. done.
    + intros done0 pp rest new err Hpairs Hdone Herr.
      rewrite (AddRule_found _ _ _ _ _ Hs Ht), Hpairs,
        (addAllowRules_fails _ _ _ _ _ _ Hdone Herr). done.
    + intros Hsp Htp.
      rewrite (AddRule_found _ _ _ _ _ Hs Ht),
        (addAllowRules_all _ _ _ (patternPairs_literal _ _ Hsp Htp)). done.
  - apply cleanPattern_anchored.
  - apply AddRule_literal_pattern.
Qed.

(** The layers of the repository's tests: the rule from Application to
    Domain is appended, with patterns that match nested import paths; an
    undefined layer is an error. *)
Lemma AddRule_allow_rule_per_pair_witness :
  AddRule (NewLayeredArchitecture [layer "Domain" "^domain$"; layer "Application" "^application$"])
          "Application" "Domain"
  = ({| Layers := [layer "Domain" "^domain$"; layer "Application" "^application$"];
        rules := [{| SourcePattern := "(^|/)application$"; TargetPattern := "(^|/)domain$";
                     AllowedImports := true;
                     sourcePatternRegex := endingWithRegexp "application";
                     targetPatternRegex := endingWithRegexp "domain" |}] |}, None)
  ∧ AddRule (NewLayeredArchitecture [layer "Domain" "^domain$"]) "Application" "Domain"
    = (NewLayeredArchitecture [layer "Domain" "^domain$"],
       Some (SourceLayerNotFound "Application"))
  ∧ AddRule (NewLayeredArchitecture [layer "Domain" "^domain$"]) "Domain" "Utils"
    = (NewLayeredArchitecture [layer "Domain" "^domain$"],
       Some (TargetLayerNotFound "Utils"))
  ∧ MatchString (endingWithRegexp "domain") "github.com/acme/shop/domain" = true
  ∧ MatchString (endingWithRegexp "domain") "github.com/acme/shop/subdomain" = false.
Proof.
  split; [|split; [|split; [|split]]].
  - destruct (AddRule_allow_rule_per_pair
      (NewLayeredArchitecture [layer "Domain" "^domain$"; layer "Application" "^application$"])
      "Application" "Domain") as (_ & _ & Hfound & _).
    destruct (Hfound (layer "Application" "^application$") (layer "Domain" "^domain$")
                eq_refl eq_refl) as [Hall _].
    destruct (Hall [{| SourcePattern := "(^|/)application$"; TargetPattern := "(^|/)domain$";
                       AllowedImports := true;
                       sourcePatternRegex := endingWithRegexp "application";
                       targetPatternRegex := endingWithRegexp "domain" |}]) as [Heq _].
    + repeat constructor.
    + exact Heq.
  - apply (proj1 (AddRule_allow_rule_per_pair
      (NewLayeredArchitecture [layer "Domain" "^domain$"]) "Application" "Domain")).
    reflexivity.
  - apply (proj1 (proj2 (AddRule_allow_rule_per_pair
      (NewLayeredArchitecture [layer "Domain" "^domain$"]) "Domain" "Utils"))).
    + by eexists.
    + reflexivity.
  - rewrite (proj2 (proj2 (proj2 (proj2 (proj2 (AddRule_allow_rule_per_pair
      (NewLayeredArchitecture []) "" "")))) "domain" eq_refl)).
    reflexivity.
  - rewrite (proj2 (proj2 (proj2 (proj2 (proj2 (AddRule_allow_rule_per_pair
      (NewLayeredArchitecture []) "" "")))) "domain" eq_refl)).
    reflexivity.
Defined.

(** * Further properties of the code *)

(** ** Layers *)

Lemma compilePatterns_inr packages acc patterns :
  compilePatterns packages acc = inr patterns ↔
  ∃ new, patterns = acc ++ new ∧ Forall2 (λ pkg re, Compile pkg = Some re) packages new.
Proof.
  revert acc. induction packages as [|pkg rest IH]; intros acc; simpl.
  - split.
    + intros [= <-]. exists []. split; [by rewrite app_nil_r|constructor].
    + intros (new & -> & Hnew). inversion Hnew. by rewrite app_nil_r.
  - destruct (Compile pkg) as [re|] eqn:Hre.
    + rewrite IH. split.
      * intros (new & -> & Hnew). exists (re :: new).
        split; [by rewrite <- app_assoc|by constructor].
      * intros (new & -> & Hnew). inversion Hnew as [|? re' ? new' Hre' Hrest]; subst.
        rewrite Hre in Hre'. injection Hre' as <-.
        exists new'. split; [by rewrite <- app_assoc|done].
    + split; [done|]. intros (new & _ & Hnew).
      inversion Hnew as [|? re' ? new' Hre' Hrest]; subst. congruence.
Qed.

Lemma compilePatterns_inl packages acc e :
  compilePatterns packages acc = inl e ↔
  ∃ before pkg after, packages = before ++ pkg :: after
    ∧ Forall (λ p, is_Some (Compile p)) before
    ∧ Compile pkg = None ∧ e = InvalidPackagePattern pkg.
Proof.
  revert acc. induction packages as [|pkg rest IH]; intros acc; simpl.
  - split; [done|]. intros (before & pkg & after & H & _). by destruct before.
  - destruct (Compile pkg) as [re|] eqn:Hre.
    + rewrite IH. split.
      * intros (before & p & after & -> & Hbefore & Hp & ->).
        exists (pkg :: before), p, after. repeat split; try done.
        constructor; [by rewrite Hre|done].
      * intros (before & p & after & Heq & Hbefore & Hp & ->).
        destruct before as [|b before]; simpl in Heq; injection Heq as -> ->.
        { congruence. }
        apply Forall_cons in Hbefore as [_ Hbefore].
        by exists before, p, after.
    + split.
      * intros [= <-]. exists [], pkg, rest. repeat split; try done.
      * intros (before & p & after & Heq & Hbefore & Hp & ->).
        destruct before as [|b before]; simpl in Heq; injection Heq as -> ->; [done|].
        apply Forall_cons in Hbefore as [[? Hb] _]. congruence.
Qed.

(** X1. [NewLayer] succeeds exactly when every pattern compiles; the layer
    then holds the name, the pattern texts, and for every text its compiled
    pattern at the same position.  It fails with the first pattern that does
    not compile. *)
Theorem NewLayer_compiles_every_pattern (name : string) (packages : list string) :
  (∀ l, NewLayer name packages = inr l ↔
     Layer_Name l = name ∧ Layer_Packages l = packages
     ∧ Forall2 (λ pkg re, Compile pkg = Some re) packages (patterns l)) ∧
  (∀ e, NewLayer name packages = inl e ↔
     ∃ before pkg after, packages = before ++ pkg :: after
       ∧ Forall (λ p, is_Some (Compile p)) before
       ∧ Compile pkg = None ∧ e = InvalidPackagePattern pkg) ∧
  (Forall (λ p, is_Some (Compile p)) packages ↔ ∃ l, NewLayer name packages = inr l).
Proof.
  assert (Hok : ∀ l, NewLayer name packages = inr l ↔
     Layer_Name l = name ∧ Layer_Packages l = packages
     ∧ Forall2 (λ pkg re, Compile pkg = Some re) packages (patterns l)).
  { intros l. unfold NewLayer.
    destruct (compilePatterns packages []) as [e|pats] eqn:Hc.
    - split; [done|]. intros (_ & _ & Hall).
      assert (compilePatterns packages [] = inr (patterns l)) as Hc'
        by (apply compilePatterns_inr; by exists (patterns l)).
      congruence.
    - apply compilePatterns_inr in Hc as (new & -> & Hnew). simpl. split.
      + by intros [= <-].
      + intros (Hn & Hp & Hall). destruct l as [n p pats]. simpl in *. subst.
        do 2 f_equal. clear -Hnew Hall. revert pats Hall.
        induction Hnew as [|pkg re packages new Hre _ IH]; intros pats Hall;
          inversion Hall as [|? re' ? pats' Hre' Hrest]; subst; [done|].
        rewrite Hre in Hre'. injection Hre' as <-. f_equal. by apply IH. }
  split; [exact Hok|split].
  - intros e. unfold NewLayer.
    destruct (compilePatterns packages []) as [e'|pats] eqn:Hc.
    + rewrite <- compilePatterns_inl, Hc. split; congruence.
    + split; [done|]. intros H. apply (compilePatterns_inl _ []) in H. congruence.
  - split.
    + intros Hall. unfold NewLayer.
      destruct (compilePatterns packages []) as [e|pats] eqn:Hc; [|by eexists].
      apply compilePatterns_inl in Hc as (before & pkg & after & -> & _ & Hpkg & _).
      apply Forall_app in Hall as [_ Hall]. apply Forall_cons in Hall as [[? H] _].
      congruence.
    + intros (l & (_ & _ & Hall)%Hok).
      apply Forall_forall. intros pkg Hin.
      apply list_elem_of_lookup in Hin as (i & Hi).
      destruct (Forall2_lookup_l _ _ _ _ _ Hall Hi) as (re & _ & Hre). by rewrite Hre.
Qed.

(** The layer of the patterns [^domain$] and [internal/.*]; a layer whose
    second pattern is [[invalid] is refused with that pattern. *)
Lemma NewLayer_compiles_every_pattern_witness :
  (∃ l, NewLayer "Domain" ["^domain$"; "internal/.*"] = inr l)
  ∧ NewLayer "Domain" ["^domain$"; "[invalid"; "("] = inl (InvalidPackagePattern "[invalid").
Proof.
  split.
  - apply (proj2 (proj2 (NewLayer_compiles_every_pattern "Domain" ["^domain$"; "internal/.*"]))).
    repeat constructor; by eexists.
  - apply (proj1 (proj2 (NewLayer_compiles_every_pattern "Domain" ["^domain$"; "[invalid"; "("]))).
    exists ["^domain$"], "[invalid", ["("]. repeat split; try reflexivity.
    repeat constructor. by eexists.
Defined.

(** X2. [WhereLayer] returns the first layer of the list that has the name,
    so a later layer with the same name is never returned, and it returns
    nothing exactly when no layer has the name. *)
Theorem WhereLayer_first_match (la : LayeredArchitecture) (name : string) :
  (∀ l, WhereLayer la name = Some l ↔
     ∃ before after, Layers la = before ++ l :: after
       ∧ Layer_Name l = name
       ∧ Forall (λ other, Layer_Name other ≠ name) before) ∧
  (WhereLayer la name = None ↔ Forall (λ other, Layer_Name other ≠ name) (Layers la)).
Proof.
  unfold WhereLayer. generalize (Layers la). intros layers.
  induction layers as [|layer rest [IHsome IHnone]]; simpl.
  - split; [|done]. intros l. split; [done|].
    intros (before & after & H & _). by destruct before.
  - destruct (String.eqb_spec (Layer_Name layer) name) as [Heq|Hne].
    + split.
      * intros l. split.
        -- intros [= <-]. exists [], rest. by repeat split.
        -- intros (before & after & H & Hname & Hbefore).
           destruct before as [|b before]; simpl in H; injection H as -> ->; [done|].
           by apply Forall_cons in Hbefore as [? _].
      * split; [done|]. by intros [? _]%Forall_cons.
    + split.
      * intros l. rewrite IHsome. split.
        -- intros (before & after & -> & Hname & Hbefore).
           exists (layer :: before), after. repeat split; try done. by constructor.
        -- intros (before & after & H & Hname & Hbefore).
           destruct before as [|b before]; simpl in H; injection H as -> ->; [done|].
           apply Forall_cons in Hbefore as [_ Hbefore]. by exists before, after.
      * rewrite IHnone. split; [by constructor|by intros [_ ?]%Forall_cons].
Qed.

(** ** The layered check and its rules *)

Lemma allowedByRules_existsb rules pkgPath importPath :
  allowedByRules rules pkgPath importPath = existsb (allows pkgPath importPath) rules.
Proof.
  induction rules as [|rule rest IH]; [done|]. simpl. rewrite IH. unfold allows.
  by destruct (MatchString (sourcePatternRegex rule) pkgPath
               && MatchString (targetPatternRegex rule) importPath && AllowedImports rule).
Qed.

Lemma allowedByRules_app rules1 rules2 pkgPath importPath :
  allowedByRules (rules1 ++ rules2) pkgPath importPath
  = allowedByRules rules1 pkgPath importPath || allowedByRules rules2 pkgPath importPath.
Proof. by rewrite !allowedByRules_existsb, existsb_app. Qed.

Lemma allowedByRules_filter rules pkgPath importPath :
  allowedByRules (List.filter AllowedImports rules) pkgPath importPath
  = allowedByRules rules pkgPath importPath.
Proof.
  rewrite !allowedByRules_existsb.
  induction rules as [|rule rest IH]; [done|]. simpl.
  destruct (AllowedImports rule) eqn:Hallowed; simpl; rewrite IH; [done|].
  unfold allows. by rewrite Hallowed, andb_false_r.
Qed.

Lemma Check_import_ext la la' pkgPath sourceLayer violations importPath :
  Layers la' = Layers la →
  allowedByRules (rules la') pkgPath importPath = allowedByRules (rules la) pkgPath importPath →
  Check_import la' pkgPath sourceLayer violations importPath
  = Check_import la pkgPath sourceLayer violations importPath.
Proof. unfold Check_import. by intros -> ->. Qed.

Lemma collect_ext {A B : Type} (f g : A → outcome (list B)) l :
  Forall (λ x, f x = g x) l → collect f l = collect g l.
Proof. induction 1 as [|x l Hx _ IH]; [done|]. simpl. by rewrite Hx, IH. Qed.

Lemma Check_package_ext la la' entry :
  Layers la' = Layers la →
  (∀ importPath, allowedByRules (rules la') entry.1 importPath
                 = allowedByRules (rules la) entry.1 importPath) →
  Check_package la' [] entry = Check_package la [] entry.
Proof.
  destruct entry as [pkgPath pkg]. intros Hlayers Hallowed.
  rewrite !Check_package_collect, Hlayers.
  destruct (findSourceLayer (Layers la) 0 pkgPath) as [sourceLayer|]; [|done].
  apply collect_ext, Forall_forall. intros importPath _.
  by apply Check_import_ext.
Qed.

Lemma Check_ext la la' arch o :
  Layers la' = Layers la →
  (∀ pkgPath importPath, allowedByRules (rules la') pkgPath importPath
                         = allowedByRules (rules la) pkgPath importPath) →
  o ∈ Check la' arch ↔ o ∈ Check la arch.
Proof.
  intros Hlayers Hallowed. rewrite !elem_of_Check.
  assert (∀ order, collect (Check_package la' []) order = collect (Check_package la []) order)
    as Heq.
  { intros order. apply collect_ext, Forall_forall. intros entry _.
    by apply Check_package_ext. }
  split; intros (order & Hord & ->); exists order; by rewrite Heq.
Qed.

(** X3. [Check] reads the rules only through the allow rules: the outcomes
    are those of the architecture with every disallow rule removed, so a
    disallow rule in the rule list never causes and never suppresses a
    violation. *)
Theorem Check_ignores_disallow_rules (la : LayeredArchitecture) (arch : Architecture)
    (o : outcome (list string)) :
  o ∈ Check la arch ↔
  o ∈ Check {| Layers := Layers la; rules := List.filter AllowedImports (rules la) |} arch.
Proof.
  symmetry. apply Check_ext; [done|].
  intros pkgPath importPath. simpl. apply allowedByRules_filter.
Qed.

(** X4. A rule made by [DoesNotDependOnLayer] and added with
    [AddDependencyConstraint] does not change what [Check] reports. *)
Theorem Check_ignores_DoesNotDependOnLayer (la : LayeredArchitecture) (arch : Architecture)
    (l : Layer) (bound : option Architecture) (targetLayer : option Layer)
    (rule : DependencyRule) (o : outcome (list string)) :
  DoesNotDependOnLayer l bound targetLayer = inr rule →
  o ∈ Check (AddDependencyConstraint la rule) arch ↔ o ∈ Check la arch.
Proof.
  intros Hrule. apply Check_ext; [done|].
  intros pkgPath importPath. simpl.
  rewrite allowedByRules_app. simpl.
  assert (AllowedImports rule = false) as ->; [|by rewrite !andb_false_r, orb_false_r].
  unfold DoesNotDependOnLayer in Hrule.
  destruct bound; [|done]. destruct targetLayer as [t|]; [|done].
  unfold NewDependencyRule in Hrule.
  destruct (Compile (endingWithAny (Layer_Packages l))); [|done].
  destruct (Compile (endingWithAny (Layer_Packages t))); [|done].
  by injection Hrule as <-.
Qed.

(** The example project with the layers [Domain] and [Utils]: the rule
    that [Domain] does not depend on [Utils] leaves the one violation of
    the check as it is. *)
Lemma Check_ignores_DoesNotDependOnLayer_witness :
  ∃ rule,
    DoesNotDependOnLayer (layer "Domain" "^domain$") (Some exampleProject)
                         (Some (layer "Utils" "^utils$")) = inr rule
    ∧ (Returns [layerViolation "domain" "Domain" utilsImport "Utils"]
         ∈ Check (AddDependencyConstraint domainAndUtils rule) exampleProject
       ↔ Returns [layerViolation "domain" "Domain" utilsImport "Utils"]
         ∈ Check domainAndUtils exampleProject).
Proof.
  eexists. split; [vm_compute; reflexivity|].
  eapply (Check_ignores_DoesNotDependOnLayer domainAndUtils exampleProject
            (layer "Domain" "^domain$") (Some exampleProject)
            (Some (layer "Utils" "^utils$"))).
  vm_compute. reflexivity.
Defined.

(** *** More allow rules, fewer violations *)

Lemma fewerViolations_refl o : fewerViolations o o.
Proof. destruct o; simpl; [reflexivity|done]. Qed.

Lemma collect_fewer {A : Type} (f' f : A → outcome (list string)) l :
  Forall (λ x, fewerViolations (f' x) (f x)) l →
  fewerViolations (collect f' l) (collect f l).
Proof.
  induction 1 as [|x l Hx _ IH]; [apply fewerViolations_refl|]. simpl.
  destruct (f' x) as [v'|], (f x) as [v|]; try done. simpl.
  destruct (collect f' l) as [w'|], (collect f l) as [w|]; try done. simpl.
  by apply sublist_app.
Qed.

Lemma Check_import_fewer la la' pkgPath sourceLayer importPath :
  Layers la' = Layers la →
  (allowedByRules (rules la) pkgPath importPath = true →
   allowedByRules (rules la') pkgPath importPath = true) →
  fewerViolations (Check_import la' pkgPath sourceLayer [] importPath)
                  (Check_import la pkgPath sourceLayer [] importPath).
Proof.
  intros Hlayers Hallowed. unfold Check_import. rewrite Hlayers.
  destruct (negb _ && negb _); [apply fewerViolations_refl|].
  destruct (findTargetLayer (Layers la) 0 importPath) as [[targetLayer|]|];
    try apply fewerViolations_refl.
  simpl. destruct (sourceLayer.1 =? targetLayer.1)%nat; [apply fewerViolations_refl|].
  destruct (allowedByRules (rules la) pkgPath importPath).
  - rewrite Hallowed by done. apply fewerViolations_refl.
  - destruct (allowedByRules (rules la') pkgPath importPath); simpl;
      [apply sublist_nil_l|reflexivity].
Qed.

Lemma Check_fewer la la' arch o' :
  Layers la' = Layers la →
  (∀ pkgPath importPath, allowedByRules (rules la) pkgPath importPath = true →
                         allowedByRules (rules la') pkgPath importPath = true) →
  o' ∈ Check la' arch →
  ∃ o, o ∈ Check la arch ∧ fewerViolations o' o.
Proof.
  intros Hlayers Hallowed (order & Hord & ->)%elem_of_Check.
  exists (collect (Check_package la []) order). split.
  - apply elem_of_Check. by exists order.
  - apply collect_fewer, Forall_forall. intros [pkgPath pkg] _.
    rewrite !Check_package_collect, Hlayers.
    destruct (findSourceLayer (Layers la) 0 pkgPath) as [sourceLayer|];
      [|apply fewerViolations_refl].
    apply collect_fewer, Forall_forall. intros importPath _.
    apply Check_import_fewer; [done|apply Hallowed].
Qed.

Lemma addAllowRules_prefix pairs rules :
  ∃ new, (addAllowRules pairs rules).1 = rules ++ new.
Proof.
  revert rules. induction pairs as [|pp rest IH]; intros rules; simpl.
  - exists []. by rewrite app_nil_r.
  - destruct (allowRuleFor pp) as [err|rule].
    + exists []. by rewrite app_nil_r.
    + destruct (IH (rules ++ [rule])) as [new ->]. exists (rule :: new).
      by rewrite <- app_assoc.
Qed.

Lemma AddRule_keeps la sourceLayerName targetLayerName :
  Layers (AddRule la sourceLayerName targetLayerName).1 = Layers la
  ∧ ∃ new, rules (AddRule la sourceLayerName targetLayerName).1 = rules la ++ new.
Proof.
  unfold AddRule.
  destruct (WhereLayer la sourceLayerName) as [sourceLayer|];
    [|split; [done|exists []; by rewrite app_nil_r]].
  destruct (WhereLayer la targetLayerName) as [targetLayer|];
    [|split; [done|exists []; by rewrite app_nil_r]].
  rewrite AddRule_sources_flat.
  destruct (addAllowRules_prefix
              (sourcePkg ← Layer_Packages sourceLayer;
               targetPkg ← Layer_Packages targetLayer; [(sourcePkg, targetPkg)])
              (rules la)) as [new Hnew].
  destruct (addAllowRules _ (rules la)) as [rules' err]. simpl in *. eauto.
Qed.

(** X5. [AddRule] never adds a violation: whether it succeeds or fails, and
    whatever it appended before failing, every outcome of [Check] afterwards
    reports a sublist of an outcome of [Check] before (or both panic). *)
Theorem AddRule_never_adds_violations (la : LayeredArchitecture)
    (sourceLayerName targetLayerName : string) (arch : Architecture)
    (o' : outcome (list string)) :
  o' ∈ Check (AddRule la sourceLayerName targetLayerName).1 arch →
  ∃ o, o ∈ Check la arch ∧ fewerViolations o' o.
Proof.
  destruct (AddRule_keeps la sourceLayerName targetLayerName) as [Hlayers [new Hrules]].
  apply Check_fewer; [done|].
  intros pkgPath importPath H. by rewrite Hrules, allowedByRules_app, H.
Qed.

(** The example project: after [AddRule "Domain" "Utils"] the check
    reports nothing, before it reports the import of [utils]. *)
Lemma AddRule_never_adds_violations_witness :
  ∃ o, o ∈ Check domainAndUtils exampleProject ∧ fewerViolations (Returns []) o.
Proof.
  apply (AddRule_never_adds_violations domainAndUtils "Domain" "Utils" exampleProject).
  apply elem_of_Check. exists (map_to_list (Packages exampleProject)).
  split; [done|]. vm_compute. reflexivity.
Defined.

(** *** What the layered check reports *)

Lemma findSourceLayer_Some layers idx pkgPath r :
  findSourceLayer layers idx pkgPath = Some r ↔
  ∃ i, r.1 = idx + i ∧ firstLayer (λ l, Returns (Contains l pkgPath)) layers i r.2.
Proof.
  revert idx. induction layers as [|layer rest IH]; intros idx; simpl.
  - split; [done|]. by intros (i & _ & H & _).
  - destruct (Contains layer pkgPath) eqn:Hc.
    + split.
      * intros [= <-]. exists 0. split; [simpl; lia|].
        split; [done|]. split; [simpl; by rewrite Hc|]. intros; lia.
      * intros (i & Hi & Hl & _ & Hfirst). destruct i as [|i].
        -- simpl in Hl. destruct r as [n l]. simpl in *. injection Hl as <-.
           f_equal. f_equal. lia.
        -- specialize (Hfirst 0 layer ltac:(lia) eq_refl). congruence.
    + rewrite IH. split.
      * intros (i & Hi & Hl & Ht & Hfirst). exists (S i). split; [lia|].
        split; [done|]. split; [done|].
        intros [|j] l' Hj Hl'; simpl in Hl'.
        -- injection Hl' as <-. by rewrite Hc.
        -- apply (Hfirst j); [lia|done].
      * intros (i & Hi & Hl & Ht & Hfirst). destruct i as [|i].
        -- simpl in Hl. injection Hl as ->. congruence.
        -- exists i. split; [lia|]. split; [done|]. split; [done|].
           intros j l' Hj Hl'. apply (Hfirst (S j)); [lia|done].
Qed.

Lemma findSourceLayer_None layers idx pkgPath :
  findSourceLayer layers idx pkgPath = None ↔
  Forall (λ l, Contains l pkgPath = false) layers.
Proof.
  revert idx. induction layers as [|layer rest IH]; intros idx; simpl; [done|].
  destruct (Contains layer pkgPath) eqn:Hc.
  - split; [done|]. intros [? _]%Forall_cons. congruence.
  - rewrite IH. split; [by constructor|by intros [_ ?]%Forall_cons].
Qed.

Lemma findTargetLayer_Some layers idx importPath r :
  findTargetLayer layers idx importPath = Returns (Some r) ↔
  ∃ i, r.1 = idx + i
       ∧ firstLayer (λ l, importInLayer l (patterns l) importPath) layers i r.2.
Proof.
  revert idx. induction layers as [|layer rest IH]; intros idx; simpl.
  - split; [done|]. by intros (i & _ & H & _).
  - destruct (importInLayer layer (patterns layer) importPath) as [[|]|] eqn:Hc; simpl.
    + split.
      * intros [= <-]. exists 0. split; [simpl; lia|].
        split; [done|]. split; [done|]. intros; lia.
      * intros (i & Hi & Hl & _ & Hfirst). destruct i as [|i].
        -- simpl in Hl. destruct r as [n l]. simpl in *. injection Hl as <-.
           f_equal. f_equal. f_equal. lia.
        -- specialize (Hfirst 0 layer ltac:(lia) eq_refl). congruence.
    + rewrite IH. split.
      * intros (i & Hi & Hl & Ht & Hfirst). exists (S i). split; [lia|].
        split; [done|]. split; [done|].
        intros [|j] l' Hj Hl'; simpl in Hl'.
        -- by injection Hl' as <-.
        -- apply (Hfirst j); [lia|done].
      * intros (i & Hi & Hl & Ht & Hfirst). destruct i as [|i].
        -- simpl in Hl. injection Hl as ->. congruence.
        -- exists i. split; [lia|]. split; [done|]. split; [done|].
           intros j l' Hj Hl'. apply (Hfirst (S j)); [lia|done].
    + split; [done|]. intros (i & Hi & Hl & Ht & Hfirst). destruct i as [|i].
      * simpl in Hl. injection Hl as ->. congruence.
      * specialize (Hfirst 0 layer ltac:(lia) eq_refl). congruence.
Qed.

Lemma collect_Returns_elem {A B : Type} (f : A → outcome (list B)) l vs v :
  collect f l = Returns vs →
  v ∈ vs ↔ ∃ x new, x ∈ l ∧ f x = Returns new ∧ v ∈ new.
Proof.
  revert vs. induction l as [|x l IH]; intros vs; simpl.
  - intros [= <-]. split; [by intros ?%elem_of_nil|].
    by intros (? & ? & ?%elem_of_nil & _).
  - destruct (f x) as [new|] eqn:Hx; [|done]. simpl.
    destruct (collect f l) as [rest|]; [|done]. simpl.
    intros [= <-]. rewrite elem_of_app, (IH rest eq_refl). split.
    + intros [Hv|(y & new' & Hy & Hfy & Hv)].
      * exists x, new. split; [by left|done].
      * exists y, new'. split; [by right|done].
    + intros (y & new' & [->|Hy]%elem_of_cons & Hfy & Hv).
      * left. congruence.
      * right. by exists y, new'.
Qed.

Lemma Check_import_Returns_elem la pkgPath sourceLayer importPath new v :
  Check_import la pkgPath sourceLayer [] importPath = Returns new →
  v ∈ new ↔
  standardLibrary importPath = false
  ∧ ∃ ti targetLayer, targetLayerOf la importPath ti targetLayer
      ∧ sourceLayer.1 ≠ ti
      ∧ allowedByRules (rules la) pkgPath importPath = false
      ∧ v = layerViolation pkgPath (Layer_Name sourceLayer.2)
                           importPath (Layer_Name targetLayer).
Proof.
  unfold Check_import. fold (standardLibrary importPath).
  destruct (standardLibrary importPath).
  { intros [= <-]. split; [by intros ?%elem_of_nil|by intros [? _]]. }
  destruct (findTargetLayer (Layers la) 0 importPath) as [[target|]|] eqn:Ht; [| |done].
  - apply findTargetLayer_Some in Ht as (ti & Hti & Htarget). simpl in Hti.
    simpl. destruct (Nat.eqb_spec sourceLayer.1 target.1) as [Heq|Hne].
    + intros [= <-]. split; [by intros ?%elem_of_nil|].
      intros (_ & ti' & t' & Ht' & Hne & _).
      assert (ti' = ti); [|congruence].
      destruct Htarget as (Hl & Hin & Hfirst), Ht' as (Hl' & Hin' & Hfirst').
      destruct (Nat.lt_trichotomy ti' ti) as [Hlt|[?|Hlt]]; [|done|].
      * specialize (Hfirst _ _ Hlt Hl'). congruence.
      * specialize (Hfirst' _ _ Hlt Hl). congruence.
    + destruct (allowedByRules (rules la) pkgPath importPath); simpl.
      * intros [= <-]. split; [by intros ?%elem_of_nil|].
        by intros (_ & ? & ? & _ & _ & ? & _).
      * intros [= <-]. rewrite list_elem_of_singleton. split.
        -- intros ->. split; [done|]. exists ti, target.2. repeat split; try done.
           all: try apply Htarget. congruence.
        -- intros (_ & ti' & t' & Ht' & _ & _ & ->).
           assert (ti' = ti ∧ t' = target.2) as [-> ->]; [|done].
           destruct Htarget as (Hl & Hin & Hfirst), Ht' as (Hl' & Hin' & Hfirst').
           destruct (Nat.lt_trichotomy ti' ti) as [Hlt|[->|Hlt]].
           ++ specialize (Hfirst _ _ Hlt Hl'). congruence.
           ++ split; [done|]. congruence.
           ++ specialize (Hfirst' _ _ Hlt Hl). congruence.
  - intros [= <-]. split; [by intros ?%elem_of_nil|].
    intros (_ & ti & t & Ht' & _).
    assert (findTargetLayer (Layers la) 0 importPath = Returns (Some (ti, t))) as H.
    { apply findTargetLayer_Some. by exists ti. }
    congruence.
Qed.

Lemma Check_violation_iff la arch vs v :
  Returns vs ∈ Check la arch → v ∈ vs ↔ crossLayerImport la arch v.
Proof.
  intros (order & Hord & Hvs)%elem_of_Check. symmetry in Hvs.
  rewrite (collect_Returns_elem _ _ _ v Hvs). split.
  - intros ([pkgPath pkg] & new & Hin & Hnew & Hv).
    rewrite Hord in Hin. apply elem_of_map_to_list in Hin.
    rewrite Check_package_collect in Hnew.
    destruct (findSourceLayer (Layers la) 0 pkgPath) as [sourceLayer|] eqn:Hs;
      [|injection Hnew as <-; by apply elem_of_nil in Hv].
    apply findSourceLayer_Some in Hs as (si & Hsi & Hsource). simpl in Hsi.
    apply (collect_Returns_elem _ _ _ v Hnew) in Hv as (importPath & new' & Hi & Hnew' & Hv).
    apply (Check_import_Returns_elem _ _ _ _ _ v Hnew') in Hv
      as (Hstd & ti & targetLayer & Ht & Hne & Hallowed & ->).
    exists pkgPath, pkg, importPath, si, sourceLayer.2, ti, targetLayer.
    repeat split; try done; try apply Hsource; try apply Ht. congruence.
  - intros (pkgPath & pkg & importPath & si & sourceLayer & ti & targetLayer
            & Hpkg & Hi & Hstd & Hs & Ht & Hne & Hallowed & ->).
    assert ((pkgPath, pkg) ∈ order) as Hin
      by (rewrite Hord; by apply elem_of_map_to_list).
    assert (∃ new, Check_package la [] (pkgPath, pkg) = Returns new) as [new Hnew].
    { clear -Hvs Hin. revert vs Hvs. induction order as [|x order IH]; intros vs Hvs.
      - by apply elem_of_nil in Hin.
      - simpl in Hvs. destruct (Check_package la [] x) as [new|] eqn:Hx; [|done].
        simpl in Hvs. destruct (collect (Check_package la []) order) as [rest|]; [|done].
        apply elem_of_cons in Hin as [->|Hin]; [by exists new|].
        by apply (IH Hin rest). }
    exists (pkgPath, pkg), new. split; [done|]. split; [done|].
    rewrite Check_package_collect in Hnew.
    assert (findSourceLayer (Layers la) 0 pkgPath = Some (si, sourceLayer)) as Hfind.
    { apply findSourceLayer_Some. by exists si. }
    rewrite Hfind in Hnew.
    assert (∃ new', Check_import la pkgPath (si, sourceLayer) [] importPath = Returns new')
      as [new' Hnew'].
    { clear -Hnew Hi. revert new Hnew.
      induction (Imports pkg) as [|x imports IH]; intros new Hnew.
      - by apply elem_of_nil in Hi.
      - simpl in Hnew.
        destruct (Check_import la pkgPath (si, sourceLayer) [] x) as [n|] eqn:Hx; [|done].
        simpl in Hnew.
        destruct (collect (Check_import la pkgPath (si, sourceLayer) []) imports)
          as [rest|]; [|done].
        apply elem_of_cons in Hi as [->|Hi]; [by exists n|].
        by apply (IH Hi rest). }
    apply (collect_Returns_elem _ _ _ _ Hnew). exists importPath, new'.
    split; [done|]. split; [done|].
    apply (Check_import_Returns_elem _ _ _ _ _ _ Hnew').
    split; [done|]. exists ti, targetLayer. by do 3 (split; [done|]).
Qed.

(** X6. What [Check] reports, when it returns: a message is among the
    violations exactly when some package of the architecture, lying in a
    layer, imports a path that is not taken for the standard library and
    lies in another layer, and no allow rule matches the pair; the layers
    are the first of the list that contain the package and that claim the
    import. *)
Theorem Check_reports_cross_layer_imports (la : LayeredArchitecture) (arch : Architecture)
    (violations : list string) (violation : string) :
  Returns violations ∈ Check la arch →
  violation ∈ violations ↔ crossLayerImport la arch violation.
Proof. apply Check_violation_iff. Qed.

(** The example project: the import of [utils] by [domain] is the one
    cross-layer import, and the one violation. *)
Lemma Check_reports_cross_layer_imports_witness :
  layerViolation "domain" "Domain" utilsImport "Utils"
    ∈ [layerViolation "domain" "Domain" utilsImport "Utils"]
  ↔ crossLayerImport domainAndUtils exampleProject
      (layerViolation "domain" "Domain" utilsImport "Utils").
Proof.
  apply (Check_reports_cross_layer_imports domainAndUtils exampleProject).
  apply elem_of_Check. exists (map_to_list (Packages exampleProject)).
  split; [done|]. vm_compute. reflexivity.
Defined.

(** X7. With at most one layer [Check] reports nothing: every outcome is
    the empty list of violations (or the panic of a layer that has compiled
    patterns and no pattern text). *)
Theorem Check_one_layer_reports_nothing (la : LayeredArchitecture) (arch : Architecture)
    (o : outcome (list string)) :
  length (Layers la) ≤ 1 → o ∈ Check la arch → o = Returns [] ∨ o = Panics.
Proof.
  intros Hlen Ho. destruct o as [vs|]; [left|by right].
  destruct vs as [|v vs]; [done|]. exfalso.
  assert (crossLayerImport la arch v) as H
    by (apply (Check_violation_iff la arch (v :: vs)); [done|by left]).
  destruct H as (_ & _ & _ & si & s & ti & t & _ & _ & _ & (Hs & _) & (Ht & _) & Hne & _).
  apply lookup_lt_Some in Hs, Ht. lia.
Qed.

Lemma Check_one_layer_reports_nothing_witness :
  Returns [] = Returns ([] : list string) ∨ Returns ([] : list string) = Panics.
Proof.
  apply (Check_one_layer_reports_nothing
           {| Layers := [layer "Domain" "^domain$"]; rules := [] |} exampleProject).
  - simpl. lia.
  - apply elem_of_Check. exists (map_to_list (Packages exampleProject)).
    split; [done|]. vm_compute. reflexivity.
Defined.

(** *** Panics *)

Lemma importInLayer_returns layer pats importPath :
  pats = [] ∨ Layer_Packages layer ≠ [] →
  ∃ found, importInLayer layer pats importPath = Returns found.
Proof.
  intros H. induction pats as [|pattern rest IH]; simpl; [by eexists|].
  destruct (MatchString pattern importPath); [by eexists|].
  destruct H as [?|H]; [done|].
  destruct (Layer_Packages layer) as [|first others]; [done|].
  destruct (GoStrings.HasSuffix _ _); [by eexists|].
  apply IH. by right.
Qed.

Lemma findTargetLayer_returns layers idx importPath :
  Forall hasPackageText layers →
  ∃ found, findTargetLayer layers idx importPath = Returns found.
Proof.
  intros Hall. revert idx. induction Hall as [|layer rest Hlayer _ IH]; intros idx; simpl.
  - by eexists.
  - destruct (importInLayer_returns layer (patterns layer) importPath Hlayer) as [found ->].
    simpl. destruct found; [by eexists|apply IH].
Qed.

Lemma collect_returns {A B : Type} (f : A → outcome (list B)) l :
  Forall (λ x, ∃ new, f x = Returns new) l → ∃ all, collect f l = Returns all.
Proof.
  induction 1 as [|x l [new Hx] _ [rest IH]]; simpl; [by eexists|].
  rewrite Hx, IH. simpl. by eexists.
Qed.

Lemma Check_package_returns la entry :
  Forall hasPackageText (Layers la) →
  ∃ new, Check_package la [] entry = Returns new.
Proof.
  intros Hall. destruct entry as [pkgPath pkg]. rewrite Check_package_collect.
  destruct (findSourceLayer (Layers la) 0 pkgPath) as [sourceLayer|]; [|by eexists].
  apply collect_returns, Forall_forall. intros importPath _.
  unfold Check_import. destruct (negb _ && negb _); [by eexists|].
  destruct (findTargetLayer_returns (Layers la) 0 importPath Hall) as [found ->].
  simpl. destruct found as [targetLayer|]; [|by eexists].
  destruct (sourceLayer.1 =? targetLayer.1)%nat; [by eexists|].
  destruct (negb _); by eexists.
Qed.

Lemma NewLayer_hasPackageText name packages l :
  NewLayer name packages = inr l → hasPackageText l.
Proof.
  unfold NewLayer, hasPackageText.
  destruct (compilePatterns packages []) as [e|pats] eqn:Hc; [done|].
  intros [= <-]. simpl.
  apply compilePatterns_inr in Hc as (new & -> & Hnew). simpl.
  destruct Hnew; [by left|by right].
Qed.

(** X8. [Check] does not panic on layers made by [NewLayer]: it has an
    outcome, and every outcome is a list of violations.  (The index
    [Packages[0]] is evaluated only where a layer has a compiled pattern,
    and [NewLayer] compiles one pattern per text.) *)
Theorem Check_returns_for_NewLayer_layers (la : LayeredArchitecture) (arch : Architecture) :
  Forall (λ l, ∃ name packages, NewLayer name packages = inr l) (Layers la) →
  (∃ o, o ∈ Check la arch)
  ∧ ∀ o, o ∈ Check la arch → ∃ violations, o = Returns violations.
Proof.
  intros Hall.
  assert (Forall hasPackageText (Layers la)) as Hlayers.
  { eapply Forall_impl; [exact Hall|]. intros l (name & packages & Hl).
    by eapply NewLayer_hasPackageText. }
  split.
  - exists (collect (Check_package la []) (map_to_list (Packages arch))).
    apply elem_of_Check. by eexists.
  - intros o (order & _ & ->)%elem_of_Check.
    apply collect_returns, Forall_forall. intros entry _.
    by apply Check_package_returns.
Qed.

(** The layers [Domain] and [Utils] of the example project are made by
    [NewLayer]; a layer value with a compiled pattern and no pattern text
    makes [Check] panic at an import that the pattern does not match. *)
Lemma Check_returns_for_NewLayer_layers_witness :
  ((∃ o, o ∈ Check domainAndUtils exampleProject)
   ∧ ∀ o, o ∈ Check domainAndUtils exampleProject → ∃ violations, o = Returns violations)
  ∧ Panics ∈ Check {| Layers := [layer "Domain" "^domain$";
                                 {| Layer_Name := "Utils"; Layer_Packages := [];
                                    patterns := [MustCompile "^utils$"] |}];
                      rules := [] |} exampleDomain.
Proof.
  split.
  - apply (Check_returns_for_NewLayer_layers domainAndUtils exampleProject).
    repeat constructor.
    + exists "Domain", ["^domain$"]. vm_compute. reflexivity.
    + exists "Utils", ["^utils$"]. vm_compute. reflexivity.
  - apply elem_of_Check. exists (map_to_list (Packages exampleDomain)).
    split; [done|]. vm_compute. reflexivity.
Defined.

(** ** Package [regexp]: alternations of literal patterns *)

Lemma parseSequence_endingWith f rest fuel :
  plain f = true →
  rest = EmptyString ∨ (∃ rest', rest = String "|" rest') →
  String.length f + 8 ≤ fuel →
  parseSequence fuel (endingWith f +:+ rest) = Some (endingWithRegexp f, rest).
Proof.
  intros Hf Hrest Hfuel.
  apply (parseSequence_fuel_le (S (String.length f + 7))); [lia|].
  unfold endingWith. rewrite !append_assoc.
  assert (noRepeatAhead ("$" +:+ rest) = true) as Hahead by done.
  assert (parseSequence 7 ("$" +:+ rest) = Some (Concat EndText EmptyMatch, rest)) as Htail.
  { destruct Hrest as [->|[rest' ->]]; reflexivity. }
  rewrite parseSequence_S.
  change ("(^|/)" +:+ f +:+ "$" +:+ rest) with (String "(" ("^|/)" +:+ f +:+ "$" +:+ rest)).
  cbv iota. change (Ascii.eqb "(" "|" || Ascii.eqb "(" ")") with false. cbv iota.
  replace (String.length f + 7) with (S (String.length f + 6)) by lia.
  rewrite parseAtom_S. change (Ascii.eqb "(" "(") with true. cbv iota.
  change (groupBody ("^|/)" +:+ f +:+ "$" +:+ rest))
    with (Some ("^|/)" +:+ f +:+ "$" +:+ rest)).
  cbv iota.
  assert (parseAlternation (String.length f + 6) ("^|/)" +:+ f +:+ "$" +:+ rest)
          = Some (Alternate (Concat BeginText EmptyMatch) (Concat (Literal "/") EmptyMatch),
                  ")" +:+ f +:+ "$" +:+ rest)) as ->.
  { apply (parseAlternation_fuel_le 6); [lia|]. reflexivity. }
  change (")" +:+ f +:+ "$" +:+ rest) with (String ")" (f +:+ "$" +:+ rest)). cbv iota.
  change (Ascii.eqb ")" ")") with true. cbv iota.
  rewrite parseRepeat_none by (by apply noRepeatAhead_plain).
  replace (S (String.length f + 6)) with (String.length f + 7) by lia.
  rewrite (parseSequence_plain f ("$" +:+ rest) 7 (Concat EndText EmptyMatch) rest Hf Hahead Htail).
  done.
Qed.

Lemma length_endingWith f : String.length (endingWith f) = String.length f + 6.
Proof.
  unfold endingWith.
  change ("(^|/)" +:+ f +:+ "$")
    with (String "(" (String "^" (String "|" (String "/" (String ")" (f +:+ "$")))))).
  simpl String.length. rewrite length_append. simpl. lia.
Qed.

Lemma Join_cons2 e1 e2 rest sep :
  GoStrings.Join (e1 :: e2 :: rest) sep = e1 +:+ sep +:+ GoStrings.Join (e2 :: rest) sep.
Proof. done. Qed.

Lemma parseAlternation_endingWithAny fs fuel :
  fs ≠ [] → Forall (λ f, plain f = true) fs →
  String.length (GoStrings.Join (map endingWith fs) "|") + 10 ≤ fuel →
  parseAlternation fuel (GoStrings.Join (map endingWith fs) "|")
  = Some (anyOf (map endingWithRegexp fs), EmptyString).
Proof.
  intros Hne Hall. revert fuel. induction Hall as [|f fs Hf Hall IH]; [done|].
  intros fuel Hfuel. destruct fs as [|g fs].
  - change (GoStrings.Join (map endingWith [f]) "|") with (endingWith f) in *.
    change (map endingWithRegexp [f]) with [endingWithRegexp f].
    rewrite length_endingWith in Hfuel.
    destruct fuel as [|fuel]; [lia|]. rewrite parseAlternation_S.
    rewrite <- (append_empty (endingWith f)).
    rewrite parseSequence_endingWith; [done|done|by left|lia].
  - change (map endingWith (f :: g :: fs)) with (endingWith f :: endingWith g :: map endingWith fs)
      in *.
    rewrite Join_cons2 in *.
    rewrite length_append, length_endingWith, length_append in Hfuel.
    change (String.length "|") with 1 in Hfuel.
    change ("|" +:+ ?s) with (String "|" s).
    destruct fuel as [|fuel]; [lia|]. rewrite parseAlternation_S.
    rewrite parseSequence_endingWith; [|done|right; by eexists|lia].
    change (Ascii.eqb "|" "|") with true. cbv iota.
    change (endingWith g :: map endingWith fs) with (map endingWith (g :: fs)).
    rewrite IH; [done|done|].
    change (map endingWith (g :: fs)) with (endingWith g :: map endingWith fs). lia.
Qed.

Lemma length_Join_cons e rest sep :
  String.length e ≤ String.length (GoStrings.Join (e :: rest) sep).
Proof.
  destruct rest as [|e' rest]; [done|].
  rewrite Join_cons2, length_append. lia.
Qed.

(** The alternation that [DoesNotDependOn] and [DoesNotDependOnLayer] build
    from literal package patterns compiles. *)
Lemma Compile_endingWithAny packages :
  Forall (λ pkg, plain (cleanPattern pkg) = true) packages →
  Compile (endingWithAny packages)
  = Some (anyOf (map (λ pkg, endingWithRegexp (cleanPattern pkg)) packages)).
Proof.
  intros Hall. destruct packages as [|pkg packages]; [done|].
  unfold endingWithAny, Compile.
  rewrite <- (map_map cleanPattern endingWith), <- (map_map cleanPattern endingWithRegexp).
  rewrite parseAlternation_endingWithAny; [done|done| |].
  - by apply Forall_fmap.
  - pose proof (length_Join_cons (endingWith (cleanPattern pkg))
                  (map endingWith (map cleanPattern packages)) "|") as Hlen.
    rewrite length_endingWith in Hlen. simpl map. lia.
Qed.

Lemma search_Alternate r1 r2 start s :
  search (Alternate r1 r2) start s = search r1 start s || search r2 start s.
Proof.
  revert start. induction s as [|c s IH]; intros start; simpl.
  - by rewrite !orb_false_r.
  - rewrite IH.
    destruct (m r1 start (String c s) _), (m r2 start (String c s) _),
             (search r1 false s), (search r2 false s); done.
Qed.

Lemma MatchString_anyOf rs path :
  rs ≠ [] → MatchString (anyOf rs) path = existsb (λ r, MatchString r path) rs.
Proof.
  intros Hne. induction rs as [|r rs IH]; [done|].
  destruct rs as [|r' rs].
  - simpl. by rewrite orb_false_r.
  - change (anyOf (r :: r' :: rs)) with (Alternate r (anyOf (r' :: rs))).
    unfold MatchString in *. rewrite search_Alternate, IH by done. done.
Qed.

Lemma MatchString_EmptyMatch path : MatchString EmptyMatch path = true.
Proof. by destruct path. Qed.

Lemma MatchString_endingWithAny l path :
  MatchString (anyOf (map (λ pkg, endingWithRegexp (cleanPattern pkg)) (Layer_Packages l))) path
  = matchedByLayerRule l path.
Proof.
  unfold matchedByLayerRule, endsInLayer.
  destruct (Layer_Packages l) as [|pkg packages] eqn:Hp; [apply MatchString_EmptyMatch|].
  rewrite MatchString_anyOf by done.
  generalize (pkg :: packages). intros pkgs.
  induction pkgs as [|p pkgs IH]; [done|]. simpl.
  by rewrite MatchString_endingWithRegexp, IH.
Qed.

(** ** Rules between layers *)

(** X9. For layers whose package patterns are literal paths (with or
    without [^] and [$]), [DoesNotDependOnLayer] makes a disallow rule;
    its source pattern matches the paths that are, or end in [/] followed
    by, a path of the layer, and so does its target pattern for the target
    layer.  A layer without package patterns gives the empty pattern, which
    matches every path. *)
Theorem DoesNotDependOnLayer_literal_layers (l targetLayer : Layer) (arch : Architecture) :
  literalLayer l → literalLayer targetLayer →
  ∃ rule,
    DoesNotDependOnLayer l (Some arch) (Some targetLayer) = inr rule
    ∧ AllowedImports rule = false
    ∧ SourcePattern rule = endingWithAny (Layer_Packages l)
    ∧ TargetPattern rule = endingWithAny (Layer_Packages targetLayer)
    ∧ (∀ path, MatchString (sourcePatternRegex rule) path = matchedByLayerRule l path)
    ∧ (∀ path, MatchString (targetPatternRegex rule) path
               = matchedByLayerRule targetLayer path).
Proof.
  intros Hl Ht. unfold DoesNotDependOnLayer, NewDependencyRule.
  rewrite (Compile_endingWithAny _ Hl), (Compile_endingWithAny _ Ht).
  eexists. split; [reflexivity|]. simpl.
  repeat split; try done; intros path; apply MatchString_endingWithAny.
Qed.

(** The layers [domain, application] and [utils]: the source pattern is
    [(^|/)domain$|(^|/)application$]. *)
Lemma DoesNotDependOnLayer_literal_layers_witness :
  ∃ rule,
    DoesNotDependOnLayer
      {| Layer_Name := "Core"; Layer_Packages := ["^domain$"; "application"];
         patterns := [MustCompile "^domain$"; MustCompile "application"] |}
      (Some exampleProject) (Some (layer "Utils" "^utils$")) = inr rule
    ∧ SourcePattern rule = "(^|/)domain$|(^|/)application$"
    ∧ MatchString (sourcePatternRegex rule) "example_project/application" = true
    ∧ MatchString (sourcePatternRegex rule) "myapplication" = false
    ∧ MatchString (targetPatternRegex rule) utilsImport = true.
Proof.
  destruct (DoesNotDependOnLayer_literal_layers
              {| Layer_Name := "Core"; Layer_Packages := ["^domain$"; "application"];
                 patterns := [MustCompile "^domain$"; MustCompile "application"] |}
              (layer "Utils" "^utils$") exampleProject)
    as (rule & Hrule & _ & Hs & _ & Hsource & Htarget).
  - repeat constructor.
  - repeat constructor.
  - exists rule. split; [exact Hrule|]. split; [exact Hs|].
    rewrite !Hsource, Htarget. repeat split; vm_compute; reflexivity.
Defined.

(** X10. The rule of [DoesNotDependOnLayer] in the rule engine: for layers
    with literal package patterns, [ValidateDependenciesWithRules] with that
    one rule passes exactly when no package whose path ends in a path of the
    source layer imports a path that ends in a path of the target layer. *)
Theorem DoesNotDependOnLayer_validated (l targetLayer : Layer) (bound arch : Architecture)
    (rule : DependencyRule) (pass : bool) (violations : list string) :
  literalLayer l → literalLayer targetLayer →
  DoesNotDependOnLayer l (Some bound) (Some targetLayer) = inr rule →
  (pass, violations) ∈ ValidateDependenciesWithRules arch [rule] →
  pass = true ↔
  ∀ pkgPath pkg importPath,
    Packages arch !! pkgPath = Some pkg → importPath ∈ Imports pkg →
    matchedByLayerRule l pkgPath && matchedByLayerRule targetLayer importPath = false.
Proof.
  intros Hl Ht Hrule Hin.
  assert (∀ p i, disallowedMatch (p, i, rule)
                 = matchedByLayerRule l p && matchedByLayerRule targetLayer i) as Hmatch.
  { intros p i. unfold DoesNotDependOnLayer, NewDependencyRule in Hrule.
    rewrite (Compile_endingWithAny _ Hl), (Compile_endingWithAny _ Ht) in Hrule.
    injection Hrule as <-. unfold disallowedMatch. simpl.
    by rewrite !MatchString_endingWithAny, andb_true_r. }
  apply elem_of_validate in Hin as [Hin ->].
  apply elem_of_CheckDependencies in Hin as (order & Hord & ->).
  split.
  - intros Hnil pkgPath pkg importPath Hpkg Hi.
    rewrite <- Hmatch. apply not_true_iff_false. intros Hd.
    apply fmap_nil_inv in Hnil.
    assert ((pkgPath, importPath, rule)
              ∈ List.filter disallowedMatch (triples order [rule])) as Hel;
      [|rewrite Hnil in Hel; by apply elem_of_nil in Hel].
    apply list_elem_of_In, filter_In. split; [|done]. apply list_elem_of_In.
    unfold triples. apply list_elem_of_bind. exists (pkgPath, pkg).
    split; [|rewrite Hord; by apply elem_of_map_to_list].
    apply list_elem_of_bind. exists importPath. split; [|done].
    csimpl. by left.
  - intros Hnone.
    destruct (List.filter disallowedMatch (triples order [rule])) as [|[[p i] r] rest] eqn:Hf;
      [done|].
    assert ((p, i, r) ∈ List.filter disallowedMatch (triples order [rule])) as Hel
      by (rewrite Hf; by left).
    apply list_elem_of_In, filter_In in Hel as [Hel Hd]. apply list_elem_of_In in Hel.
    unfold triples in Hel.
    apply list_elem_of_bind in Hel as ([pkgPath pkg] & Hel & Hentry).
    apply list_elem_of_bind in Hel as (importPath & Hel & Hi).
    csimpl in Hel. apply list_elem_of_singleton in Hel. injection Hel as -> -> ->.
    rewrite Hord in Hentry. apply elem_of_map_to_list in Hentry.
    rewrite Hmatch, (Hnone _ _ _ Hentry Hi) in Hd. done.
Qed.

(** The example project: [domain] imports the project's [utils], so the
    rule that [Domain] does not depend on [Utils] is violated. *)
Lemma DoesNotDependOnLayer_validated_witness :
  ∃ rule violation,
    DoesNotDependOnLayer (layer "Domain" "^domain$") (Some exampleDomain)
                         (Some (layer "Utils" "^utils$")) = inr rule
    ∧ (false, [violation]) ∈ ValidateDependenciesWithRules exampleDomain [rule]
    ∧ (false = true ↔
       ∀ pkgPath pkg importPath,
         Packages exampleDomain !! pkgPath = Some pkg → importPath ∈ Imports pkg →
         matchedByLayerRule (layer "Domain" "^domain$") pkgPath
         && matchedByLayerRule (layer "Utils" "^utils$") importPath = false).
Proof.
  eexists. eexists.
  assert (∀ rule violation (P : Prop),
            DoesNotDependOnLayer (layer "Domain" "^domain$") (Some exampleDomain)
                                 (Some (layer "Utils" "^utils$")) = inr rule →
            (false, [violation]) ∈ ValidateDependenciesWithRules exampleDomain [rule] →
            (DoesNotDependOnLayer (layer "Domain" "^domain$") (Some exampleDomain)
                                 (Some (layer "Utils" "^utils$")) = inr rule →
             (false, [violation]) ∈ ValidateDependenciesWithRules exampleDomain [rule] → P) →
            DoesNotDependOnLayer (layer "Domain" "^domain$") (Some exampleDomain)
                                 (Some (layer "Utils" "^utils$")) = inr rule
            ∧ (false, [violation]) ∈ ValidateDependenciesWithRules exampleDomain [rule]
            ∧ P) as Hcut by (intros; repeat split; auto).
  apply Hcut.
  - vm_compute. reflexivity.
  - apply elem_of_validate. split; [|done].
    apply elem_of_CheckDependencies. exists (map_to_list (Packages exampleDomain)).
    split; [done|]. vm_compute. reflexivity.
  - intros Hrule Hin.
    eapply (DoesNotDependOnLayer_validated (layer "Domain" "^domain$")
              (layer "Utils" "^utils$") exampleDomain exampleDomain);
      [repeat constructor|repeat constructor|exact Hrule|exact Hin].
Defined.

(** *** Layers of anchored literal patterns *)

Lemma Compile_anchored f : plain f = true → Compile (anchored f) = Some (anchoredRegexp f).
Proof.
  intros Hf. unfold Compile, anchored.
  assert (parseAlternation (S (S (String.length f + 7))) ("^" +:+ f +:+ "$")
          = Some (anchoredRegexp f, "")) as H.
  { rewrite parseAlternation_S, parseSequence_S.
    change ("^" +:+ f +:+ "$") with (String "^" (f +:+ "$")).
    cbv iota. change (Ascii.eqb "^" "|" || Ascii.eqb "^" ")") with false. cbv iota.
    replace (String.length f + 7) with (S (String.length f + 6)) by lia.
    rewrite parseAtom_S. change (Ascii.eqb "^" "(") with false. cbv iota.
    change (parseSimpleAtom "^" (f +:+ "$")) with (Some (BeginText, f +:+ "$")).
    cbv iota.
    rewrite parseRepeat_none by (by apply noRepeatAhead_plain).
    replace (S (String.length f + 6)) with (String.length f + 7) by lia.
    rewrite (parseSequence_plain f "$" 7 (Concat EndText EmptyMatch) "" Hf eq_refl eq_refl).
    done. }
  apply (parseAlternation_fuel_le _ (3 * String.length ("^" +:+ f +:+ "$") + 3)) in H.
  - by rewrite H.
  - change ("^" +:+ f +:+ "$") with (String "^" (f +:+ "$")).
    simpl String.length. rewrite length_append. simpl. lia.
Qed.

Lemma search_anchoredRegexp_false f s : search (anchoredRegexp f) false s = false.
Proof. induction s as [|c s IH]; simpl; [done|]. by rewrite IH. Qed.

(** The pattern [^f$] matches the path [f] only. *)
Lemma MatchString_anchoredRegexp f path :
  MatchString (anchoredRegexp f) path = String.eqb path f.
Proof.
  assert (m (anchoredRegexp f) true path (λ _ _, true) = String.eqb path f) as Hm.
  { unfold anchoredRegexp.
    change (m (Concat ?a ?b) true path ?k) with (m a true path (λ start' s', m b start' s' k)).
    simpl m at 1. rewrite m_literals. simpl. apply HasPrefix_drop_eqb. }
  unfold MatchString. destruct path as [|c path].
  - change (search (anchoredRegexp f) true "")
      with (m (anchoredRegexp f) true "" (λ _ _, true) || false).
    by rewrite Hm, orb_false_r.
  - change (search (anchoredRegexp f) true (String c path))
      with (m (anchoredRegexp f) true (String c path) (λ _ _, true)
            || search (anchoredRegexp f) false path).
    by rewrite Hm, search_anchoredRegexp_false, orb_false_r.
Qed.

Lemma madeOfPaths_fields l fs :
  madeOfPaths l fs →
  Layer_Packages l = map anchored fs ∧ patterns l = map anchoredRegexp fs.
Proof.
  intros [Hplain Hnew]. unfold NewLayer in Hnew.
  destruct (compilePatterns (map anchored fs) []) as [e|pats] eqn:Hc; [done|].
  injection Hnew as Hl. rewrite <- Hl. simpl. split; [done|].
  apply compilePatterns_inr in Hc as (new & -> & Hnew). simpl.
  clear Hl. revert new Hnew. induction Hplain as [|f fs Hf _ IH]; intros new Hnew.
  - by inversion Hnew.
  - inversion Hnew as [|? re ? new' Hre Hrest]; subst.
    rewrite (Compile_anchored f Hf) in Hre. injection Hre as <-.
    simpl. f_equal. by apply IH.
Qed.

Lemma madeOfPaths_literalLayer l fs : madeOfPaths l fs → literalLayer l.
Proof.
  intros H. pose proof (madeOfPaths_fields l fs H) as [Hp _]. destruct H as [Hplain _].
  unfold literalLayer. rewrite Hp. apply Forall_fmap.
  eapply Forall_impl; [exact Hplain|]. intros f Hf. simpl.
  unfold anchored. by rewrite cleanPattern_anchored.
Qed.

Lemma endsInLayer_madeOfPaths l fs path :
  madeOfPaths l fs → endsInLayer l path = existsb (endsInSegment path) fs.
Proof.
  intros [Hp _]%madeOfPaths_fields. unfold endsInLayer. rewrite Hp. clear Hp.
  induction fs as [|f fs IH]; [done|]. cbn [existsb map].
  unfold anchored at 1. by rewrite cleanPattern_anchored, IH.
Qed.

(** A layer of the patterns [^f$] contains the package paths [f]. *)
Lemma Contains_madeOfPaths l fs pkgPath :
  madeOfPaths l fs → Contains l pkgPath = existsb (String.eqb pkgPath) fs.
Proof.
  intros [_ Hpats]%madeOfPaths_fields. unfold Contains. rewrite Hpats. clear Hpats.
  induction fs as [|f fs IH]; [done|]. simpl.
  rewrite MatchString_anchoredRegexp, IH. by destruct (String.eqb pkgPath f).
Qed.

Lemma TrimSuffix_anchored f :
  GoStrings.TrimPrefix (GoStrings.TrimSuffix (anchored f) "$") "^" = f.
Proof.
  unfold anchored, GoStrings.TrimSuffix.
  change ("^" +:+ f +:+ "$") with (String "^" (f +:+ "$")).
  rewrite HasSuffix_cons, HasSuffix_append_dollar, orb_true_r.
  simpl String.length. rewrite length_append.
  replace (S (String.length f + String.length "$") - 1) with (S (String.length f))
    by (simpl; lia).
  simpl GoStrings.take. rewrite take_append. done.
Qed.

(** Such a layer claims the import paths [f], and the paths that end in
    [/] followed by its first path. *)
Lemma importInLayer_madeOfPaths l fs importPath :
  madeOfPaths l fs →
  importInLayer l (patterns l) importPath
  = Returns (match fs with
             | [] => false
             | first :: _ =>
                 existsb (String.eqb importPath) fs
                 || GoStrings.HasSuffix importPath ("/" +:+ first)
             end).
Proof.
  intros [Hp Hpats]%madeOfPaths_fields. rewrite Hpats.
  destruct fs as [|first rest]; [done|].
  assert (∀ gs, importInLayer l (map anchoredRegexp gs) importPath
                = Returns (match gs with
                           | [] => false
                           | _ => existsb (String.eqb importPath) gs
                                  || GoStrings.HasSuffix importPath ("/" +:+ first)
                           end)) as H.
  { induction gs as [|g gs IH]; [done|].
    change (map anchoredRegexp (g :: gs)) with (anchoredRegexp g :: map anchoredRegexp gs).
    cbn [importInLayer]. rewrite MatchString_anchoredRegexp, Hp.
    change (map anchored (first :: rest)) with (anchored first :: map anchored rest).
    cbv iota. rewrite TrimSuffix_anchored.
    cbn [existsb].
    destruct (String.eqb importPath g); [done|].
    destruct (GoStrings.HasSuffix importPath ("/" +:+ first)) eqn:Hsuffix.
    - by rewrite orb_true_r.
    - rewrite IH. by destruct gs. }
  apply H.
Qed.

Lemma existsb_allows_pairs sources targets pkgPath importPath :
  existsb (allows pkgPath importPath)
          (map literalAllowRule
               (sourcePkg ← sources; targetPkg ← targets; [(sourcePkg, targetPkg)]))
  = existsb (λ pkg, endsInSegment pkgPath (cleanPattern pkg)) sources
    && existsb (λ pkg, endsInSegment importPath (cleanPattern pkg)) targets.
Proof.
  induction sources as [|s sources IH]; [done|]. csimpl.
  rewrite List.map_app, existsb_app, IH.
  assert (existsb (allows pkgPath importPath)
            (map literalAllowRule (targetPkg ← targets; [(s, targetPkg)]))
          = endsInSegment pkgPath (cleanPattern s)
            && existsb (λ pkg, endsInSegment importPath (cleanPattern pkg)) targets) as ->.
  { clear IH. induction targets as [|t targets IH]; csimpl; [by rewrite andb_false_r|].
    rewrite IH. unfold allows at 1. simpl.
    rewrite !MatchString_endingWithRegexp, andb_true_r.
    by destruct (endsInSegment pkgPath (cleanPattern s)). }
  by rewrite andb_orb_distrib_l.
Qed.

Lemma AddRule_literal_layers la sourceLayerName targetLayerName sourceLayer targetLayer :
  WhereLayer la sourceLayerName = Some sourceLayer →
  WhereLayer la targetLayerName = Some targetLayer →
  literalLayer sourceLayer → literalLayer targetLayer →
  AddRule la sourceLayerName targetLayerName
  = ({| Layers := Layers la;
        rules := rules la ++ map literalAllowRule (patternPairs sourceLayer targetLayer) |},
     None).
Proof.
  intros Hs Ht Hsl Htl. rewrite (AddRule_found _ _ _ _ _ Hs Ht).
  by rewrite (addAllowRules_all _ _ _ (patternPairs_literal _ _ Hsl Htl)).
Qed.

(** X11. [AddRule] between two layers made by [NewLayer] from patterns
    [^f$] of literal paths succeeds, and afterwards the allow rules cover
    every import that [Check] attributes to the pair: a package the source
    layer contains, importing a path the target layer claims.  Exactly the
    pairs of a package path ending in a source path and an import path
    ending in a target path are newly allowed. *)
Theorem AddRule_allows_layer_imports (la : LayeredArchitecture)
    (sourceLayerName targetLayerName : string) (sourceLayer targetLayer : Layer)
    (sourcePaths targetPaths : list string) :
  WhereLayer la sourceLayerName = Some sourceLayer →
  WhereLayer la targetLayerName = Some targetLayer →
  madeOfPaths sourceLayer sourcePaths → madeOfPaths targetLayer targetPaths →
  (AddRule la sourceLayerName targetLayerName).2 = None
  ∧ (∀ pkgPath importPath,
       allowedByRules (rules (AddRule la sourceLayerName targetLayerName).1)
                      pkgPath importPath
       = allowedByRules (rules la) pkgPath importPath
         || existsb (endsInSegment pkgPath) sourcePaths
            && existsb (endsInSegment importPath) targetPaths)
  ∧ (∀ pkgPath importPath,
       Contains sourceLayer pkgPath = true →
       importInLayer targetLayer (patterns targetLayer) importPath = Returns true →
       allowedByRules (rules (AddRule la sourceLayerName targetLayerName).1)
                      pkgPath importPath = true).
Proof.
  intros Hs Ht Hsource Htarget.
  rewrite (AddRule_literal_layers _ _ _ _ _ Hs Ht
             (madeOfPaths_literalLayer _ _ Hsource) (madeOfPaths_literalLayer _ _ Htarget)).
  assert (∀ pkgPath importPath,
       allowedByRules (rules la ++ map literalAllowRule (patternPairs sourceLayer targetLayer))
                      pkgPath importPath
       = allowedByRules (rules la) pkgPath importPath
         || existsb (endsInSegment pkgPath) sourcePaths
            && existsb (endsInSegment importPath) targetPaths) as Hformula.
  { intros pkgPath importPath.
    rewrite allowedByRules_app, (allowedByRules_existsb (map _ _)).
    unfold patternPairs. rewrite existsb_allows_pairs.
    fold (endsInLayer sourceLayer pkgPath). fold (endsInLayer targetLayer importPath).
    by rewrite (endsInLayer_madeOfPaths _ _ _ Hsource),
               (endsInLayer_madeOfPaths _ _ _ Htarget). }
  split; [done|]. split; [exact Hformula|].
  intros pkgPath importPath Hc Hi. simpl. rewrite Hformula.
  rewrite (Contains_madeOfPaths _ _ _ Hsource) in Hc.
  rewrite (importInLayer_madeOfPaths _ _ _ Htarget) in Hi. injection Hi as Hi.
  assert (existsb (endsInSegment pkgPath) sourcePaths = true) as ->.
  { apply existsb_exists in Hc as (f & Hf & Heq). apply existsb_exists.
    exists f. split; [done|]. unfold endsInSegment. by rewrite Heq. }
  assert (existsb (endsInSegment importPath) targetPaths = true) as ->;
    [|by rewrite orb_true_r].
  destruct targetPaths as [|first rest]; [done|].
  apply orb_true_iff in Hi as [Hi|Hi].
  - apply existsb_exists in Hi as (f & Hf & Heq). apply existsb_exists.
    exists f. split; [done|]. unfold endsInSegment. by rewrite Heq.
  - simpl. unfold endsInSegment at 1. by rewrite Hi, orb_true_r.
Qed.

(** The layers [^domain$] and [^utils$] of the example project: after
    [AddRule "Domain" "Utils"] the import of the project's [utils] by
    [domain] is allowed. *)
Lemma AddRule_allows_layer_imports_witness :
  (AddRule domainAndUtils "Domain" "Utils").2 = None
  ∧ allowedByRules (rules (AddRule domainAndUtils "Domain" "Utils").1) "domain" utilsImport
    = true.
Proof.
  destruct (AddRule_allows_layer_imports domainAndUtils "Domain" "Utils"
              (layer "Domain" "^domain$") (layer "Utils" "^utils$") ["domain"] ["utils"])
    as (Herr & _ & Hallowed).
  - reflexivity.
  - reflexivity.
  - split; [repeat constructor|vm_compute; reflexivity].
  - split; [repeat constructor|vm_compute; reflexivity].
  - split; [exact Herr|]. apply Hallowed; vm_compute; reflexivity.
Defined.

(** ** Finding the implementations of an interface *)

Lemma implementationsIn_app iface acc entry r :
  r ∈ implementationsIn iface acc entry →
  ∃ new, r = acc ++ new
    ∧ new ≡ₚ List.filter (λ s, CheckInterfaceImplementation s iface)
                         (map_to_list (Structs entry.2)).*2.
Proof.
  unfold implementationsIn.
  intros (structs & ->%elem_of_ret & Hstructs%elem_of_rangeMap)%elem_of_bind.
  rewrite (foldl_filter_append (λ s, CheckInterfaceImplementation s iface)).
  eexists. split; [done|]. apply filter_Permutation_bool. by rewrite Hstructs.
Qed.

Lemma implementationsIn_inhabited iface acc entry :
  ∃ r, r ∈ implementationsIn iface acc entry.
Proof.
  unfold implementationsIn. eexists. apply elem_of_bind.
  exists (map_to_list (Structs entry.2)). split; [by apply elem_of_ret|].
  apply rangeMap_canonical.
Qed.

(** X12. [FindAllImplementations] fails when the package is not in the
    architecture, or declares no interface under the name; otherwise it
    returns, in some order, the structs of all packages that implement the
    interface: each declared struct that has, for every method of the
    interface, a method of the same name, parameter count and presence of a
    return type.  For an interface without methods these are all the
    structs of the architecture. *)
Theorem FindAllImplementations_finds_the_satisfying_structs (a : Architecture)
    (interfaceName interfacePkgPath : string) :
  match Packages a !! interfacePkgPath with
  | None =>
      ∀ r, r ∈ FindAllImplementations a interfaceName interfacePkgPath
           ↔ r = inl (PackageNotFound interfacePkgPath)
  | Some pkg =>
      match Interfaces pkg !! interfaceName with
      | None =>
          ∀ r, r ∈ FindAllImplementations a interfaceName interfacePkgPath
               ↔ r = inl (InterfaceNotFound interfaceName interfacePkgPath)
      | Some iface =>
          (∃ r, r ∈ FindAllImplementations a interfaceName interfacePkgPath)
          ∧ ∀ r, r ∈ FindAllImplementations a interfaceName interfacePkgPath →
              ∃ implementations,
                r = inr implementations
                ∧ implementations
                  ≡ₚ List.filter (λ s, CheckInterfaceImplementation s iface) (allStructs a)
                ∧ (∀ s, s ∈ implementations ↔ s ∈ allStructs a ∧ satisfies s iface)
                ∧ (Interface_Methods iface = [] → implementations ≡ₚ allStructs a)
      end
  end.
Proof.
  unfold FindAllImplementations, GetPackage.
  destruct (Packages a !! interfacePkgPath) as [pkg|]; [|intros r; apply elem_of_ret].
  destruct (Interfaces pkg !! interfaceName) as [iface|]; [|intros r; apply elem_of_ret].
  split.
  - destruct (foldM_inhabited (implementationsIn iface) (map_to_list (Packages a))
                (implementationsIn_inhabited iface) []) as [impls Himpls].
    exists (inr impls). apply elem_of_bind. exists (map_to_list (Packages a)).
    split; [|apply rangeMap_canonical].
    apply elem_of_bind. exists impls. split; [by apply elem_of_ret|done].
  - intros r (order & Hr & Hord%elem_of_rangeMap)%elem_of_bind.
    apply elem_of_bind in Hr as (impls & ->%elem_of_ret & Himpls).
    exists impls. split; [done|].
    assert (impls ≡ₚ List.filter (λ s, CheckInterfaceImplementation s iface) (allStructs a))
      as Hperm.
    { destruct (foldM_append (implementationsIn iface)
                  (λ entry, List.filter (λ s, CheckInterfaceImplementation s iface)
                                        (map_to_list (Structs entry.2)).*2)
                  (implementationsIn_app iface) order [] impls Himpls)
        as (news & -> & Hnews).
      simpl. rewrite (concat_Forall2_Permutation _ _ _ Hnews).
      unfold allStructs. rewrite filter_bind. by rewrite Hord. }
    split; [done|]. split.
    + intros s. rewrite Hperm, list_elem_of_In, filter_In, <- list_elem_of_In.
      by rewrite CheckInterfaceImplementation_satisfies.
    + intros Hnone. rewrite Hperm.
      assert (∀ l, List.filter (λ s, CheckInterfaceImplementation s iface) l = l) as ->;
        [|done].
      intros l. induction l as [|s l IH]; [done|]. simpl.
      assert (CheckInterfaceImplementation s iface = true) as ->.
      { apply CheckInterfaceImplementation_satisfies. intros iMethod Hin.
        rewrite Hnone in Hin. by apply elem_of_nil in Hin. }
      by rewrite IH.
Qed.

(** ** Interface rules *)

(** X13. Implementing an interface is monotone in the methods: a struct
    that implements an interface still does after it gains methods, or
    after methods are reordered, and it implements every interface that asks
    for a part of the methods. *)
Theorem CheckInterfaceImplementation_monotone (s s' : Struct) (i i' : Interface) :
  Struct_Methods s ⊆ Struct_Methods s' →
  Interface_Methods i' ⊆ Interface_Methods i →
  CheckInterfaceImplementation s i = true →
  CheckInterfaceImplementation s' i' = true.
Proof.
  intros Hs Hi. rewrite !CheckInterfaceImplementation_satisfies.
  intros Hsat iMethod Hin. destruct (Hsat iMethod (Hi _ Hin)) as (sMethod & Hm & Ha).
  exists sMethod. split; [by apply Hs|done].
Qed.

(** The repository with both methods implements the interface; so it does
    with a third method in front, for the interface that asks for [Save]
    only. *)
Lemma CheckInterfaceImplementation_monotone_witness :
  CheckInterfaceImplementation
    (repositoryStruct (method "Delete" [("id", "string")] "" :: bothMethods))
    {| Interface_Name := "Saver";
       Interface_Methods := [method "Save" [("user", "*User")] "has_return"];
       Interface_Pkg_Path := "domain" |} = true.
Proof.
  apply (CheckInterfaceImplementation_monotone (repositoryStruct bothMethods) _
           repositoryInterface).
  - simpl. intros x Hx. by right.
  - simpl. intros x ->%list_elem_of_singleton. right. by left.
  - vm_compute. reflexivity.
Defined.

Lemma ruleViolations_vacuous a rule :
  matchedInterfaces a rule = []
  ∨ (∃ i, i ∈ matchedInterfaces a rule ∧ Interface_Methods i = []) →
  ruleViolations a rule = [].
Proof.
  unfold ruleViolations. intros [->|(i & Hin & Hnone)]; [done|].
  destruct (matchedInterfaces a rule) as [|i0 rest] eqn:Hm; [done|].
  unfold unsatisfied. rewrite Hm, filter_none; [done|].
  apply Forall_forall. intros s _.
  apply not_true_iff_false. intros Hall.
  rewrite forallb_forall in Hall. apply list_elem_of_In in Hin.
  specialize (Hall i Hin). apply negb_true_iff in Hall.
  assert (CheckInterfaceImplementation s i = true); [|congruence].
  apply CheckInterfaceImplementation_satisfies. intros iMethod Hi.
  rewrite Hnone in Hi. by apply elem_of_nil in Hi.
Qed.

(** X14. A rule reports nothing when no interface of the architecture
    matches its interface pattern, and also when one of the matched
    interfaces has no methods: every struct implements that interface.
    With rules of these two kinds only, the check returns no violation and
    the validation passes. *)
Theorem CheckStructImplementsInterfaces_vacuous_rules (a : Architecture)
    (rules : list InterfaceImplementationRule) :
  Forall (λ rule, matchedInterfaces a rule = []
                  ∨ ∃ i, i ∈ matchedInterfaces a rule ∧ Interface_Methods i = []) rules →
  (∀ violations, violations ∈ CheckStructImplementsInterfaces a rules → violations = [])
  ∧ (∀ r, r ∈ ValidateInterfaceImplementations a rules → r = (true, [])).
Proof.
  intros Hall.
  assert (∀ violations, violations ∈ CheckStructImplementsInterfaces a rules →
                        violations = []) as Hnone.
  { intros violations (perRule & -> & Hper)%CheckStructImplementsInterfaces_rules.
    induction Hper as [|rule new rules perRule Hnew _ IH]; [done|].
    apply Forall_cons in Hall as [Hrule Hall]. simpl.
    rewrite (ruleViolations_vacuous _ _ Hrule) in Hnew.
    apply Permutation_nil_r in Hnew as ->. by apply IH. }
  split; [exact Hnone|].
  intros [pass violations] [Hin Hpass]%elem_of_validate.
  apply Hnone in Hin as ->. f_equal. by apply Hpass.
Qed.

(** The repository that lacks [FindByID] violates the rule of the example;
    with an interface without methods that the pattern matches as well, the
    rule reports nothing. *)
Lemma CheckStructImplementsInterfaces_vacuous_rules_witness :
  (∀ violations,
     violations ∈ CheckStructImplementsInterfaces (repositoriesWithMarker saveOnly)
                                                  [repositoryRule] →
     violations = [])
  ∧ (∀ r, r ∈ ValidateInterfaceImplementations (repositoriesWithMarker saveOnly)
                                               [repositoryRule] →
          r = (true, []))
  ∧ ruleViolations (repositories saveOnly) repositoryRule
    = [implementationViolation (repositoryStruct saveOnly) repositoryRule].
Proof.
  split; [|split]; [| |vm_compute; reflexivity].
  - apply (CheckStructImplementsInterfaces_vacuous_rules (repositoriesWithMarker saveOnly)
             [repositoryRule]).
    constructor; [|constructor]. right. exists markerInterface. split; [|done].
    apply list_elem_of_In. vm_compute. auto.
  - apply (CheckStructImplementsInterfaces_vacuous_rules (repositoriesWithMarker saveOnly)
             [repositoryRule]).
    constructor; [|constructor]. right. exists markerInterface. split; [|done].
    apply list_elem_of_In. vm_compute. auto.
Defined.

(** ** Rule lists *)

Lemma foldM_app {A S : Type} (body : S → A → propset S) l1 l2 s r :
  r ∈ foldM body s (l1 ++ l2) ↔ ∃ r1, r1 ∈ foldM body s l1 ∧ r ∈ foldM body r1 l2.
Proof.
  revert s. induction l1 as [|x l1 IH]; intros s; simpl.
  - split.
    + intros H. exists s. split; [by apply elem_of_ret|done].
    + by intros (r1 & ->%elem_of_ret & H).
  - rewrite elem_of_bind. split.
    + intros (s1 & (r1 & Hr1 & Hr)%IH & Hs1). exists r1. split; [|done].
      apply elem_of_bind. by exists s1.
    + intros (r1 & (s1 & Hr1 & Hs1)%elem_of_bind & Hr). exists s1. split; [|done].
      apply IH. by exists r1.
Qed.

(** A loop whose body appends to the accumulator does so as a whole. *)
Lemma foldM_shift {A B : Type} (body : list B → A → propset (list B)) :
  (∀ acc x r, r ∈ body acc x ↔ ∃ new, r = acc ++ new ∧ new ∈ body [] x) →
  ∀ l acc r, r ∈ foldM body acc l ↔ ∃ new, r = acc ++ new ∧ new ∈ foldM body [] l.
Proof.
  intros Hbody l. induction l as [|x l IH]; intros acc r; simpl.
  - rewrite elem_of_ret. split.
    + intros ->. exists []. split; [by rewrite app_nil_r|by apply elem_of_ret].
    + intros (new & -> & ->%elem_of_ret). by rewrite app_nil_r.
  - rewrite elem_of_bind. split.
    + intros (r1 & Hr & (n1 & -> & Hn1)%Hbody).
      apply IH in Hr as (n2 & -> & Hn2).
      exists (n1 ++ n2). split; [by rewrite app_assoc|].
      apply elem_of_bind. exists n1. split; [|done].
      apply IH. by exists n2.
    + intros (new & -> & (n1 & Hnew & Hn1)%elem_of_bind).
      apply IH in Hnew as (n2 & -> & Hn2).
      exists (acc ++ n1). split.
      * apply IH. exists n2. by rewrite app_assoc.
      * apply Hbody. by exists n1.
Qed.

Lemma reportUnimplemented_foldl rule interfaces violations structs :
  foldl (reportUnimplemented rule interfaces) violations structs
  = violations ++ foldl (reportUnimplemented rule interfaces) [] structs.
Proof.
  rewrite !(foldl_append _ (λ s, map (λ s, implementationViolation s rule)
    (List.filter (λ s, negb (implementsAnyOf s interfaces) && (0 <? length interfaces)) [s])))
    by apply reportUnimplemented_app.
  done.
Qed.

Lemma CheckStructImplementsInterfaces_rule_shift a violations rule r :
  r ∈ CheckStructImplementsInterfaces_rule a violations rule ↔
  ∃ new, r = violations ++ new ∧ new ∈ CheckStructImplementsInterfaces_rule a [] rule.
Proof.
  unfold CheckStructImplementsInterfaces_rule. split.
  - intros (order & Hr & Horder)%elem_of_bind.
    apply elem_of_bind in Hr as (found & ->%elem_of_ret & Hfound).
    rewrite reportUnimplemented_foldl. eexists. split; [done|].
    apply elem_of_bind. exists order. split; [|done].
    apply elem_of_bind. exists found. split; [by apply elem_of_ret|done].
  - intros (new & -> & (order & Hr & Horder)%elem_of_bind).
    apply elem_of_bind in Hr as (found & ->%elem_of_ret & Hfound).
    rewrite <- reportUnimplemented_foldl.
    apply elem_of_bind. exists order. split; [|done].
    apply elem_of_bind. exists found. split; [by apply elem_of_ret|done].
Qed.

Lemma CheckMethodParameters_package_shift interfaces structs rule violations entry r :
  r ∈ CheckMethodParameters_package interfaces structs rule violations entry ↔
  ∃ new, r = violations ++ new
         ∧ new ∈ CheckMethodParameters_package interfaces structs rule [] entry.
Proof.
  unfold CheckMethodParameters_package.
  assert (∀ acc order,
            foldl (CheckMethodParameters_struct interfaces structs rule) acc order
            = acc ++ foldl (CheckMethodParameters_struct interfaces structs rule) [] order)
    as Hshift.
  { intros acc order.
    rewrite !(foldl_append _ (CheckMethodParameters_struct interfaces structs rule []))
      by apply CheckMethodParameters_struct_app. done. }
  split.
  - intros (order & ->%elem_of_ret & Horder)%elem_of_bind.
    rewrite Hshift. eexists. split; [done|].
    apply elem_of_bind. exists order. split; [by apply elem_of_ret|done].
  - intros (new & -> & (order & ->%elem_of_ret & Horder)%elem_of_bind).
    rewrite <- Hshift.
    apply elem_of_bind. exists order. split; [by apply elem_of_ret|done].
Qed.

Lemma CheckMethodParameters_rule_shift a interfaces structs violations rule r :
  r ∈ CheckMethodParameters_rule a interfaces structs violations rule ↔
  ∃ new, r = violations ++ new
         ∧ new ∈ CheckMethodParameters_rule a interfaces structs [] rule.
Proof.
  unfold CheckMethodParameters_rule. split.
  - intros (order & Hr & Horder)%elem_of_bind.
    apply (foldM_shift _ (CheckMethodParameters_package_shift interfaces structs rule)) in Hr
      as (new & -> & Hnew).
    exists new. split; [done|]. apply elem_of_bind. by exists order.
  - intros (new & -> & (order & Hr & Horder)%elem_of_bind).
    apply elem_of_bind. exists order. split; [|done].
    apply (foldM_shift _ (CheckMethodParameters_package_shift interfaces structs rule)).
    by exists new.
Qed.

Lemma elem_of_CheckMethodParameters a rules violations :
  violations ∈ CheckMethodParameters a rules ↔
  violations ∈ foldM (CheckMethodParameters_rule a (interfaceTable a) (structTable a)) [] rules.
Proof.
  unfold CheckMethodParameters. split.
  - intros (order & Hr & Horder%elem_of_rangeMap)%elem_of_bind.
    apply elem_of_bind in Hr as (tables & Hr & Htables).
    by rewrite (registerPackage_tables a order tables Horder Htables) in Hr.
  - intros Hr.
    destruct (foldM_inhabited registerPackage (map_to_list (Packages a))) with (s := (∅, ∅) : gmap string bool * gmap string bool)
      as [tables Htables].
    { intros s x. unfold registerPackage. eexists. apply elem_of_bind.
      exists (map_to_list (Interfaces x.2)). split; [|apply rangeMap_canonical].
      apply elem_of_bind. exists (map_to_list (Structs x.2)).
      split; [by apply elem_of_ret|apply rangeMap_canonical]. }
    apply elem_of_bind. exists (map_to_list (Packages a)).
    split; [|apply rangeMap_canonical].
    apply elem_of_bind. exists tables. split; [|done].
    by rewrite (registerPackage_tables a _ tables (reflexivity _) Htables).
Qed.

Lemma bind_app_Permutation {A B : Type} (f g : A → list B) l :
  l ≫= (λ x, f x ++ g x) ≡ₚ (l ≫= f) ++ (l ≫= g).
Proof.
  induction l as [|x l IH]; csimpl; [done|]. rewrite IH.
  rewrite <- !app_assoc. apply Permutation_app_head.
  rewrite !app_assoc. apply Permutation_app_tail, Permutation_app_comm.
Qed.

Lemma triples_app order rules1 rules2 :
  triples order (rules1 ++ rules2) ≡ₚ triples order rules1 ++ triples order rules2.
Proof.
  unfold triples. rewrite <- bind_app_Permutation.
  induction order as [|entry order IH]; csimpl; [done|].
  apply Permutation_app; [|done].
  rewrite <- bind_app_Permutation.
  induction (Imports entry.2) as [|importPath imports IHi]; csimpl; [done|].
  rewrite IHi. by rewrite bind_app.
Qed.

(** X15. Rule lists compose.  The interface check and the parameter check
    of [rules1 ++ rules2] return the violations of [rules1] followed by
    those of [rules2]; the dependency check, whose outer loop is over the
    packages, returns them interleaved: a permutation of the two lists. *)
Theorem checks_of_appended_rule_lists (a : Architecture) :
  (∀ rules1 rules2 violations,
     violations ∈ CheckStructImplementsInterfaces a (rules1 ++ rules2) ↔
     ∃ v1 v2, v1 ∈ CheckStructImplementsInterfaces a rules1
              ∧ v2 ∈ CheckStructImplementsInterfaces a rules2
              ∧ violations = v1 ++ v2) ∧
  (∀ rules1 rules2 violations,
     violations ∈ CheckMethodParameters a (rules1 ++ rules2) ↔
     ∃ v1 v2, v1 ∈ CheckMethodParameters a rules1
              ∧ v2 ∈ CheckMethodParameters a rules2
              ∧ violations = v1 ++ v2) ∧
  (∀ rules1 rules2 violations,
     violations ∈ CheckDependencies a (rules1 ++ rules2) →
     ∃ v1 v2, v1 ∈ CheckDependencies a rules1
              ∧ v2 ∈ CheckDependencies a rules2
              ∧ violations ≡ₚ v1 ++ v2).
Proof.
  split; [|split].
  - intros rules1 rules2 violations. unfold CheckStructImplementsInterfaces.
    rewrite foldM_app. split.
    + intros (v1 & Hv1 & Hr).
      apply (foldM_shift _ (CheckStructImplementsInterfaces_rule_shift a)) in Hr
        as (v2 & -> & Hv2).
      by exists v1, v2.
    + intros (v1 & v2 & Hv1 & Hv2 & ->). exists v1. split; [done|].
      apply (foldM_shift _ (CheckStructImplementsInterfaces_rule_shift a)). by exists v2.
  - intros rules1 rules2 violations. rewrite !elem_of_CheckMethodParameters.
    rewrite foldM_app. split.
    + intros (v1 & Hv1 & Hr).
      apply (foldM_shift _ (CheckMethodParameters_rule_shift a _ _)) in Hr
        as (v2 & -> & Hv2).
      exists v1, v2. by rewrite !elem_of_CheckMethodParameters.
    + intros (v1 & v2 & Hv1 & Hv2 & ->). rewrite elem_of_CheckMethodParameters in Hv1, Hv2.
      exists v1. split; [done|].
      apply (foldM_shift _ (CheckMethodParameters_rule_shift a _ _)). by exists v2.
  - intros rules1 rules2 violations (order & Hord & ->)%elem_of_CheckDependencies.
    exists (map tripleViolation (List.filter disallowedMatch (triples order rules1))),
           (map tripleViolation (List.filter disallowedMatch (triples order rules2))).
    split; [apply elem_of_CheckDependencies; by exists order|].
    split; [apply elem_of_CheckDependencies; by exists order|].
    rewrite <- map_app, <- List.filter_app.
    apply Permutation_map, filter_Permutation_bool, triples_app.
Qed.

(** ** What the parameter check reports *)

Lemma elem_of_qualifiedNames pkgName names k :
  k ∈ qualifiedNames pkgName names ↔
  ∃ name, name ∈ names ∧ (k = name ∨ k = pkgName +:+ "." +:+ name).
Proof.
  unfold qualifiedNames. rewrite list_elem_of_bind. split.
  - intros (name & Hk & Hname). exists name. split; [done|].
    apply elem_of_cons in Hk as [->|Hk]; [by left|].
    apply list_elem_of_singleton in Hk as ->. by right.
  - intros (name & Hname & [->| ->]); exists name; (split; [|done]).
    + by left.
    + right. by left.
Qed.

Lemma elem_of_interfaceKeys a k :
  k ∈ map_to_list (Packages a) ≫= interfaceKeys ↔ declaresInterface a k.
Proof.
  rewrite list_elem_of_bind. unfold declaresInterface, interfaceKeys. split.
  - intros ([path pkg] & (name & Hname & Hk)%elem_of_qualifiedNames & Hpkg%elem_of_map_to_list).
    apply list_elem_of_fmap in Hname as ([name' i] & -> & Hi%elem_of_map_to_list).
    exists path, pkg, name'. simpl in *. split; [done|]. split; [by eexists|done].
  - intros (path & pkg & name & Hpkg & [i Hi] & Hk). exists (path, pkg).
    split; [|by apply elem_of_map_to_list].
    apply elem_of_qualifiedNames. exists name. split; [|done].
    apply list_elem_of_fmap. exists (name, i). split; [done|]. by apply elem_of_map_to_list.
Qed.

Lemma elem_of_structKeys a k :
  k ∈ map_to_list (Packages a) ≫= structKeys ↔ declaresStruct a k.
Proof.
  rewrite list_elem_of_bind. unfold declaresStruct, structKeys. split.
  - intros ([path pkg] & (name & Hname & Hk)%elem_of_qualifiedNames & Hpkg%elem_of_map_to_list).
    apply list_elem_of_fmap in Hname as ([name' i] & -> & Hi%elem_of_map_to_list).
    exists path, pkg, name'. simpl in *. split; [done|]. split; [by eexists|done].
  - intros (path & pkg & name & Hpkg & [i Hi] & Hk). exists (path, pkg).
    split; [|by apply elem_of_map_to_list].
    apply elem_of_qualifiedNames. exists name. split; [|done].
    apply list_elem_of_fmap. exists (name, i). split; [done|]. by apply elem_of_map_to_list.
Qed.

Lemma index_gset_to_gmap (keys : list string) k :
  index (gset_to_gmap true (list_to_set keys)) k = true ↔ k ∈ keys.
Proof.
  unfold index. rewrite lookup_gset_to_gmap.
  destruct (decide (k ∈ keys)) as [Hin|Hnot].
  - rewrite option_guard_True by (by apply elem_of_list_to_set). done.
  - rewrite option_guard_False by (by rewrite elem_of_list_to_set). done.
Qed.

(** The lookup tables answer for the declared names. *)
Lemma index_tables a k :
  (index (interfaceTable a) k = true ↔ declaresInterface a k)
  ∧ (index (structTable a) k = true ↔ declaresStruct a k).
Proof.
  unfold interfaceTable, structTable.
  by rewrite !index_gset_to_gmap, elem_of_interfaceKeys, elem_of_structKeys.
Qed.

Lemma elem_of_CheckMethodParameters_param a rule s m p v :
  v ∈ CheckMethodParameters_param (interfaceTable a) (structTable a) rule s m [] p ↔
  Parameter_Type p ≠ EmptyString
  ∧ isPrimitiveType (Parameter_Type p) = false
  ∧ MatchString (PR_parameterTypePatternRegex rule) (pointee (Parameter_Type p)) = true
  ∧ ((ShouldUseInterface rule = true
      ∧ declaresStruct a (pointee (Parameter_Type p))
      ∧ ¬ declaresInterface a (pointee (Parameter_Type p))
      ∧ v = structParameterViolation m s (pointee (Parameter_Type p)))
     ∨ (ShouldUseInterface rule = false
        ∧ declaresInterface a (pointee (Parameter_Type p))
        ∧ ¬ declaresStruct a (pointee (Parameter_Type p))
        ∧ v = interfaceParameterViolation m s (pointee (Parameter_Type p)))).
Proof.
  unfold CheckMethodParameters_param. fold (pointee (Parameter_Type p)).
  destruct (index_tables a (pointee (Parameter_Type p))) as [Hi Hs].
  destruct (String.eqb_spec (Parameter_Type p) "") as [Hempty|Hne].
  { simpl. split; [by intros ?%elem_of_nil|]. by intros [? _]. }
  destruct (isPrimitiveType (Parameter_Type p)).
  { simpl. split; [by intros ?%elem_of_nil|]. by intros (_ & ? & _). }
  simpl.
  destruct (MatchString (PR_parameterTypePatternRegex rule) (pointee (Parameter_Type p))).
  2:{ simpl. split; [by intros ?%elem_of_nil|]. by intros (_ & _ & ? & _). }
  simpl.
  destruct (index (interfaceTable a) (pointee (Parameter_Type p))) eqn:Ei,
           (index (structTable a) (pointee (Parameter_Type p))) eqn:Es,
           (ShouldUseInterface rule); simpl.
  all: rewrite ?list_elem_of_singleton.
  all: split; [try (by intros ?%elem_of_nil)|].
  all: try (intros (_ & _ & _ & [(? & ? & ? & ?)|(? & ? & ? & ?)]); try done;
            try (exfalso; tauto); fail).
  all: try (intros ->; repeat split; try done).
  all: try (intros (_ & _ & _ & [(? & Hd & ? & ?)|(? & Hd & ? & ?)]); try done;
            try (apply Hs in Hd; done); try (apply Hi in Hd; done); fail).
  - right. repeat split; try done; [by apply Hi|]. intros ?%Hs. done.
  - left. repeat split; try done; [by apply Hs|]. intros ?%Hi. done.
Qed.

Lemma elem_of_parameterViolations a rule v :
  v ∈ parameterViolations a rule ↔ misusedParameter a rule v.
Proof.
  unfold parameterViolations, misusedParameter. rewrite list_elem_of_bind. split.
  - intros ([path pkg] & Hv & Hpkg%elem_of_map_to_list).
    apply list_elem_of_bind in Hv as (s & Hv & Hs). simpl in Hs.
    apply list_elem_of_fmap in Hs as ([key s'] & -> & Hs%elem_of_map_to_list).
    unfold CheckMethodParameters_struct in Hv. simpl in Hv.
    destruct (MatchString (PR_structPatternRegex rule) (Struct_Name s')) eqn:Hsm;
      [|by apply elem_of_nil in Hv].
    simpl in Hv.
    rewrite (foldl_append _ (CheckMethodParameters_method _ _ rule s' []))
      in Hv by apply CheckMethodParameters_method_app.
    simpl in Hv. apply list_elem_of_bind in Hv as (m & Hv & Hm).
    unfold CheckMethodParameters_method in Hv.
    destruct (MatchString (PR_methodPatternRegex rule) (Method_Name m)) eqn:Hmm;
      [|by apply elem_of_nil in Hv].
    simpl in Hv.
    rewrite (foldl_append _ (CheckMethodParameters_param _ _ rule s' m []))
      in Hv by (intros; apply CheckMethodParameters_param_app).
    simpl in Hv. apply list_elem_of_bind in Hv as (p & Hv & Hp).
    apply elem_of_CheckMethodParameters_param in Hv as (H1 & H2 & H3 & H4).
    by exists path, pkg, key, s', m, p.
  - intros (path & pkg & key & s & m & p & Hpkg & Hs & Hsm & Hm & Hmm & Hp & H1 & H2 & H3 & H4).
    exists (path, pkg). split; [|by apply elem_of_map_to_list].
    apply list_elem_of_bind. exists s. split.
    2:{ simpl. apply list_elem_of_fmap. exists (key, s). split; [done|].
        by apply elem_of_map_to_list. }
    unfold CheckMethodParameters_struct. rewrite Hsm. simpl.
    rewrite (foldl_append _ (CheckMethodParameters_method _ _ rule s []))
      by apply CheckMethodParameters_method_app.
    simpl. apply list_elem_of_bind. exists m. split; [|done].
    unfold CheckMethodParameters_method. rewrite Hmm. simpl.
    rewrite (foldl_append _ (CheckMethodParameters_param _ _ rule s m []))
      by (intros; apply CheckMethodParameters_param_app).
    simpl. apply list_elem_of_bind. exists p. split; [|done].
    by apply elem_of_CheckMethodParameters_param.
Qed.

Lemma elem_of_concat_Forall2 {A : Type} (canon : A → list string) xs news v :
  Forall2 (λ x new, new ≡ₚ canon x) xs news →
  v ∈ concat news ↔ ∃ x, x ∈ xs ∧ v ∈ canon x.
Proof.
  induction 1 as [|x new xs news Hnew _ IH]; simpl.
  - split; [by intros ?%elem_of_nil|]. by intros (? & ?%elem_of_nil & _).
  - rewrite elem_of_app, IH, Hnew. split.
    + intros [Hv|(y & Hy & Hv)]; [exists x|exists y]; (split; [|done]); [by left|by right].
    + intros (y & [->|Hy]%elem_of_cons & Hv); [by left|right; by exists y].
Qed.

(** X16. What [CheckMethodParameters] reports: a message is among the
    violations exactly when, for one of the rules, some package declares a
    struct whose name matches the struct pattern, with a method whose name
    matches the method pattern, with a parameter of a type that is not
    empty and not primitive and whose text, without one leading [*], matches
    the parameter pattern, where that text names a declared struct and no
    declared interface (for a rule that asks for interfaces) or a declared
    interface and no declared struct (for a rule that asks for structs).
    A text names a declaration of any package by its simple name, or by
    package name, dot and simple name. *)
Theorem CheckMethodParameters_reports_misused_parameters (a : Architecture)
    (rules : list ParameterRule) (violations : list string) (violation : string) :
  violations ∈ CheckMethodParameters a rules →
  violation ∈ violations ↔ ∃ rule, rule ∈ rules ∧ misusedParameter a rule violation.
Proof.
  intros (perRule & -> & Hper)%CheckMethodParameters_rules.
  rewrite (elem_of_concat_Forall2 _ _ _ _ Hper).
  split; intros (rule & Hrule & Hv); exists rule; (split; [done|]);
    by apply elem_of_parameterViolations.
Qed.

(** The service of the example takes a [LoggerService], a struct, where the
    rule asks for an interface: the check reports it. *)
Lemma CheckMethodParameters_reports_misused_parameters_witness :
  ∃ violations,
    violations ∈ CheckMethodParameters (services "LoggerService") [interfaceParameters]
    ∧ structParameterViolation (method "UpdateFrom" [("other", "LoggerService")] "")
        (loggerService "LoggerService") "LoggerService" ∈ violations.
Proof.
  destruct (CheckMethodParameters_returns (services "LoggerService") [interfaceParameters])
    as [violations Hin].
  exists violations. split; [exact Hin|].
  apply (CheckMethodParameters_reports_misused_parameters _ _ _ _ Hin).
  exists interfaceParameters. split; [by left|].
  exists "application",
    {| Package_Name := "application"; Package_Path := "application"; Imports := [];
       Structs := {[ "LoggerService" := loggerService "LoggerService" ]};
       Interfaces := ∅; ImportedPkgs := ∅ |},
    "LoggerService", (loggerService "LoggerService"),
    (method "UpdateFrom" [("other", "LoggerService")] ""),
    {| Parameter_Name := "other"; Parameter_Type := "LoggerService" |}.
  split; [reflexivity|]. split; [reflexivity|]. split; [vm_compute; reflexivity|].
  split; [by left|]. split; [vm_compute; reflexivity|]. split; [by left|].
  split; [done|]. split; [vm_compute; reflexivity|]. split; [vm_compute; reflexivity|].
  left. split; [reflexivity|]. split; [|split; [|reflexivity]].
  - exists "application",
      {| Package_Name := "application"; Package_Path := "application"; Imports := [];
         Structs := {[ "LoggerService" := loggerService "LoggerService" ]};
         Interfaces := ∅; ImportedPkgs := ∅ |}, "LoggerService".
    split; [reflexivity|]. split; [by eexists|by left].
  - intros (path & pkg & name & Hpkg & [i Hi] & _).
    unfold services in Hpkg. simpl in Hpkg.
    apply lookup_singleton_Some in Hpkg as [_ <-]. simpl in Hi.
    by rewrite lookup_empty in Hi.
Defined.

(** X17. [Layer.DoesNotDependOn] for a layer with literal package patterns:
    unless the target pattern fails to compile, the result is a disallow
    rule with that target pattern whose source pattern matches the paths
    that are, or end in [/] followed by, a path of the layer - and every
    path when the layer has no package pattern. *)
Theorem Layer_DoesNotDependOn_literal_layer (l : Layer) (arch : Architecture)
    (targetPattern : string) :
  literalLayer l →
  match Compile targetPattern with
  | None =>
      Layer_DoesNotDependOn l (Some arch) targetPattern = inl (RuleError InvalidTargetPattern)
  | Some targetRegex =>
      ∃ rule,
        Layer_DoesNotDependOn l (Some arch) targetPattern = inr rule
        ∧ AllowedImports rule = false
        ∧ SourcePattern rule = endingWithAny (Layer_Packages l)
        ∧ TargetPattern rule = targetPattern
        ∧ targetPatternRegex rule = targetRegex
        ∧ ∀ path, MatchString (sourcePatternRegex rule) path = matchedByLayerRule l path
  end.
Proof.
  intros Hl. unfold Layer_DoesNotDependOn, NewDependencyRule.
  rewrite (Compile_endingWithAny _ Hl).
  destruct (Compile targetPattern) as [targetRegex|]; [|done].
  eexists. split; [reflexivity|]. simpl.
  repeat split; try done. intros path. apply MatchString_endingWithAny.
Qed.

(** The rule of the layer test: [Domain] does not depend on
    [^(application|infrastructure|presentation)$]; and a layer value
    without package patterns, whose rule has the empty source pattern. *)
Lemma Layer_DoesNotDependOn_literal_layer_witness :
  (∃ rule,
     Layer_DoesNotDependOn (layer "Domain" "^domain$") (Some exampleProject)
       "^(application|infrastructure|presentation)$" = inr rule
     ∧ SourcePattern rule = "(^|/)domain$"
     ∧ MatchString (sourcePatternRegex rule) "example_project/domain" = true)
  ∧ (∃ rule,
       Layer_DoesNotDependOn {| Layer_Name := "Empty"; Layer_Packages := []; patterns := [] |}
         (Some exampleProject) "^utils$" = inr rule
       ∧ SourcePattern rule = EmptyString
       ∧ MatchString (sourcePatternRegex rule) "any/path" = true).
Proof.
  split.
  - pose proof (Layer_DoesNotDependOn_literal_layer (layer "Domain" "^domain$")
                  exampleProject "^(application|infrastructure|presentation)$") as H.
    destruct (Compile "^(application|infrastructure|presentation)$") as [re|] eqn:Hre;
      [|vm_compute in Hre; discriminate].
    destruct H as (rule & Hrule & _ & Hs & _ & _ & Hm); [repeat constructor|].
    exists rule. split; [exact Hrule|]. split; [exact Hs|]. rewrite Hm.
    vm_compute. reflexivity.
  - pose proof (Layer_DoesNotDependOn_literal_layer
                  {| Layer_Name := "Empty"; Layer_Packages := []; patterns := [] |}
                  exampleProject "^utils$") as H.
    destruct (Compile "^utils$") as [re|] eqn:Hre; [|vm_compute in Hre; discriminate].
    destruct H as (rule & Hrule & _ & Hs & _ & _ & Hm); [constructor|].
    exists rule. split; [exact Hrule|]. split; [exact Hs|]. rewrite Hm. reflexivity.
Defined.

(** ** Package [regexp]: a pattern followed by more text *)

Section parse_append.
Variable rest : string.
Hypothesis rest_stops :
  ∃ c rest', rest = String c rest' ∧ (c = "|"%char ∨ c = ")"%char).

Lemma append_cons c s t : String c s +:+ t = String c (s +:+ t).
Proof. done. Qed.

Lemma parseEscape_append s e t :
  parseEscape s = Some (e, t) → parseEscape (s +:+ rest) = Some (e, t +:+ rest).
Proof.
  destruct s as [|c s]; [done|]. rewrite append_cons. unfold parseEscape.
  repeat match goal with |- context [if ?b then _ else _] => destruct b end;
    try done; intros; by simplify_eq.
Qed.

Lemma parseClassChar_append s lo t :
  parseClassChar s = Some (lo, t) → parseClassChar (s +:+ rest) = Some (lo, t +:+ rest).
Proof.
  destruct s as [|c s]; [done|]. rewrite append_cons. unfold parseClassChar.
  destruct (Ascii.eqb c "\"); [apply parseEscape_append|].
  destruct (isASCII c); [|done]. intros; by simplify_eq.
Qed.

Lemma parseClassItems_empty fuel first acc : parseClassItems fuel first "" acc = None.
Proof. by destruct fuel. Qed.

Lemma HasPrefix_rest_colon : GoStrings.HasPrefix rest ":" = false.
Proof. destruct rest_stops as (c & rest' & -> & [-> | ->]); reflexivity. Qed.

Lemma parseClassItems_S fuel first s acc :
  parseClassItems (S fuel) first s acc =
  match s with
  | EmptyString => None
  | String c rest =>
      if Ascii.eqb c "]" && negb first then Some (acc, rest)
      else if Ascii.eqb c "[" && GoStrings.HasPrefix rest ":" then None
      else
        match (if Ascii.eqb c "\" then
                 match rest with
                 | String k rest' => option_map (fun rs => (rs, rest')) (perlClass k)
                 | EmptyString => None
                 end
               else None) with
        | Some (rs, rest') => parseClassItems fuel false rest' (acc ++ rs)
        | None =>
            match parseClassChar s with
            | None => None
            | Some (lo, t) =>
                match t with
                | String d (String e t') =>
                    if Ascii.eqb d "-" && negb (Ascii.eqb e "]") then
                      match parseClassChar (String e t') with
                      | None => None
                      | Some (hi, t'') =>
                          if byteLe lo hi
                          then parseClassItems fuel false t'' (acc ++ [(lo, hi)])
                          else None
                      end
                    else parseClassItems fuel false t (acc ++ [(lo, lo)])
                | _ => parseClassItems fuel false t (acc ++ [(lo, lo)])
                end
            end
        end
  end.
Proof. reflexivity. Qed.

(** A class item that is a single byte or a range, and the items after it. *)
Lemma parseClassItems_range fuel fuel' lo t1 acc rs t :
  (∀ first s acc rs t,
     parseClassItems fuel first s acc = Some (rs, t) →
     parseClassItems fuel' first (s +:+ rest) acc = Some (rs, t +:+ rest)) →
  match t1 with
  | String d (String e t') =>
      if Ascii.eqb d "-" && negb (Ascii.eqb e "]")
      then match parseClassChar (String e t') with
           | None => None
           | Some (hi, t'') =>
               if byteLe lo hi
               then parseClassItems fuel false t'' (acc ++ [(lo, hi)]) else None
           end
      else parseClassItems fuel false t1 (acc ++ [(lo, lo)])
  | _ => parseClassItems fuel false t1 (acc ++ [(lo, lo)])
  end = Some (rs, t) →
  match t1 +:+ rest with
  | String d (String e t') =>
      if Ascii.eqb d "-" && negb (Ascii.eqb e "]")
      then match parseClassChar (String e t') with
           | None => None
           | Some (hi, t'') =>
               if byteLe lo hi
               then parseClassItems fuel' false t'' (acc ++ [(lo, hi)]) else None
           end
      else parseClassItems fuel' false (t1 +:+ rest) (acc ++ [(lo, lo)])
  | _ => parseClassItems fuel' false (t1 +:+ rest) (acc ++ [(lo, lo)])
  end = Some (rs, t +:+ rest).
Proof.
  intros IH H. destruct t1 as [|d [|e t']].
  - by rewrite parseClassItems_empty in H.
  - (* one byte left: it closes the class *)
    destruct (Ascii.eqb d "-") eqn:Hd.
    { exfalso. apply Ascii.eqb_eq in Hd as ->.
      destruct fuel as [|fuel]; [done|]. rewrite parseClassItems_S in H.
      change (Ascii.eqb "-" "]" && negb false) with false in H.
      change (Ascii.eqb "-" "[" && GoStrings.HasPrefix "" ":") with false in H.
      change (Ascii.eqb "-" "\") with false in H. cbv iota in H.
      change (parseClassChar "-") with (Some ("-"%char, EmptyString)) in H. cbv iota in H.
      by rewrite parseClassItems_empty in H. }
    apply IH in H. rewrite !append_cons in *.
    destruct rest as [|k rest']; [done|].
    change ("" +:+ String k rest') with (String k rest') in *.
    by rewrite Hd.
  - rewrite !append_cons.
    destruct (Ascii.eqb d "-" && negb (Ascii.eqb e "]"));
      [|rewrite <- !append_cons; by apply IH].
    destruct (parseClassChar (String e t')) as [[hi t'']|] eqn:Hhi; [|done].
    rewrite <- append_cons, (parseClassChar_append _ _ _ Hhi).
    destruct (byteLe lo hi); [by apply IH|done].
Qed.

Lemma parseClassItems_append fuel :
  ∀ first s acc rs t fuel',
    parseClassItems fuel first s acc = Some (rs, t) → fuel ≤ fuel' →
    parseClassItems fuel' first (s +:+ rest) acc = Some (rs, t +:+ rest).
Proof.
  induction fuel as [|fuel IH]; intros first s acc rs t fuel' H Hle; [done|].
  destruct fuel' as [|fuel']; [lia|]. apply le_S_n in Hle.
  destruct s as [|c s]; [done|]. rewrite append_cons.
  rewrite parseClassItems_S in H |- *.
  destruct (Ascii.eqb c "]" && negb first); [intros; by simplify_eq|].
  assert (GoStrings.HasPrefix (s +:+ rest) ":" = GoStrings.HasPrefix s ":") as ->.
  { destruct s as [|d s]; [apply HasPrefix_rest_colon|done]. }
  destruct (Ascii.eqb c "[" && GoStrings.HasPrefix s ":"); [done|].
  assert (∀ lo t1, parseClassChar (String c s) = Some (lo, t1) →
            match t1 with
            | String d (String e t') =>
                if Ascii.eqb d "-" && negb (Ascii.eqb e "]")
                then match parseClassChar (String e t') with
                     | None => None
                     | Some (hi, t'') =>
                         if byteLe lo hi
                         then parseClassItems fuel false t'' (acc ++ [(lo, hi)]) else None
                     end
                else parseClassItems fuel false t1 (acc ++ [(lo, lo)])
            | _ => parseClassItems fuel false t1 (acc ++ [(lo, lo)])
            end = Some (rs, t) →
            match parseClassChar (String c (s +:+ rest)) with
            | None => None
            | Some (lo, t) =>
                match t with
                | String d (String e t') =>
                    if Ascii.eqb d "-" && negb (Ascii.eqb e "]") then
                      match parseClassChar (String e t') with
                      | None => None
                      | Some (hi, t'') =>
                          if byteLe lo hi
                          then parseClassItems fuel' false t'' (acc ++ [(lo, hi)])
                          else None
                      end
                    else parseClassItems fuel' false t (acc ++ [(lo, lo)])
                | _ => parseClassItems fuel' false t (acc ++ [(lo, lo)])
                end
            end = Some (rs, t +:+ rest)) as Hchar.
  { intros lo t1 Hlo Hstep.
    rewrite <- append_cons, (parseClassChar_append _ _ _ Hlo).
    apply (parseClassItems_range fuel fuel'); [|done].
    intros. by apply IH. }
  destruct (Ascii.eqb c "\") eqn:Hc.
  - destruct s as [|k s].
    + exfalso. apply Ascii.eqb_eq in Hc as ->. done.
    + rewrite append_cons.
      destruct (perlClass k) as [ranges|] eqn:Hk; simpl option_map in H |- *; cbv iota in H |- *.
      { by apply IH. }
      rewrite <- append_cons.
      destruct (parseClassChar (String c (String k s))) as [[lo t1]|] eqn:Hlo; [|done].
      rewrite append_cons. by apply (Hchar lo t1).
  - destruct (parseClassChar (String c s)) as [[lo t1]|] eqn:Hlo; [|done].
    by apply (Hchar lo t1).
Qed.

Lemma rest_first :
  ∃ c rest', rest = String c rest' ∧ isRepeatOp c = false ∧ Ascii.eqb c "?" = false
             ∧ (Ascii.eqb c "|" || Ascii.eqb c ")") = true.
Proof.
  destruct rest_stops as (c & rest' & -> & [-> | ->]); eexists _, _; by repeat split.
Qed.

Lemma parseRepeat_append a t a' t' :
  parseRepeat a t = Some (a', t') → parseRepeat a (t +:+ rest) = Some (a', t' +:+ rest).
Proof.
  destruct rest_first as (c & rest' & Hrest & Hop & Hq & _).
  unfold parseRepeat. destruct t as [|op t1].
  - intros [= <- <-]. change ("" +:+ rest) with rest. rewrite !Hrest. by rewrite Hop.
  - rewrite append_cons. destruct (isRepeatOp op); [|intros; by simplify_eq].
    destruct t1 as [|q t2].
    + intros [= <- <-]. change ("" +:+ rest) with rest. rewrite !Hrest.
      by rewrite Hq, Hop.
    + rewrite append_cons. destruct (Ascii.eqb q "?").
      * destruct t2 as [|n t3].
        -- intros [= <- <-]. change ("" +:+ rest) with rest. rewrite !Hrest.
           by rewrite Hop.
        -- rewrite append_cons. destruct (isRepeatOp n); [done|]. intros; by simplify_eq.
      * destruct (isRepeatOp q); [done|]. intros; by simplify_eq.
Qed.

Lemma groupBody_append s body :
  groupBody s = Some body → groupBody (s +:+ rest) = Some (body +:+ rest).
Proof.
  destruct rest_first as (c & rest' & Hrest & _ & Hq & _).
  unfold groupBody. destruct s as [|q t].
  - intros [= <-]. change ("" +:+ rest) with rest. rewrite !Hrest. by rewrite Hq.
  - rewrite append_cons. destruct (Ascii.eqb q "?"); [|intros; by simplify_eq].
    destruct t as [|k t']; [done|]. rewrite append_cons.
    destruct (Ascii.eqb k ":"); [|done]. intros; by simplify_eq.
Qed.

Lemma parseSimpleAtom_append c s a t :
  parseSimpleAtom c s = Some (a, t) →
  parseSimpleAtom c (s +:+ rest) = Some (a, t +:+ rest).
Proof.
  unfold parseSimpleAtom.
  destruct (Ascii.eqb c "[").
  { assert (∀ neg items,
              match parseClassItems (S (String.length items)) true items [] with
              | Some (rs, t) => Some (CharClass neg rs, t)
              | None => None
              end = Some (a, t) →
              match parseClassItems (S (String.length (items +:+ rest))) true
                                    (items +:+ rest) [] with
              | Some (rs, t) => Some (CharClass neg rs, t)
              | None => None
              end = Some (a, t +:+ rest)) as Hitems.
    { intros neg items H.
      destruct (parseClassItems (S (String.length items)) true items []) as [[rs t0]|] eqn:Hc;
        [|done].
      rewrite (parseClassItems_append _ _ _ _ _ _ (S (String.length (items +:+ rest))) Hc).
      - intros; by simplify_eq.
      - rewrite length_append. lia. }
    destruct s as [|q t0].
    - intros H. exfalso. revert H. by rewrite parseClassItems_S.
    - rewrite append_cons. destruct (Ascii.eqb q "^"); [apply Hitems|].
      rewrite <- append_cons. apply Hitems. }
  destruct (Ascii.eqb c "."); [intros; by simplify_eq|].
  destruct (Ascii.eqb c "^"); [intros; by simplify_eq|].
  destruct (Ascii.eqb c "$"); [intros; by simplify_eq|].
  destruct (Ascii.eqb c "\").
  { destruct s as [|k t0]; [done|]. rewrite append_cons.
    destruct (perlClass k); [intros; by simplify_eq|].
    destruct (parseEscape (String k t0)) as [[e t1]|] eqn:He; [|done].
    rewrite <- append_cons, (parseEscape_append _ _ _ He). intros; by simplify_eq. }
  destruct (isRepeatOp c || Ascii.eqb c "{" || Ascii.eqb c ")" || Ascii.eqb c "|"); [done|].
  destruct (isASCII c); [|done]. intros; by simplify_eq.
Qed.

(** A parse that stops in front of the end of the pattern stops at the
    same place when more text follows. *)
Lemma parse_append fuel :
  (∀ s r t, parseAlternation fuel s = Some (r, t) → t ≠ EmptyString →
            parseAlternation fuel (s +:+ rest) = Some (r, t +:+ rest)) ∧
  (∀ s r t, parseSequence fuel s = Some (r, t) →
            parseSequence fuel (s +:+ rest) = Some (r, t +:+ rest)) ∧
  (∀ s r t, parseAtom fuel s = Some (r, t) →
            parseAtom fuel (s +:+ rest) = Some (r, t +:+ rest)).
Proof.
  destruct rest_first as (c0 & rest' & Hrest & _ & _ & Hstop).
  induction fuel as [|fuel (IHa & IHs & IHt)]; [by repeat split|].
  split; [|split]; intros s r t H.
  - intros Ht. rewrite parseAlternation_S in H |- *.
    destruct (parseSequence fuel s) as [[r1 rest1]|] eqn:E; [|done].
    rewrite (IHs _ _ _ E).
    destruct rest1 as [|c rest1']; [by simplify_eq|]. rewrite append_cons.
    destruct (Ascii.eqb c "|"); [|intros; by simplify_eq].
    destruct (parseAlternation fuel rest1') as [[r2 rest2]|] eqn:E2; [|done].
    injection H as <- <-. by rewrite (IHa _ _ _ E2 Ht).
  - rewrite parseSequence_S in H |- *.
    destruct s as [|c s'].
    + injection H as <- <-. change ("" +:+ rest) with rest. rewrite !Hrest.
      by rewrite Hstop.
    + rewrite append_cons.
      destruct (Ascii.eqb c "|" || Ascii.eqb c ")"); [intros; by simplify_eq|].
      destruct (parseAtom fuel (String c s')) as [[a rest1]|] eqn:E; [|done].
      rewrite <- append_cons, (IHt _ _ _ E).
      destruct (parseRepeat a rest1) as [[a' rest2]|] eqn:E2; [|done].
      rewrite (parseRepeat_append _ _ _ _ E2).
      destruct (parseSequence fuel rest2) as [[r' rest3]|] eqn:E3; [|done].
      rewrite (IHs _ _ _ E3). intros; by simplify_eq.
  - rewrite parseAtom_S in H |- *.
    destruct s as [|c s']; [done|]. rewrite append_cons.
    destruct (Ascii.eqb c "("); [|by apply parseSimpleAtom_append].
    destruct (groupBody s') as [body|] eqn:Eb; [|done].
    rewrite (groupBody_append _ _ Eb).
    destruct (parseAlternation fuel body) as [[r' [|k t']]|] eqn:E; [done| |done].
    rewrite (IHa _ _ _ E) by done. rewrite append_cons.
    destruct (Ascii.eqb k ")"); [|done]. intros; by simplify_eq.
Qed.

End parse_append.
(** ** The pattern of a layer-scoped rule *)

Lemma Compile_sequence pattern r :
  Compile pattern = Some r → isAlternate r = false →
  parseSequence (3 * String.length pattern + 2) pattern = Some (r, EmptyString).
Proof.
  unfold Compile.
  replace (3 * String.length pattern + 3) with (S (3 * String.length pattern + 2)) by lia.
  rewrite parseAlternation_S.
  destruct (parseSequence _ pattern) as [[r1 rest1]|]; [|done].
  destruct rest1 as [|c rest1']; [intros; by simplify_eq|].
  destruct (Ascii.eqb c "|").
  - destruct (parseAlternation _ rest1') as [[r2 [|? ?]]|]; try done.
    intros [= <-]. done.
  - done.
Qed.

Lemma parseSimpleAtom_repeatOp c s : isRepeatOp c = true → parseSimpleAtom c s = None.
Proof.
  unfold isRepeatOp. intros H.
  apply orb_true_iff in H as [H|H]; [apply orb_true_iff in H as [H|H]|];
    apply Ascii.eqb_eq in H as ->; reflexivity.
Qed.

Lemma parseSequence_noRepeatAhead fuel s r t :
  parseSequence fuel s = Some (r, t) → noRepeatAhead s = true.
Proof.
  destruct fuel as [|fuel]; [done|]. rewrite parseSequence_S.
  destruct s as [|c s]; [done|]. simpl.
  destruct (isRepeatOp c) eqn:Hop; [|done]. intros H. exfalso.
  assert (Ascii.eqb c "|" || Ascii.eqb c ")" = false) as Hstop.
  { unfold isRepeatOp in Hop.
    apply orb_true_iff in Hop as [Hop|Hop]; [apply orb_true_iff in Hop as [Hop|Hop]|];
      apply Ascii.eqb_eq in Hop as ->; reflexivity. }
  rewrite Hstop in H.
  destruct fuel as [|fuel]; [done|]. rewrite parseAtom_S in H.
  assert (Ascii.eqb c "(" = false) as Hparen.
  { unfold isRepeatOp in Hop.
    apply orb_true_iff in Hop as [Hop|Hop]; [apply orb_true_iff in Hop as [Hop|Hop]|];
      apply Ascii.eqb_eq in Hop as ->; reflexivity. }
  by rewrite Hparen, parseSimpleAtom_repeatOp in H.
Qed.

Lemma parseSequence_scoped f pattern r rest fuel0 fuel :
  plain f = true →
  parseSequence fuel0 pattern = Some (r, EmptyString) →
  (∃ c rest', rest = String c rest' ∧ (c = "|"%char ∨ c = ")"%char)) →
  fuel0 + String.length f + 3 ≤ fuel →
  parseSequence fuel ("^" +:+ f +:+ "\." +:+ pattern +:+ rest)
  = Some (scopedRegexp f r, rest).
Proof.
  intros Hf Hpattern Hrest Hfuel.
  apply (parseSequence_fuel_le (S (String.length f + S (S fuel0)))); [lia|].
  assert (noRepeatAhead (pattern +:+ rest) = true) as Hahead.
  { destruct pattern as [|c pattern].
    - destruct Hrest as (c & rest' & -> & [-> | ->]); reflexivity.
    - by apply parseSequence_noRepeatAhead in Hpattern. }
  assert (parseSequence (S (S fuel0)) ("\." +:+ pattern +:+ rest)
          = Some (Concat (Literal ".") r, rest)) as Htail.
  { rewrite parseSequence_S.
    change ("\." +:+ pattern +:+ rest) with (String "\" (String "." (pattern +:+ rest))).
    cbv iota. change (Ascii.eqb "\" "|" || Ascii.eqb "\" ")") with false. cbv iota.
    rewrite parseAtom_S. change (Ascii.eqb "\" "(") with false. cbv iota.
    change (parseSimpleAtom "\" (String "." (pattern +:+ rest)))
      with (Some (Literal ".", pattern +:+ rest)).
    cbv iota. rewrite parseRepeat_none by done.
    pose proof (proj1 (proj2 (parse_append rest Hrest fuel0)) _ _ _ Hpattern) as H.
    change ("" +:+ rest) with rest in H.
    apply (parseSequence_fuel_le _ (S fuel0)) in H; [|lia]. by rewrite H. }
  rewrite parseSequence_S.
  change ("^" +:+ f +:+ "\." +:+ pattern +:+ rest)
    with (String "^" (f +:+ "\." +:+ pattern +:+ rest)).
  cbv iota. change (Ascii.eqb "^" "|" || Ascii.eqb "^" ")") with false. cbv iota.
  replace (String.length f + S (S fuel0)) with (S (String.length f + S fuel0)) at 1 by lia.
  rewrite parseAtom_S. change (Ascii.eqb "^" "(") with false. cbv iota.
  change (parseSimpleAtom "^" (f +:+ "\." +:+ pattern +:+ rest))
    with (Some (BeginText, f +:+ "\." +:+ pattern +:+ rest)).
  cbv iota.
  rewrite parseRepeat_none by (by apply noRepeatAhead_plain).
  rewrite (parseSequence_plain f ("\." +:+ pattern +:+ rest) (S (S fuel0))
             (Concat (Literal ".") r) rest Hf eq_refl Htail).
  done.
Qed.

Lemma Join_scoped_cons (g : string → string) f1 f2 fs :
  GoStrings.Join (map g (f1 :: f2 :: fs)) "|"
  = g f1 +:+ "|" +:+ GoStrings.Join (map g (f2 :: fs)) "|".
Proof. done. Qed.

Lemma parseAlternation_scoped pattern r fuel0 tail fs fuel :
  parseSequence fuel0 pattern = Some (r, EmptyString) →
  fs ≠ [] → Forall (λ f, plain f = true) fs →
  length fs + fuel0 + 3 + sum_list_with String.length fs ≤ fuel →
  parseAlternation fuel
    (GoStrings.Join (map (λ f, "^" +:+ f +:+ "\." +:+ pattern) fs) "|" +:+ ")" +:+ tail)
  = Some (anyOf (map (λ f, scopedRegexp f r) fs), ")" +:+ tail).
Proof.
  intros Hpattern Hne Hall. revert fuel.
  induction Hall as [|f fs Hf Hall IH]; [done|]. intros fuel Hfuel.
  simpl in Hfuel. destruct fuel as [|fuel]; [lia|]. rewrite parseAlternation_S.
  destruct fs as [|g fs].
  - change (GoStrings.Join (map (λ f, "^" +:+ f +:+ "\." +:+ pattern) [f]) "|")
      with ("^" +:+ f +:+ "\." +:+ pattern).
    rewrite !append_assoc.
    rewrite (parseSequence_scoped f pattern r (")" +:+ tail) fuel0); [done|done|done| |].
    + eexists _, _. split; [reflexivity|by right].
    + simpl in Hfuel. lia.
  - rewrite Join_scoped_cons. cbv beta. rewrite !append_assoc.
    rewrite (parseSequence_scoped f pattern r _ fuel0); [|done|done| |].
    + change ("|" +:+ ?s) with (String "|" s). cbv iota.
      change (Ascii.eqb "|" "|") with true. cbv iota.
      rewrite IH; [done|done|]. simpl in Hfuel |- *. lia.
    + eexists _, _. split; [reflexivity|by left].
    + simpl in Hfuel. lia.
Qed.

Lemma length_Join_scoped pattern fs :
  fs ≠ [] →
  length fs + String.length pattern + sum_list_with String.length fs
  ≤ String.length (GoStrings.Join (map (λ f, "^" +:+ f +:+ "\." +:+ pattern) fs) "|").
Proof.
  assert (∀ f, String.length ("^" +:+ f +:+ "\." +:+ pattern)
               = String.length f + String.length pattern + 3) as Hlen.
  { intros f. change ("^" +:+ f +:+ "\." +:+ pattern) with (String "^" (f +:+ "\." +:+ pattern)).
    simpl String.length. rewrite length_append.
    change ("\." +:+ pattern) with (String "\" (String "." pattern)). simpl. lia. }
  induction fs as [|f fs IH]; [done|]. intros _. destruct fs as [|g fs].
  - change (GoStrings.Join (map (λ f, "^" +:+ f +:+ "\." +:+ pattern) [f]) "|")
      with ("^" +:+ f +:+ "\." +:+ pattern).
    rewrite Hlen. simpl. lia.
  - rewrite Join_scoped_cons. cbv beta. rewrite length_append, Hlen, length_append.
    specialize (IH ltac:(done)). simpl in IH |- *. lia.
Qed.

Lemma Compile_getScopedPattern l pattern r :
  literalLayer l →
  GoStrings.HasPrefix pattern "^" = false →
  Compile pattern = Some r → isAlternate r = false →
  Compile (getScopedPattern l pattern) = Some (scopedPatternRegexp l r).
Proof.
  intros Hl Hanchor Hr Halt. unfold getScopedPattern, scopedPatternRegexp.
  rewrite Hanchor. unfold literalLayer in Hl.
  destruct (Layer_Packages l) as [|pkg pkgs] eqn:Hpkgs; [reflexivity|].
  rewrite <- Hpkgs in *. 
  rewrite <- (map_map cleanPattern (λ f, "^" +:+ f +:+ "\." +:+ pattern)).
  rewrite <- (map_map cleanPattern (λ f, scopedRegexp f r)).
  assert (Forall (λ f, plain f = true) (map cleanPattern (Layer_Packages l))) as Hfs
    by (by apply Forall_fmap).
  assert (map cleanPattern (Layer_Packages l) ≠ []) as Hne by (by rewrite Hpkgs).
  clear Hl Hpkgs. revert Hfs Hne.
  generalize (map cleanPattern (Layer_Packages l)). intros fs Hl Hne.
  pose proof (Compile_sequence _ _ Hr Halt) as Hseq.
  pose proof (length_Join_scoped pattern fs Hne) as Hlen.
  set (J := GoStrings.Join (map (λ f, "^" +:+ f +:+ "\." +:+ pattern) fs) "|") in *.
  assert (∃ J', J = String "^" J') as [J' HJ].
  { unfold J. destruct fs as [|f [|g fs]]; [done| |]; by eexists. }
  unfold Compile.
  change ("(" +:+ J +:+ ")") with (String "(" (J +:+ ")")).
  simpl String.length. rewrite length_append. simpl (String.length ")").
  replace (3 * S (String.length J + 1) + 3)
    with (S (S (S (3 * String.length J + 6)))) by lia.
  rewrite parseAlternation_S, parseSequence_S. cbv iota.
  change (Ascii.eqb "(" "|" || Ascii.eqb "(" ")") with false. cbv iota.
  rewrite parseAtom_S. change (Ascii.eqb "(" "(") with true. cbv iota.
  assert (groupBody (J +:+ ")") = Some (J +:+ ")")) as ->.
  { rewrite HJ. reflexivity. }
  cbv iota.
  pose proof (parseAlternation_scoped pattern r _ EmptyString fs
                (3 * String.length J + 6) Hseq Hne Hl) as Hparse.
  change (")" +:+ "") with ")" in Hparse. fold J in Hparse. rewrite Hparse by lia.
  change (Ascii.eqb ")" ")") with true. cbv iota.
  reflexivity.
Qed.

Lemma Contains_drop n s x :
  GoStrings.Contains (GoStrings.drop n s) x = true → GoStrings.Contains s x = true.
Proof.
  revert s. induction n as [|n IH]; intros s; [done|].
  destruct s as [|c s]; [done|]. simpl GoStrings.drop. intros H%IH.
  simpl. rewrite H. apply orb_true_r.
Qed.

Lemma m_scopedRegexp_plain_name f r start s k :
  GoStrings.Contains s "." = false → m (scopedRegexp f r) start s k = false.
Proof.
  intros Hs. unfold scopedRegexp.
  change (m (Concat BeginText ?b) start s k) with (start && m b start s k).
  rewrite m_literals.
  destruct (GoStrings.drop (String.length f) s) as [|d s'] eqn:Hdrop.
  { simpl. by rewrite !andb_false_r. }
  change (m (Concat (Literal ".") r) ?st (String d s') k)
    with (Ascii.eqb "." d && m r false s' k).
  destruct (Ascii.eqb_spec "." d) as [<-|Hne]; [|by rewrite !andb_false_r].
  exfalso.
  assert (GoStrings.Contains s "." = true); [|congruence].
  apply (Contains_drop (String.length f)). rewrite Hdrop. reflexivity.
Qed.

Lemma m_anyOf_false alts start s k :
  alts ≠ [] → Forall (λ a, m a start s k = false) alts → m (anyOf alts) start s k = false.
Proof.
  intros Hne Hall. induction Hall as [|a alts Ha Hall IH]; [done|].
  destruct alts as [|b alts]; [done|].
  change (anyOf (a :: b :: alts)) with (Alternate a (anyOf (b :: alts))).
  change (m (Alternate ?x ?y) start s k) with (m x start s k || m y start s k).
  by rewrite Ha, IH.
Qed.

Lemma MatchString_scopedPatternRegexp l r name :
  Layer_Packages l ≠ [] → GoStrings.Contains name "." = false →
  MatchString (scopedPatternRegexp l r) name = false.
Proof.
  intros Hne. unfold MatchString, scopedPatternRegexp.
  assert (∀ start s, GoStrings.Contains s "." = false →
            m (Concat (anyOf (map (λ pkg, scopedRegexp (cleanPattern pkg) r)
                                  (Layer_Packages l))) EmptyMatch)
              start s (λ _ _, true) = false) as Hm.
  { intros start s Hs.
    change (m (Concat ?a ?b) start s ?k) with (m a start s (λ start' s', m b start' s' k)).
    apply m_anyOf_false; [by destruct (Layer_Packages l)|].
    apply Forall_forall. intros a (pkg & <- & _)%list_elem_of_In%in_map_iff.
    by apply m_scopedRegexp_plain_name. }
  intros Hname.
  assert (∀ start,
            search (Concat (anyOf (map (λ pkg, scopedRegexp (cleanPattern pkg) r)
                                       (Layer_Packages l))) EmptyMatch) start name
            = false) as Hsearch; [|apply Hsearch].
  induction name as [|c name IH]; intros start.
  - change (search ?re start "") with (m re start "" (λ _ _, true) || false).
    by rewrite Hm.
  - change (search ?re start (String c name))
      with (m re start (String c name) (λ _ _, true) || search re false name).
    rewrite Hm by done. simpl in Hname. apply orb_false_iff in Hname as [_ Hname].
    by rewrite IH.
Qed.



Lemma elem_of_allStructs a s :
  s ∈ allStructs a ↔
  ∃ path pkg key, Packages a !! path = Some pkg ∧ Structs pkg !! key = Some s.
Proof.
  unfold allStructs. rewrite list_elem_of_bind. split.
  - intros ([path pkg] & Hs & Hpkg%elem_of_map_to_list). simpl in Hs.
    apply list_elem_of_fmap in Hs as ([key s'] & -> & Hs%elem_of_map_to_list).
    by exists path, pkg, key.
  - intros (path & pkg & key & Hpkg & Hs). exists (path, pkg).
    split; [|by apply elem_of_map_to_list].
    simpl. apply list_elem_of_fmap. exists (key, s). split; [done|].
    by apply elem_of_map_to_list.
Qed.

Lemma ruleViolations_no_struct a rule :
  (∀ s, s ∈ allStructs a → MatchString (IIR_structPatternRegex rule) (Struct_Name s) = false) →
  ruleViolations a rule = [].
Proof.
  intros Hnone. unfold ruleViolations, unsatisfied, matchedStructs.
  rewrite (filter_none _ (allStructs a)); [by destruct (matchedInterfaces a rule)|].
  apply Forall_forall. intros s Hs. by apply Hnone.
Qed.

Lemma parameterViolations_no_struct a rule :
  (∀ s, s ∈ allStructs a → MatchString (PR_structPatternRegex rule) (Struct_Name s) = false) →
  parameterViolations a rule = [].
Proof.
  intros Hnone. destruct (parameterViolations a rule) as [|v rest] eqn:Hv; [done|].
  assert (v ∈ parameterViolations a rule) as Hin by (rewrite Hv; by left).
  apply elem_of_parameterViolations in Hin
    as (path & pkg & key & s & _ & _ & Hpkg & Hs & Hmatch & _).
  rewrite Hnone in Hmatch; [done|]. apply elem_of_allStructs. by exists path, pkg, key.
Qed.

(** X19. The layer-scoped rules are vacuous.  For a layer with literal
    package patterns, at least one, and a struct pattern that does not start
    with [^] and is no top-level alternation, the rules that
    [Layer.StructsImplementInterfaces], [Layer.MethodsShouldUseInterfaceParameters]
    and [Layer.MethodsShouldUseStructParameters] make are never violated in
    an architecture whose struct names contain no dot: the scoped pattern
    asks for a package path in front of the name, and the checks match it
    against the bare name. *)
Theorem layer_scoped_rules_report_nothing (l : Layer) (bound a : Architecture)
    (structPattern : string) (r : Regexp) :
  literalLayer l → Layer_Packages l ≠ [] →
  GoStrings.HasPrefix structPattern "^" = false →
  Compile structPattern = Some r → isAlternate r = false →
  structNamesPlain a →
  (∀ interfacePattern rule violations,
     Layer_StructsImplementInterfaces l (Some bound) structPattern interfacePattern
     = inr rule →
     violations ∈ CheckStructImplementsInterfaces a [rule] → violations = []) ∧
  (∀ methodPattern parameterTypePattern rule violations,
     Layer_MethodsShouldUseInterfaceParameters l (Some bound) structPattern methodPattern
       parameterTypePattern = inr rule
     ∨ Layer_MethodsShouldUseStructParameters l (Some bound) structPattern methodPattern
         parameterTypePattern = inr rule →
     violations ∈ CheckMethodParameters a [rule] → violations = []).
Proof.
  intros Hl Hne Hanchor Hr Halt Hnames.
  pose proof (Compile_getScopedPattern l structPattern r Hl Hanchor Hr Halt) as Hscoped.
  assert (∀ s, s ∈ allStructs a →
               MatchString (scopedPatternRegexp l r) (Struct_Name s) = false) as Hnone.
  { intros s (path & pkg & key & Hpkg & Hs)%elem_of_allStructs.
    apply MatchString_scopedPatternRegexp; [done|]. by eapply Hnames. }
  split.
  - intros interfacePattern rule violations Hrule Hin.
    assert (IIR_structPatternRegex rule = scopedPatternRegexp l r) as Hre.
    { unfold Layer_StructsImplementInterfaces, NewInterfaceImplementationRule in Hrule.
      rewrite Hscoped in Hrule.
      destruct (Compile interfacePattern); [|done]. by injection Hrule as <-. }
    apply CheckStructImplementsInterfaces_rules in Hin as (perRule & -> & Hper).
    inversion Hper as [|? new ? rest Hnew Hrest]; subst. inversion Hrest; subst.
    rewrite ruleViolations_no_struct in Hnew by (by rewrite Hre).
    apply Permutation_nil_r in Hnew as ->. done.
  - intros methodPattern parameterTypePattern rule violations Hrule Hin.
    assert (PR_structPatternRegex rule = scopedPatternRegexp l r) as Hre.
    { unfold Layer_MethodsShouldUseInterfaceParameters,
        Layer_MethodsShouldUseStructParameters, NewParameterRule in Hrule.
      rewrite Hscoped in Hrule.
      destruct (Compile methodPattern); [|by destruct Hrule].
      destruct (Compile parameterTypePattern); [|by destruct Hrule].
      by destruct Hrule as [Hrule|Hrule]; injection Hrule as <-. }
    apply CheckMethodParameters_rules in Hin as (perRule & -> & Hper).
    inversion Hper as [|? new ? rest Hnew Hrest]; subst. inversion Hrest; subst.
    rewrite parameterViolations_no_struct in Hnew by (by rewrite Hre).
    apply Permutation_nil_r in Hnew as ->. done.
Qed.

(** The repository that lacks [FindByID] violates the rule of the
    architecture; the rule of the infrastructure layer with the same two
    patterns reports nothing. *)
Lemma layer_scoped_rules_report_nothing_witness :
  ruleViolations (repositories saveOnly) repositoryRule
  = [implementationViolation (repositoryStruct saveOnly) repositoryRule]
  ∧ ∃ rule,
      Layer_StructsImplementInterfaces (layer "Infrastructure" "^infrastructure$")
        (Some (repositories saveOnly)) ".*Repository$" ".*RepositoryInterface$" = inr rule
      ∧ ∀ violations,
          violations ∈ CheckStructImplementsInterfaces (repositories saveOnly) [rule] →
          violations = [].
Proof.
  split; [vm_compute; reflexivity|].
  destruct (layer_scoped_rules_report_nothing
              (layer "Infrastructure" "^infrastructure$")
              (repositories saveOnly) (repositories saveOnly)
              ".*Repository$" (MustCompile ".*Repository$")) as [Hrule _].
  - repeat constructor.
  - done.
  - reflexivity.
  - vm_compute. reflexivity.
  - vm_compute. reflexivity.
  - intros path pkg key s Hpkg Hs. unfold repositories in Hpkg. simpl in Hpkg.
    apply lookup_insert_Some in Hpkg as [[_ <-]|[_ Hpkg]].
    + simpl in Hs. by rewrite lookup_empty in Hs.
    + apply lookup_singleton_Some in Hpkg as [_ <-]. simpl in Hs.
      apply lookup_singleton_Some in Hs as [_ <-]. vm_compute. reflexivity.
  - eexists. split; [vm_compute; reflexivity|].
    intros violations. apply (Hrule ".*RepositoryInterface$"). vm_compute. reflexivity.
Defined.
(** * The configuration *)

Lemma eqb_empty_false s : String.eqb s "" = false ↔ s ≠ EmptyString.
Proof. by rewrite String.eqb_neq. Qed.

Lemma invalid_false expr : config.invalid expr = false ↔ is_Some (Compile expr).
Proof.
  unfold config.invalid. destruct (Compile expr); split; done.
Qed.

Lemma goodPattern_checks expr :
  String.eqb expr "" = false ∧ config.invalid expr = false ↔ goodPattern expr.
Proof. unfold goodPattern. by rewrite eqb_empty_false, invalid_false. Qed.

Lemma index_insert_true (table : gmap string bool) (name k : string) :
  index (<[name := true]> table) k = true ↔ k = name ∨ index table k = true.
Proof.
  unfold index. destruct (decide (k = name)) as [->|Hne].
  - rewrite lookup_insert_eq. simpl. split; [by left|done].
  - rewrite lookup_insert_ne by done. split; [by right|]. by intros [?|?].
Qed.

Lemma validateLayers_inr layers layerNames result :
  config.validateLayers layers layerNames = inr result →
  Forall (λ layer, config.LayerConfig_Name layer ≠ EmptyString
                   ∧ goodPattern (config.LayerConfig_Pattern layer)) layers
  ∧ NoDup (map config.LayerConfig_Name layers)
  ∧ Forall (λ layer, index layerNames (config.LayerConfig_Name layer) = false) layers
  ∧ ∀ k, index result k = true ↔
         k ∈ map config.LayerConfig_Name layers ∨ index layerNames k = true.
Proof.
  revert layerNames. induction layers as [|layer rest IH]; intros layerNames; simpl.
  - intros [= <-]. split; [constructor|]. split; [constructor|]. split; [constructor|].
    intros k. split; [by right|]. by intros [?%elem_of_nil|?].
  - destruct (String.eqb (config.LayerConfig_Name layer) "") eqn:Hname; [done|].
    destruct (String.eqb (config.LayerConfig_Pattern layer) "") eqn:Hpattern; [done|].
    destruct (index layerNames (config.LayerConfig_Name layer)) eqn:Hdup; [done|].
    destruct (config.invalid (config.LayerConfig_Pattern layer)) eqn:Hinvalid; [done|].
    intros (Hall & Hnodup & Hfresh & Hresult)%IH.
    assert (∀ l, l ∈ rest → config.LayerConfig_Name l ≠ config.LayerConfig_Name layer) as Hne.
    { intros l Hl Heq. rewrite Forall_forall in Hfresh. specialize (Hfresh l Hl).
      rewrite Heq in Hfresh. apply not_true_iff_false in Hfresh. apply Hfresh.
      apply index_insert_true. by left. }
    split; [|split; [|split]].
    + constructor; [|done]. split; [by apply eqb_empty_false|by apply goodPattern_checks].
    + constructor; [|done].
      intros (l & Heq & Hl)%list_elem_of_In%in_map_iff.
      apply (Hne l); [by apply list_elem_of_In|done].
    + constructor; [done|]. apply Forall_forall. intros l Hl.
      rewrite Forall_forall in Hfresh. specialize (Hfresh l Hl).
      apply not_true_iff_false. intros Hk. apply not_true_iff_false in Hfresh.
      apply Hfresh, index_insert_true. by right.
    + intros k. rewrite Hresult, index_insert_true. rewrite elem_of_cons. tauto.
Qed.

Lemma validateLayers_complete layers layerNames :
  Forall (λ layer, config.LayerConfig_Name layer ≠ EmptyString
                   ∧ goodPattern (config.LayerConfig_Pattern layer)) layers →
  NoDup (map config.LayerConfig_Name layers) →
  Forall (λ layer, index layerNames (config.LayerConfig_Name layer) = false) layers →
  ∃ result, config.validateLayers layers layerNames = inr result.
Proof.
  intros Hall. revert layerNames.
  induction Hall as [|layer rest [Hname Hpattern] _ IH]; intros layerNames Hnodup Hfresh;
    simpl; [by eexists|].
  apply goodPattern_checks in Hpattern as [Hpattern Hinvalid].
  apply eqb_empty_false in Hname.
  apply Forall_cons in Hfresh as [Hlayer Hfresh].
  apply NoDup_cons in Hnodup as [Hnotin Hnodup].
  rewrite Hname, Hpattern, Hlayer, Hinvalid. apply IH; [done|].
  apply Forall_forall. intros l Hl. rewrite Forall_forall in Hfresh.
  apply not_true_iff_false. intros [Heq|Hk]%index_insert_true.
  - apply Hnotin. rewrite <- Heq. apply list_elem_of_In, in_map, list_elem_of_In, Hl.
  - by rewrite (Hfresh l Hl) in Hk.
Qed.

Lemma validateRules_None layerNames rules :
  config.validateRules layerNames rules = None ↔
  Forall (λ rule, config.From rule ≠ EmptyString ∧ config.To rule ≠ EmptyString
                  ∧ index layerNames (config.From rule) = true
                  ∧ index layerNames (config.To rule) = true) rules.
Proof.
  induction rules as [|rule rest IH]; simpl; [by split; [constructor|]|].
  rewrite Forall_cons, <- IH, <- !eqb_empty_false.
  destruct (String.eqb (config.From rule) ""), (String.eqb (config.To rule) ""),
    (index layerNames (config.From rule)), (index layerNames (config.To rule));
    simpl; split; try done; intuition congruence.
Qed.

Lemma validateInterfaceRules_None i rules :
  config.validateInterfaceRules i rules = None ↔
  Forall (λ rule, goodPattern (config.IRC_StructPattern rule)
                  ∧ goodPattern (config.IRC_InterfacePattern rule)) rules.
Proof.
  revert i. induction rules as [|rule rest IH]; intros i; simpl; [by split; [constructor|]|].
  rewrite Forall_cons, <- (IH (S i)), <- !goodPattern_checks.
  destruct (String.eqb (config.IRC_StructPattern rule) ""),
    (String.eqb (config.IRC_InterfacePattern rule) ""),
    (config.invalid (config.IRC_StructPattern rule)),
    (config.invalid (config.IRC_InterfacePattern rule));
    simpl; split; try done; intuition congruence.
Qed.

Lemma validateParameterRules_None i rules :
  config.validateParameterRules i rules = None ↔
  Forall (λ rule, goodPattern (config.PRC_StructPattern rule)
                  ∧ goodPattern (config.PRC_MethodPattern rule)
                  ∧ goodPattern (config.PRC_ParameterTypePattern rule)) rules.
Proof.
  revert i. induction rules as [|rule rest IH]; intros i; simpl; [by split; [constructor|]|].
  rewrite Forall_cons, <- (IH (S i)), <- !goodPattern_checks.
  destruct (String.eqb (config.PRC_StructPattern rule) ""),
    (String.eqb (config.PRC_MethodPattern rule) ""),
    (String.eqb (config.PRC_ParameterTypePattern rule) ""),
    (config.invalid (config.PRC_StructPattern rule)),
    (config.invalid (config.PRC_MethodPattern rule)),
    (config.invalid (config.PRC_ParameterTypePattern rule));
    simpl; split; try done; intuition congruence.
Qed.

Lemma present_true parameters key :
  config.present parameters key = true ↔ is_Some (parameters !! key).
Proof. unfold config.present. by rewrite bool_decide_eq_true. Qed.

Lemma validateParameters_None ruleType parameters :
  ruleType ∈ ["dependency"; "interface"; "parameter"] →
  config.validateParameters ruleType parameters = None ↔
  Forall (λ key, is_Some (parameters !! key)) (requiredParameters ruleType)
  ∧ Forall (λ key, is_Some (Compile (config.parameter parameters key)))
           (patternParameters ruleType).
Proof.
  intros Htype. unfold config.validateParameters, requiredParameters, patternParameters.
  rewrite !elem_of_cons in Htype.
  destruct Htype as [->|[->|[->|?%elem_of_nil]]]; [| | |done].
  - change (String.eqb "dependency" "dependency") with true. cbv iota.
    rewrite !Forall_cons, !Forall_nil, <- present_true, <- invalid_false.
    destruct (config.present parameters "targetPattern"),
      (config.invalid (config.parameter parameters "targetPattern"));
      simpl; split; try done; intuition congruence.
  - change (String.eqb "interface" "dependency") with false.
    change (String.eqb "interface" "interface") with true. cbv iota.
    rewrite !Forall_cons, !Forall_nil, <- !present_true, <- !invalid_false.
    destruct (config.present parameters "structPattern"),
      (config.present parameters "interfacePattern"),
      (config.invalid (config.parameter parameters "structPattern")),
      (config.invalid (config.parameter parameters "interfacePattern"));
      simpl; split; try done; intuition congruence.
  - change (String.eqb "parameter" "dependency") with false.
    change (String.eqb "parameter" "interface") with false.
    change (String.eqb "parameter" "parameter") with true. cbv iota.
    rewrite !Forall_cons, !Forall_nil, <- !present_true, <- !invalid_false.
    destruct (config.present parameters "structPattern"),
      (config.present parameters "methodPattern"),
      (config.present parameters "parameterTypePattern"),
      (config.present parameters "shouldUseInterface"),
      (config.invalid (config.parameter parameters "structPattern")),
      (config.invalid (config.parameter parameters "methodPattern")),
      (config.invalid (config.parameter parameters "parameterTypePattern"));
      simpl; split; try done; intuition congruence.
Qed.

Lemma ruleType_checks ruleType :
  String.eqb ruleType "" = false
  ∧ negb (String.eqb ruleType "dependency") && negb (String.eqb ruleType "interface")
    && negb (String.eqb ruleType "parameter") = false
  ↔ ruleType ∈ ["dependency"; "interface"; "parameter"].
Proof.
  rewrite !elem_of_cons. split.
  - intros [_ H].
    destruct (String.eqb_spec ruleType "dependency") as [Heq|_]; [by left|].
    destruct (String.eqb_spec ruleType "interface") as [Heq|_]; [right; by left|].
    destruct (String.eqb_spec ruleType "parameter") as [Heq|_]; [right; right; by left|].
    done.
  - intros [->|[->|[->|?%elem_of_nil]]]; done.
Qed.

Lemma required_nonempty ruleType (parameters : gmap string string) :
  Forall (λ key, is_Some (parameters !! key)) (requiredParameters ruleType) →
  (size parameters =? 0)%nat = false.
Proof.
  intros Hall. apply Nat.eqb_neq. intros Hsize%map_size_empty_inv.
  rewrite Hsize in Hall. unfold requiredParameters in Hall.
  destruct (String.eqb ruleType "dependency"), (String.eqb ruleType "interface");
    apply Forall_cons in Hall as [[? H] _]; by rewrite lookup_empty in H.
Qed.

Lemma validateLayerSpecificRules_None layerNames i rules :
  config.validateLayerSpecificRules layerNames i rules = None ↔
  Forall (λ rule, config.LSR_Layer rule ≠ EmptyString
                  ∧ index layerNames (config.LSR_Layer rule) = true
                  ∧ config.RuleType rule ∈ ["dependency"; "interface"; "parameter"]
                  ∧ Forall (λ key, is_Some (config.Parameters rule !! key))
                           (requiredParameters (config.RuleType rule))
                  ∧ Forall (λ key, is_Some (Compile (config.parameter
                                                       (config.Parameters rule) key)))
                           (patternParameters (config.RuleType rule))) rules.
Proof.
  revert i. induction rules as [|rule rest IH]; intros i; simpl; [by split; [constructor|]|].
  rewrite Forall_cons, <- (IH (S i)), <- eqb_empty_false, <- ruleType_checks.
  destruct (String.eqb (config.LSR_Layer rule) "");
    [split; [done|intuition congruence]|].
  destruct (index layerNames (config.LSR_Layer rule));
    [|simpl; split; [done|intuition congruence]].
  simpl negb at 1. cbv iota.
  destruct (String.eqb (config.RuleType rule) "") eqn:Hempty;
    [split; [done|intuition congruence]|].
  destruct (negb (String.eqb (config.RuleType rule) "dependency")
            && negb (String.eqb (config.RuleType rule) "interface")
            && negb (String.eqb (config.RuleType rule) "parameter")) eqn:Htype;
    [split; [done|intuition congruence]|].
  assert (config.RuleType rule ∈ ["dependency"; "interface"; "parameter"]) as Hin
    by (by apply ruleType_checks).
  pose proof (validateParameters_None _ (config.Parameters rule) Hin) as Hparams.
  destruct (size (config.Parameters rule) =? 0)%nat eqn:Hsize.
  { split; [done|]. intros [(_ & _ & _ & Hreq & _) _].
    apply required_nonempty in Hreq. congruence. }
  destruct (config.validateParameters (config.RuleType rule) (config.Parameters rule))
    as [what|] eqn:Hv.
  - split; [done|]. intros [(_ & _ & _ & Hreq & Hpat) _].
    pose proof (proj2 Hparams (conj Hreq Hpat)). congruence.
  - destruct (proj1 Hparams eq_refl) as [Hreq Hpat]. tauto.
Qed.

Lemma validateDirectLayerDependencyRules_None layerNames i rules :
  config.validateDirectLayerDependencyRules layerNames i rules = None ↔
  Forall (λ rule, config.SourceLayer rule ≠ EmptyString
                  ∧ config.TargetLayer rule ≠ EmptyString
                  ∧ index layerNames (config.SourceLayer rule) = true
                  ∧ index layerNames (config.TargetLayer rule) = true) rules.
Proof.
  revert i. induction rules as [|rule rest IH]; intros i; simpl; [by split; [constructor|]|].
  rewrite Forall_cons, <- (IH (S i)), <- !eqb_empty_false.
  destruct (String.eqb (config.SourceLayer rule) ""),
    (String.eqb (config.TargetLayer rule) ""),
    (index layerNames (config.SourceLayer rule)),
    (index layerNames (config.TargetLayer rule));
    simpl; split; try done; intuition congruence.
Qed.

Lemma index_empty k : index (∅ : gmap string bool) k = false.
Proof. unfold index. by rewrite lookup_empty. Qed.

Lemma validateConfig_well_formed (c : config.Config) :
  config.validateConfig c = None ↔ wellFormed c.
Proof.
  unfold config.validateConfig, wellFormed, layerNamesOf.
  destruct (config.Layers c) as [|layer0 layers0] eqn:Hlayers.
  { simpl. split; [done|]. by intros [? _]. }
  rewrite <- Hlayers. 
  assert ((length (config.Layers c) =? 0)%nat = false) as -> by (by rewrite Hlayers).
  assert (config.Layers c ≠ []) as Hne by (by rewrite Hlayers).
  clear Hlayers layer0 layers0.
  destruct (config.validateLayers (config.Layers c) ∅) as [err|layerNames] eqn:Hv.
  - split; [done|]. intros (_ & Hall & Hnodup & _).
    destruct (validateLayers_complete (config.Layers c) ∅ Hall Hnodup) as [result Hresult].
    + apply Forall_forall. intros l _. apply index_empty.
    + congruence.
  - apply validateLayers_inr in Hv as (Hall & Hnodup & _ & Hnames).
    assert (∀ k, index layerNames k = true ↔ k ∈ map config.LayerConfig_Name (config.Layers c))
      as Hindex.
    { intros k. rewrite Hnames, index_empty. split; [by intros [?|?]|by left]. }
    assert (∀ k, k ∈ map config.LayerConfig_Name (config.Layers c) → k ≠ EmptyString)
      as Hnonempty.
    { intros k (l & <- & Hl)%list_elem_of_In%in_map_iff.
      rewrite Forall_forall in Hall. apply (Hall l). by apply list_elem_of_In. }
    pose proof (validateRules_None layerNames (config.Rules c)) as Hrules.
    pose proof (validateInterfaceRules_None 0 (config.InterfaceRules c)) as Hinterface.
    pose proof (validateParameterRules_None 0 (config.ParameterRules c)) as Hparameter.
    pose proof (validateLayerSpecificRules_None layerNames 0 (config.LayerSpecificRules c))
      as Hspecific.
    pose proof (validateDirectLayerDependencyRules_None layerNames 0
                  (config.DirectLayerDependencyRules c)) as Hdirect.
    assert (Forall (λ rule, config.From rule ≠ EmptyString ∧ config.To rule ≠ EmptyString
                  ∧ index layerNames (config.From rule) = true
                  ∧ index layerNames (config.To rule) = true) (config.Rules c)
            ↔ Forall (λ rule, config.From rule ∈ map config.LayerConfig_Name (config.Layers c)
                              ∧ config.To rule ∈ map config.LayerConfig_Name (config.Layers c))
                     (config.Rules c)) as Hrules'.
    { rewrite !Forall_forall. split; intros H rule Hrule; specialize (H rule Hrule).
      - rewrite <- !Hindex. tauto.
      - rewrite !Hindex. destruct H as [H1 H2]. auto. }
    assert (Forall (λ rule, config.LSR_Layer rule ≠ EmptyString
                  ∧ index layerNames (config.LSR_Layer rule) = true
                  ∧ config.RuleType rule ∈ ["dependency"; "interface"; "parameter"]
                  ∧ Forall (λ key, is_Some (config.Parameters rule !! key))
                           (requiredParameters (config.RuleType rule))
                  ∧ Forall (λ key, is_Some (Compile (config.parameter
                                                       (config.Parameters rule) key)))
                           (patternParameters (config.RuleType rule)))
                   (config.LayerSpecificRules c)
            ↔ Forall (λ rule, config.LSR_Layer rule
                                ∈ map config.LayerConfig_Name (config.Layers c)
                    ∧ config.RuleType rule ∈ ["dependency"; "interface"; "parameter"]
                    ∧ Forall (λ key, is_Some (config.Parameters rule !! key))
                             (requiredParameters (config.RuleType rule))
                    ∧ Forall (λ key, is_Some (Compile (config.parameter
                                                         (config.Parameters rule) key)))
                             (patternParameters (config.RuleType rule)))
                     (config.LayerSpecificRules c)) as Hspecific'.
    { rewrite !Forall_forall. split; intros H rule Hrule; specialize (H rule Hrule).
      - rewrite <- !Hindex. tauto.
      - rewrite !Hindex. destruct H as (H1 & H2). auto. }
    assert (Forall (λ rule, config.SourceLayer rule ≠ EmptyString
                  ∧ config.TargetLayer rule ≠ EmptyString
                  ∧ index layerNames (config.SourceLayer rule) = true
                  ∧ index layerNames (config.TargetLayer rule) = true)
                   (config.DirectLayerDependencyRules c)
            ↔ Forall (λ rule, config.SourceLayer rule
                                ∈ map config.LayerConfig_Name (config.Layers c)
                              ∧ config.TargetLayer rule
                                ∈ map config.LayerConfig_Name (config.Layers c))
                     (config.DirectLayerDependencyRules c)) as Hdirect'.
    { rewrite !Forall_forall. split; intros H rule Hrule; specialize (H rule Hrule).
      - rewrite <- !Hindex. tauto.
      - rewrite !Hindex. destruct H as [H1 H2]. auto. }
    rewrite <- Hrules', <- Hspecific', <- Hdirect', <- Hrules, <- Hinterface, <- Hparameter,
      <- Hspecific, <- Hdirect.
    destruct (config.validateRules layerNames (config.Rules c));
      [split; [done|intuition congruence]|].
    destruct (config.validateInterfaceRules 0 (config.InterfaceRules c));
      [split; [done|intuition congruence]|].
    destruct (config.validateParameterRules 0 (config.ParameterRules c));
      [split; [done|intuition congruence]|].
    destruct (config.validateLayerSpecificRules layerNames 0 (config.LayerSpecificRules c));
      [split; [done|intuition congruence]|].
    destruct (config.validateDirectLayerDependencyRules layerNames 0
                (config.DirectLayerDependencyRules c));
      [split; [done|intuition congruence]|].
    tauto.
Qed.

(** X20. [validateConfig] accepts exactly the well-formed configurations:
    at least one layer; every layer with a name, and a pattern that is not
    empty and compiles; no two layers with the same name; every rule and
    every direct layer dependency rule between defined layers; every
    interface rule and parameter rule with patterns that are not empty and
    compile; every layer-specific rule for a defined layer, of the type
    [dependency], [interface] or [parameter], with the parameters of its
    type present and its pattern parameters compiling. *)
Theorem validateConfig_accepts_the_well_formed (c : config.Config) :
  config.validateConfig c = None ↔ wellFormed c.
Proof. apply validateConfig_well_formed. Qed.

Lemma NewLayer_one_pattern name pattern :
  is_Some (Compile pattern) →
  ∃ l, NewLayer name [pattern] = inr l ∧ Layer_Name l = name.
Proof.
  intros [re Hre]. unfold NewLayer. simpl. rewrite Hre. by eexists.
Qed.

Lemma WhereLayer_from_distinct (layers : list Layer) (l : Layer) :
  NoDup (map Layer_Name layers) → l ∈ layers →
  WhereLayer_from layers (Layer_Name l) = Some l.
Proof.
  induction layers as [|layer rest IH]; intros Hnodup Hin; [by apply elem_of_nil in Hin|].
  simpl in *. apply NoDup_cons in Hnodup as [Hnotin Hnodup].
  apply elem_of_cons in Hin as [->|Hin].
  - by rewrite String.eqb_refl.
  - destruct (String.eqb_spec (Layer_Name layer) (Layer_Name l)) as [Heq|_]; [|by apply IH].
    exfalso. apply Hnotin. rewrite Heq.
    by apply list_elem_of_In, in_map, list_elem_of_In.
Qed.

(** X21. A configuration that [validateConfig] accepts can be built with
    the constructors of the library: [NewLayer] succeeds on every layer's
    name and pattern; in the layered architecture of these layers every
    layer is found under its own name, and so are the layers that the
    rules, the layer-specific rules and the direct layer dependency rules
    name; [NewInterfaceImplementationRule] and [NewParameterRule] succeed on
    every interface rule and parameter rule. *)
Theorem validated_config_builds (c : config.Config) :
  config.validateConfig c = None →
  (∃ layers,
     Forall2 (λ layerConfig l,
                NewLayer (config.LayerConfig_Name layerConfig)
                         [config.LayerConfig_Pattern layerConfig] = inr l
                ∧ WhereLayer (NewLayeredArchitecture layers)
                             (config.LayerConfig_Name layerConfig) = Some l)
             (config.Layers c) layers
     ∧ Forall (λ rule,
                 is_Some (WhereLayer (NewLayeredArchitecture layers) (config.From rule))
                 ∧ is_Some (WhereLayer (NewLayeredArchitecture layers) (config.To rule)))
              (config.Rules c)
     ∧ Forall (λ rule,
                 is_Some (WhereLayer (NewLayeredArchitecture layers) (config.LSR_Layer rule)))
              (config.LayerSpecificRules c)
     ∧ Forall (λ rule,
                 is_Some (WhereLayer (NewLayeredArchitecture layers)
                                     (config.SourceLayer rule))
                 ∧ is_Some (WhereLayer (NewLayeredArchitecture layers)
                                       (config.TargetLayer rule)))
              (config.DirectLayerDependencyRules c))
  ∧ Forall (λ rule, ∃ r, NewInterfaceImplementationRule
                           (config.IRC_StructPattern rule)
                           (config.IRC_InterfacePattern rule) = inr r)
           (config.InterfaceRules c)
  ∧ Forall (λ rule, ∃ r, NewParameterRule
                           (config.PRC_StructPattern rule) (config.PRC_MethodPattern rule)
                           (config.PRC_ParameterTypePattern rule)
                           (config.PRC_ShouldUseInterface rule) = inr r)
           (config.ParameterRules c).
Proof.
  intros (_ & Hlayers & Hnodup & Hrules & Hinterface & Hparameter & Hspecific & Hdirect)
    %validateConfig_well_formed.
  split; [|split].
  - assert (∃ layers,
              Forall2 (λ layerConfig l,
                         NewLayer (config.LayerConfig_Name layerConfig)
                                  [config.LayerConfig_Pattern layerConfig] = inr l
                         ∧ Layer_Name l = config.LayerConfig_Name layerConfig)
                      (config.Layers c) layers) as [layers Hbuilt].
    { clear -Hlayers. induction Hlayers as [|lc rest [_ [_ Hre]] _ [layers IH]].
      - exists []. constructor.
      - destruct (NewLayer_one_pattern (config.LayerConfig_Name lc) _ Hre) as (l & Hl & Hn).
        exists (l :: layers). by constructor. }
    assert (map Layer_Name layers = layerNamesOf c) as Hnames.
    { unfold layerNamesOf. clear -Hbuilt.
      induction Hbuilt as [|lc l rest layers [_ Hn] _ IH]; [done|]. simpl. by rewrite Hn, IH. }
    assert (∀ name, name ∈ layerNamesOf c →
              is_Some (WhereLayer (NewLayeredArchitecture layers) name)) as Hfound.
    { intros name Hname. rewrite <- Hnames in Hname.
      apply list_elem_of_In, in_map_iff in Hname as (l & <- & Hl).
      exists l. unfold WhereLayer, NewLayeredArchitecture. simpl.
      apply WhereLayer_from_distinct; [by rewrite Hnames|by apply list_elem_of_In]. }
    exists layers. split; [|split; [|split]].
    + apply Forall2_same_length_lookup. split; [by eapply Forall2_length|].
      intros i lc l Hlc Hl.
      destruct (Forall2_lookup_lr _ _ _ _ _ _ Hbuilt Hlc Hl) as [Hnew Hn].
      split; [done|]. rewrite <- Hn. unfold WhereLayer, NewLayeredArchitecture. simpl.
      apply WhereLayer_from_distinct; [by rewrite Hnames|]. by eapply list_elem_of_lookup_2.
    + eapply Forall_impl; [exact Hrules|]. intros rule [H1 H2]. split; by apply Hfound.
    + eapply Forall_impl; [exact Hspecific|]. intros rule [H1 _]. by apply Hfound.
    + eapply Forall_impl; [exact Hdirect|]. intros rule [H1 H2]. split; by apply Hfound.
  - eapply Forall_impl; [exact Hinterface|]. intros rule [[_ [re1 H1]] [_ [re2 H2]]].
    unfold NewInterfaceImplementationRule. rewrite H1, H2. by eexists.
  - eapply Forall_impl; [exact Hparameter|].
    intros rule ([_ [re1 H1]] & [_ [re2 H2]] & [_ [re3 H3]]).
    unfold NewParameterRule. rewrite H1, H2, H3. by eexists.
Qed.

(** The valid configuration of the package's test. *)
Lemma validated_config_builds_witness :
  ∃ layers,
    Forall2 (λ layerConfig l,
               NewLayer (config.LayerConfig_Name layerConfig)
                        [config.LayerConfig_Pattern layerConfig] = inr l
               ∧ WhereLayer (NewLayeredArchitecture layers)
                            (config.LayerConfig_Name layerConfig) = Some l)
            (config.Layers validConfig) layers
    ∧ Forall (λ rule,
                is_Some (WhereLayer (NewLayeredArchitecture layers) (config.From rule))
                ∧ is_Some (WhereLayer (NewLayeredArchitecture layers) (config.To rule)))
             (config.Rules validConfig).
Proof.
  destruct (validated_config_builds validConfig) as [(layers & Hlayers & Hrules & _) _].
  - vm_compute. reflexivity.
  - by exists layers.
Defined.

(** ** Membership in a layer, for packages and for imports *)

(** X22. [Check] decides membership in a layer differently for a package
    and for an import.  A layer made by [NewLayer] from the patterns [^f$]
    of literal paths contains exactly the package paths that are one of the
    paths; it claims an import path when that is one of the paths, and also
    when it ends in [/] followed by the first path - but not when it ends in
    [/] followed by another of the paths. *)
Theorem layer_membership_of_packages_and_imports (l : Layer) (paths : list string) :
  madeOfPaths l paths →
  (∀ pkgPath, Contains l pkgPath = true ↔ pkgPath ∈ paths)
  ∧ (∀ importPath,
       importInLayer l (patterns l) importPath = Returns true ↔
       importPath ∈ paths
       ∨ ∃ first rest, paths = first :: rest
                       ∧ GoStrings.HasSuffix importPath ("/" +:+ first) = true)
  ∧ (∀ importPath, ∃ found, importInLayer l (patterns l) importPath = Returns found).
Proof.
  intros Hl.
  assert (∀ path, existsb (String.eqb path) paths = true ↔ path ∈ paths) as Hexists.
  { intros path. rewrite existsb_exists. split.
    - intros (f & Hf & ->%String.eqb_eq). by apply list_elem_of_In.
    - intros Hin. exists path. split; [by apply list_elem_of_In|apply String.eqb_refl]. }
  split; [|split].
  - intros pkgPath. by rewrite (Contains_madeOfPaths _ _ _ Hl).
  - intros importPath. rewrite (importInLayer_madeOfPaths _ _ _ Hl).
    destruct paths as [|first rest].
    + split; [done|]. intros [?%elem_of_nil|(? & ? & ? & _)]; done.
    + split.
      * intros [= [H|H]%orb_true_iff]; [left; by apply Hexists|].
        right. by exists first, rest.
      * intros [H|(first' & rest' & [= <- <-] & H)]; f_equal; apply orb_true_iff.
        -- left. by apply Hexists.
        -- by right.
  - intros importPath. rewrite (importInLayer_madeOfPaths _ _ _ Hl). by eexists.
Qed.

(** The layer of [^domain$] and [^model$]: the package [domain] is in it and
    [example/domain] is not; the import [example/domain] is taken for it, the
    import [example/model] is not. *)
Lemma layer_membership_of_packages_and_imports_witness :
  ∃ l, NewLayer "Domain" ["^domain$"; "^model$"] = inr l
       ∧ Contains l "domain" = true
       ∧ Contains l "example/domain" = false
       ∧ importInLayer l (patterns l) "example/domain" = Returns true
       ∧ importInLayer l (patterns l) "example/model" = Returns false.
Proof.
  destruct (NewLayer "Domain" ["^domain$"; "^model$"]) as [e|l] eqn:Hl;
    [vm_compute in Hl; discriminate|].
  assert (Layer_Name l = "Domain") as Hname by (vm_compute in Hl; by injection Hl as <-).
  destruct (layer_membership_of_packages_and_imports l ["domain"; "model"])
    as (Hc & Hi & Hr).
  - split; [repeat constructor|]. by rewrite Hname.
  - exists l. split; [done|]. split; [|split; [|split]].
    + apply Hc. by left.
    + apply not_true_iff_false. intros H%Hc.
      apply elem_of_cons in H as [H|H]; [done|].
      apply elem_of_cons in H as [H|H]; [done|]. by apply elem_of_nil in H.
    + apply Hi. right. exists "domain", ["model"]. split; [done|]. vm_compute. reflexivity.
    + destruct (Hr "example/model") as [[|] Hfound]; [|done].
      apply Hi in Hfound as [H|(first & rest & [= <- <-] & H)].
      * apply elem_of_cons in H as [H|H]; [done|].
        apply elem_of_cons in H as [H|H]; [done|]. by apply elem_of_nil in H.
      * vm_compute in H. discriminate.
Defined.
